(** * CRE DCF valuation tool: cash-flow projection, returns, sensitivity
      and deal scoring

    A shallow embedding of the calculation core of
    [CRE_underwriting_project_DEPLOYMENT.py] and the properties its
    specification states about it.

    Numbers.  The program computes with Python floats.  They are modelled
    by exact rationals in canonical form ([Qc]), so every statement below
    is about the arithmetic the formulas denote, not about rounding.
    Python integers (years, unit counts) are [Z].  A division whose
    divisor is zero raises [ZeroDivisionError], as Python's [/] does on
    floats and integers.  Where an operand is a numpy value, numpy
    yields [inf] or [nan] instead of raising; neither is a rational, and
    the model reports the same error there.  The slope under the
    one-way chart, from which the program derives a level whatever the
    value, carries them as an [npfloat]. *)

From Stdlib Require Import ZArith QArith Qcanon List Bool String Lia Lqa.
Import ListNotations.

Open Scope Z_scope.
Open Scope Qc_scope.

(** ** Rationals as the program's numbers *)

Definition ofZ (z : Z) : Qc := Q2Qc (inject_Z z).
Coercion ofZ : Z >-> Qc.

(** A decimal literal such as [6.5] is written [dec 65 10]. *)
Definition dec (n : Z) (d : positive) : Qc := Q2Qc (n # d).

Definition Qceqb (x y : Qc) : bool := Qeq_bool x y.
Definition Qcleb (x y : Qc) : bool := Qle_bool x y.
Definition Qcltb (x y : Qc) : bool := negb (Qle_bool y x).

Infix "=?" := Qceqb (at level 70, no associativity) : Qc_scope.
Infix "<=?" := Qcleb (at level 70, no associativity) : Qc_scope.
Infix "<?" := Qcltb (at level 70, no associativity) : Qc_scope.

(** Python's [max(a, b)] and [min(a, b)]: the first argument unless the
    second is strictly larger (smaller). *)
Definition Qcmax (a b : Qc) : Qc := if a <? b then b else a.
Definition Qcmin (a b : Qc) : Qc := if b <? a then b else a.

(** [x ** n] for an integer exponent.  Every exponent the program
    computes is non-negative on the path that reaches it; the negative
    case is the reciprocal. *)
Definition pow (x : Qc) (n : Z) : Qc :=
  match n with
  | Z0 => 1
  | Zpos p => x ^ Pos.to_nat p
  | Zneg p => / (x ^ Pos.to_nat p)
  end.

(** Python's [sum]. *)
Definition sum (l : list Qc) : Qc := fold_left Qcplus l 0.

(** ** Exceptions *)

Inductive exn : Set :=
| ZeroDivisionError
| IndexError
| KeyError.

Inductive result (A : Type) : Type :=
| Ok (a : A)
| Raise (e : exn).
Arguments Ok {A} a.
Arguments Raise {A} e.

Definition bind {A B : Type} (m : result A) (k : A -> result B) : result B :=
  match m with
  | Ok a => k a
  | Raise e => Raise e
  end.

Notation "x <- m ;; k" := (bind m (fun x => k))
  (at level 61, m at next level, right associativity).

(** [try: m  except: d] with a bare [except]. *)
Definition try_except {A : Type} (m : result A) (d : A) : A :=
  match m with
  | Ok a => a
  | Raise _ => d
  end.

(** True division. *)
Definition div (x y : Qc) : result Qc :=
  if y =? 0 then Raise ZeroDivisionError else Ok (x / y).

(** ** Loan arithmetic *)

(** [calculate_debt_service(year, loan_amount, interest_rate,
    amortization, io_period)]. *)
Definition calculate_debt_service
    (year : Z) (loan_amount interest_rate : Qc) (amortization io_period : Z)
  : result Qc :=
  if (year <=? io_period)%Z || (loan_amount =? 0) then
    Ok (loan_amount * (interest_rate / 100))
  else
    let monthly_rate := interest_rate / 100 / 12 in
    let remaining_payments := ((amortization - io_period) * 12)%Z in
    if (remaining_payments <=? 0)%Z then Ok 0
    else
      monthly_pmt <-
        div (loan_amount *
             (monthly_rate * pow (1 + monthly_rate) remaining_payments))
            (pow (1 + monthly_rate) remaining_payments - 1) ;;
      Ok (monthly_pmt * 12).

(** [calc_remaining_balance(loan_amount, interest_rate, amortization,
    io_period, holding_period)]. *)
Definition calc_remaining_balance
    (loan_amount interest_rate : Qc) (amortization io_period holding_period : Z)
  : result Qc :=
  if (holding_period <=? io_period)%Z || (loan_amount =? 0) then
    Ok loan_amount
  else
    let monthly_rate := interest_rate / 100 / 12 in
    let total_pmts := ((amortization - io_period) * 12)%Z in
    let remaining_pmts := ((amortization - holding_period) * 12)%Z in
    if (remaining_pmts <=? 0)%Z then Ok 0
    else
      monthly_pmt <-
        div (loan_amount * (monthly_rate * pow (1 + monthly_rate) total_pmts))
            (pow (1 + monthly_rate) total_pmts - 1) ;;
      div (monthly_pmt * (pow (1 + monthly_rate) remaining_pmts - 1))
          (monthly_rate * pow (1 + monthly_rate) remaining_pmts).

(** ** Year-by-year cash flows *)

Inductive PropertyType : Set :=
| SingleFamily
| Multifamily
| Office
| Retail.

(** One record of [cash_flow_data]; the keys of the Python dictionary
    are the field names. *)
Record CashFlowRow : Set := {
  Year : Z;
  Gross_Income : Qc;
  EGI : Qc;
  OpEx : Qc;
  Mgmt_Fees : Qc;
  CapEx : Qc;
  NOI : Qc;
  Debt_Service : Qc;
  BTCF : Qc;
  Taxes : Qc;
  ATCF : Qc;
  CoC_Return : Qc
}.

(** The three accumulators of the twelve-month loop. *)
Record MonthState : Set := {
  interest_expense : Qc;
  principal_paid_this_year : Qc;
  temp_balance : Qc
}.

(** [range(a, b)]. *)
Definition range (a b : Z) : list Z :=
  map (fun k => (a + Z.of_nat k)%Z) (seq 0 (Z.to_nat (b - a))).

Section CashFlowProjection.

Variable property_type : PropertyType.
Variable holding_period : Z.
Variable unit_rents : list Qc.
Variables annual_rent_total rent_growth vacancy : Qc.
Variables opex_per_unit_or_sf opex_growth : Qc.
Variable units_or_sf : Z.
Variables management_fee capex_per_unit_or_sf : Qc.
Variables loan_amount interest_rate : Qc.
Variables amortization io_period : Z.
Variables equity_required tax_rate annual_depreciation : Qc.

(** [monthly_rate = interest_rate / 100 / 12 if interest_rate > 0 else 0] *)
Definition cf_monthly_rate : Qc :=
  if 0 <? interest_rate then interest_rate / 100 / 12 else 0.

(** Body of [for month in range(12)]. *)
Definition month_step (monthly_payment : Qc) (s : MonthState) : MonthState :=
  let monthly_interest := temp_balance s * cf_monthly_rate in
  let monthly_principal := monthly_payment - monthly_interest in
  {| interest_expense := interest_expense s + monthly_interest;
     principal_paid_this_year := principal_paid_this_year s + monthly_principal;
     temp_balance := temp_balance s - monthly_principal |}.

(** The block "Calculate interest expense": the year's interest, the
    principal paid, and the loan balance carried to the next year. *)
Definition amortize_year (year : Z) (current_loan_balance : Qc)
  : result (MonthState) :=
  if loan_amount =? 0 then
    Ok {| interest_expense := 0; principal_paid_this_year := 0;
          temp_balance := current_loan_balance |}
  else if (year <=? io_period)%Z then
    Ok {| interest_expense := current_loan_balance * (interest_rate / 100);
          principal_paid_this_year := 0;
          temp_balance := current_loan_balance |}
  else if (io_period <? amortization)%Z then
    let remaining_payments := ((amortization - io_period) * 12)%Z in
    monthly_payment <-
      div (loan_amount *
           (cf_monthly_rate * pow (1 + cf_monthly_rate) remaining_payments))
          (pow (1 + cf_monthly_rate) remaining_payments - 1) ;;
    Ok (Nat.iter 12 (month_step monthly_payment)
          {| interest_expense := 0; principal_paid_this_year := 0;
             temp_balance := current_loan_balance |})
  else
    Ok {| interest_expense := 0; principal_paid_this_year := 0;
          temp_balance := current_loan_balance |}.

(** Body of [for year in range(1, holding_period + 1)]: the appended
    record and the value of [current_loan_balance] after the year. *)
Definition cash_flow_year (year : Z) (current_loan_balance : Qc)
  : result (CashFlowRow * Qc) :=
  let gri :=
    match property_type with
    | SingleFamily | Multifamily =>
        let year_rents :=
          map (fun rent => rent * pow (1 + rent_growth / 100) (year - 1))
              unit_rents in
        let year_total_rent := sum year_rents in
        year_total_rent * 12
    | _ => annual_rent_total * pow (1 + rent_growth / 100) (year - 1)
    end in
  let egi := gri * (1 - vacancy / 100) in
  let opex :=
    match property_type with
    | SingleFamily =>
        opex_per_unit_or_sf * pow (1 + opex_growth / 100) (year - 1)
    | _ =>
        opex_per_unit_or_sf * units_or_sf
        * pow (1 + opex_growth / 100) (year - 1)
    end in
  let mgmt := egi * (management_fee / 100) in
  let capex :=
    match property_type with
    | SingleFamily => capex_per_unit_or_sf
    | _ => capex_per_unit_or_sf * units_or_sf
    end in
  let noi := egi - opex - mgmt in
  let ncf := noi - capex in
  ds <- calculate_debt_service year loan_amount interest_rate
          amortization io_period ;;
  am <- amortize_year year current_loan_balance ;;
  let btcf := ncf - ds in
  let taxable_income := noi - interest_expense am - annual_depreciation in
  let taxes :=
    if 0 <? tax_rate then Qcmax 0 (taxable_income * (tax_rate / 100))
    else 0 in
  let atcf := if 0 <? tax_rate then btcf - taxes else btcf in
  coc <- (if 0 <? equity_required
          then q <- div btcf equity_required ;; Ok (q * 100)
          else Ok 0) ;;
  Ok ({| Year := year; Gross_Income := gri; EGI := egi; OpEx := opex;
         Mgmt_Fees := mgmt; CapEx := capex; NOI := noi;
         Debt_Service := ds; BTCF := btcf;
         Taxes := if 0 <? tax_rate then taxes else 0;
         ATCF := if 0 <? tax_rate then atcf else btcf;
         CoC_Return := coc |},
      temp_balance am).

(** The year loop, threading [current_loan_balance]; each record is
    paired with the balance at the end of its year. *)
Fixpoint cash_flow_loop (years : list Z) (current_loan_balance : Qc)
  : result (list (CashFlowRow * Qc)) :=
  match years with
  | [] => Ok []
  | year :: rest =>
      rb <- cash_flow_year year current_loan_balance ;;
      tl <- cash_flow_loop rest (snd rb) ;;
      Ok (rb :: tl)
  end.

Definition cash_flow_trace : result (list (CashFlowRow * Qc)) :=
  cash_flow_loop (range 1 (holding_period + 1)) loan_amount.

(** [calculate_cash_flows(...)]: the rows of the returned data frame. *)
Definition calculate_cash_flows : result (list CashFlowRow) :=
  tr <- cash_flow_trace ;;
  Ok (map fst tr).

(** The running [current_loan_balance] at the end of each year. *)
Definition loan_balance_by_year : result (list Qc) :=
  tr <- cash_flow_trace ;;
  Ok (map snd tr).

End CashFlowProjection.

(** ** The assumption set and the script's derived quantities *)

(** The sidebar inputs.  Of the three rent inputs the script shows one,
    by property type: [monthly_rent] for a single-family house, one
    monthly rent per unit ([unit_rent_inputs]) for a multifamily
    building, [rent_per_sf] for office and retail space. *)
Record Inputs : Set := {
  property_type : PropertyType;
  units_or_sf : Z;
  monthly_rent : Qc;
  unit_rent_inputs : list Qc;
  rent_per_sf : Qc;
  purchase_price : Qc;
  closing_costs : Qc;
  rent_growth : Qc;
  vacancy : Qc;
  opex_per_unit_or_sf : Qc;
  opex_growth : Qc;
  capex_per_unit_or_sf : Qc;
  management_fee : Qc;
  loan_to_value : Qc;
  interest_rate : Qc;
  amortization : Z;
  io_period : Z;
  holding_period : Z;
  exit_cap_rate : Qc;
  selling_costs : Qc;
  discount_rate : Qc;
  tax_rate : Qc;
  building_value_pct : Qc
}.

Definition unit_rents (i : Inputs) : list Qc :=
  match property_type i with
  | SingleFamily => [monthly_rent i]
  | Multifamily => unit_rent_inputs i
  | _ => []
  end.

Definition annual_rent_total (i : Inputs) : Qc :=
  match property_type i with
  | SingleFamily => monthly_rent i * 12
  | Multifamily =>
      let total_monthly_rent := sum (unit_rent_inputs i) in
      total_monthly_rent * 12
  | _ => rent_per_sf i * units_or_sf i
  end.

Definition total_acquisition (i : Inputs) : Qc :=
  purchase_price i + closing_costs i.

Definition loan_amount (i : Inputs) : Qc :=
  purchase_price i * (loan_to_value i / 100).

Definition equity_required (i : Inputs) : Qc :=
  total_acquisition i - loan_amount i.

(** [price_per_unit] / [price_per_sf]. *)
Definition price_per_unit_or_sf (i : Inputs) : result Qc :=
  div (purchase_price i) (units_or_sf i).

Definition year_1_gri (i : Inputs) : Qc := annual_rent_total i.

Definition year_1_egi (i : Inputs) : Qc :=
  year_1_gri i * (1 - vacancy i / 100).

Definition year_1_opex (i : Inputs) : Qc :=
  match property_type i with
  | SingleFamily => opex_per_unit_or_sf i
  | _ => opex_per_unit_or_sf i * units_or_sf i
  end.

Definition year_1_mgmt (i : Inputs) : Qc :=
  year_1_egi i * (management_fee i / 100).

Definition year_1_noi (i : Inputs) : Qc :=
  year_1_egi i - year_1_opex i - year_1_mgmt i.

Definition going_in_cap (i : Inputs) : result Qc :=
  if 0 <? purchase_price i then
    q <- div (year_1_noi i) (purchase_price i) ;; Ok (q * 100)
  else Ok 0.

Definition annual_depreciation (i : Inputs) : Qc :=
  if 0 <? tax_rate i then
    let building_value := purchase_price i * (building_value_pct i / 100) in
    match property_type i with
    | SingleFamily | Multifamily => building_value / dec 275 10
    | _ => building_value / 39
    end
  else 0.

(** The call [cf_df = calculate_cash_flows(...)] of the script. *)
Definition cf_df (i : Inputs) : result (list CashFlowRow) :=
  calculate_cash_flows (property_type i) (holding_period i) (unit_rents i)
    (annual_rent_total i) (rent_growth i) (vacancy i)
    (opex_per_unit_or_sf i) (opex_growth i) (units_or_sf i)
    (management_fee i) (capex_per_unit_or_sf i) (loan_amount i)
    (interest_rate i) (amortization i) (io_period i) (equity_required i)
    (tax_rate i) (annual_depreciation i).

(** ** Terminal analysis and returns *)

(** [cf_df.iloc[-1]['NOI']]. *)
Definition final_year_noi (rows : list CashFlowRow) : result Qc :=
  match rev rows with
  | [] => Raise IndexError
  | r :: _ => Ok (NOI r)
  end.

(** [terminal_noi = final_noi * (1 + rent_growth / 100)] and
    [sale_price = terminal_noi / (exit_cap_rate / 100)
                  if exit_cap_rate > 0 else 0]. *)
Definition sale_price (final_noi rent_growth exit_cap_rate : Qc) : result Qc :=
  let terminal_noi := final_noi * (1 + rent_growth / 100) in
  if 0 <? exit_cap_rate then div terminal_noi (exit_cap_rate / 100)
  else Ok 0.

(** [l[-1] += x]. *)
Fixpoint add_to_last (l : list Qc) (x : Qc) : result (list Qc) :=
  match l with
  | [] => Raise IndexError
  | [a] => Ok [a + x]
  | a :: tl => tl' <- add_to_last tl x ;; Ok (a :: tl')
  end.

(** [equity_multiple = (sum(column) + net_sale_proceeds) / equity_required
                       if equity_required > 0 else 0]. *)
Definition equity_multiple
    (column : list Qc) (net_sale_proceeds equity_required : Qc) : result Qc :=
  if 0 <? equity_required then
    div (sum column + net_sale_proceeds) equity_required
  else Ok 0.

(** [numpy_financial] is an external library.  Its root finder [npf.irr]
    is an interface: any function from a cash-flow series to a rate, or a
    failure. *)
Class NumpyFinancial : Type := {
  npf_irr : list Qc -> result Qc
}.

(** Modelled from the spec: [npf.npv(rate, values)] is not part of the
    repository; the specification gives it as the direct sum of
    [CF_t / (1 + rate)^t] over [t = 0 .. N]. *)
Fixpoint npv_from (rate : Qc) (t : Z) (values : list Qc) : result Qc :=
  match values with
  | [] => Ok 0
  | v :: tl =>
      x <- div v (pow (1 + rate) t) ;;
      rest <- npv_from rate (t + 1) tl ;;
      Ok (x + rest)
  end.

Definition npf_npv (rate : Qc) (values : list Qc) : result Qc :=
  npv_from rate 0 values.

(** What the script holds once the "Calculations" section has run. *)
Record Valuation : Type := {
  val_cf_df : list CashFlowRow;
  val_sale_price : Qc;
  val_sale_costs : Qc;
  val_remaining_balance : Qc;
  val_net_sale_proceeds : Qc;
  val_cash_flows : list Qc;
  val_irr : Qc;
  val_npv : Qc;
  val_equity_multiple : Qc;
  val_avg_coc : Qc
}.

(** The returns column: [ATCF] when taxed, [BTCF] otherwise. *)
Definition returns_column (i : Inputs) (rows : list CashFlowRow) : list Qc :=
  if 0 <? tax_rate i then map ATCF rows else map BTCF rows.

(** The "Calculations" section of the script, top to bottom. *)
Definition compute_valuation `{NumpyFinancial} (i : Inputs) : result Valuation :=
  _ <- price_per_unit_or_sf i ;;
  _ <- going_in_cap i ;;
  rows <- cf_df i ;;
  final_noi <- final_year_noi rows ;;
  sale <- sale_price final_noi (rent_growth i) (exit_cap_rate i) ;;
  let sale_costs := sale * (selling_costs i / 100) in
  remaining_balance <-
    calc_remaining_balance (loan_amount i) (interest_rate i)
      (amortization i) (io_period i) (holding_period i) ;;
  let net_sale_proceeds := sale - sale_costs - remaining_balance in
  cash_flows <-
    add_to_last (- equity_required i :: returns_column i rows)
      net_sale_proceeds ;;
  let irr := try_except (r <- npf_irr cash_flows ;; Ok (r * 100)) 0 in
  npv <- npf_npv (discount_rate i / 100) cash_flows ;;
  em <- equity_multiple (returns_column i rows) net_sale_proceeds
          (equity_required i) ;;
  avg_coc <- div (sum (map CoC_Return rows)) (Z.of_nat (List.length rows)) ;;
  Ok {| val_cf_df := rows; val_sale_price := sale;
        val_sale_costs := sale_costs;
        val_remaining_balance := remaining_balance;
        val_net_sale_proceeds := net_sale_proceeds;
        val_cash_flows := cash_flows; val_irr := irr; val_npv := npv;
        val_equity_multiple := em; val_avg_coc := avg_coc |}.

(** ** Sensitivity analysis *)

Inductive SensitivityVar : Set :=
| Exit_Cap_Rate
| Rent_Growth_Rate
| Interest_Rate
| Vacancy_Rate
| OpEx_Growth_Rate.

(** The metric selectors ["IRR (%)"], ["NPV ($)"], ["Equity Multiple (x)"]. *)
Inductive Metric : Set :=
| IRR
| NPV
| Equity_Multiple.

Definition var_eqb (a b : SensitivityVar) : bool :=
  match a, b with
  | Exit_Cap_Rate, Exit_Cap_Rate
  | Rent_Growth_Rate, Rent_Growth_Rate
  | Interest_Rate, Interest_Rate
  | Vacancy_Rate, Vacancy_Rate
  | OpEx_Growth_Rate, OpEx_Growth_Rate => true
  | _, _ => false
  end.

(** [np.linspace(start, stop, num)]. *)
Definition np_linspace (start stop : Qc) (num : Z) : list Qc :=
  map (fun k : Z => start + k * ((stop - start) / (num - 1)%Z)) (range 0 num).

(** [for x in xs: ... append(f(x))] when the body may raise. *)
Fixpoint map_result {A B : Type} (f : A -> result B) (xs : list A)
  : result (list B) :=
  match xs with
  | [] => Ok []
  | x :: tl => y <- f x ;; ys <- map_result f tl ;; Ok (y :: ys)
  end.

Section Sensitivity.

Context `{NumpyFinancial}.

(** The assumption set and the [remaining_balance] the script computed
    before the sensitivity tabs run. *)
Variable i : Inputs.
Variable remaining_balance : Qc.

Definition capex_annual : Qc :=
  match property_type i with
  | SingleFamily => capex_per_unit_or_sf i
  | _ => capex_per_unit_or_sf i * units_or_sf i
  end.

(** The [try: ... except: result = 0] block shared by both loops.
    Only [npf.irr] can raise inside it.  The other two branches are
    numpy arithmetic: a division by zero there raises nothing for the
    [except] to catch and leaves [inf] or [nan] as the result, which
    the model reports as the error. *)
Definition sensitivity_metric
    (metric : Metric) (flows temp_cf_list : list Qc) (temp_proceeds : Qc)
  : result Qc :=
  match metric with
  | IRR => Ok (try_except (r <- npf_irr flows ;; Ok (r * 100)) 0)
  | NPV => npf_npv (discount_rate i / 100) flows
  | Equity_Multiple =>
      div (sum temp_cf_list + temp_proceeds) (equity_required i)
  end.

(** The value a tested variable takes in a two-way cell. *)
Definition two_way_value
    (v : SensitivityVar) (base : Qc)
    (var1 var2 : SensitivityVar) (val1 val2 : Qc) : Qc :=
  if negb (var_eqb var1 v) && negb (var_eqb var2 v) then base
  else if var_eqb var1 v then val1 else val2.

(** Body of the two nested loops of the two-way tab. *)
Definition two_way_cell
    (var1 var2 : SensitivityVar) (metric_choice : Metric) (val1 val2 : Qc)
  : result Qc :=
  let test_rent_gr :=
    two_way_value Rent_Growth_Rate (rent_growth i) var1 var2 val1 val2 in
  let test_vac :=
    two_way_value Vacancy_Rate (vacancy i) var1 var2 val1 val2 in
  let test_opex_gr :=
    two_way_value OpEx_Growth_Rate (opex_growth i) var1 var2 val1 val2 in
  let test_exit :=
    two_way_value Exit_Cap_Rate (exit_cap_rate i) var1 var2 val1 val2 in
  let test_int :=
    two_way_value Interest_Rate (interest_rate i) var1 var2 val1 val2 in
  let years := range 1 (holding_period i + 1) in
  let noi_values :=
    map (fun year : Z =>
           year_1_noi i * pow (1 + test_rent_gr / 100) (year - 1)) years in
  temp_annual_ds <-
    (if negb (test_int =? interest_rate i) then
       let test_monthly_rate := test_int / 100 / 12 in
       let remaining_payments := ((amortization i - io_period i) * 12)%Z in
       if (io_period i <? amortization i)%Z then
         div (12 * loan_amount i *
              (test_monthly_rate
               * pow (1 + test_monthly_rate) remaining_payments))
             (pow (1 + test_monthly_rate) remaining_payments - 1)
       else Ok (loan_amount i * test_int / 100)
     else
       calculate_debt_service 1 (loan_amount i) test_int
         (amortization i) (io_period i)) ;;
  let ncf_values := map (fun noi => noi - capex_annual) noi_values in
  let temp_cf_list := map (fun ncf => ncf - temp_annual_ds) ncf_values in
  let final_noi :=
    year_1_noi i * pow (1 + test_rent_gr / 100) (holding_period i) in
  temp_sale <- div final_noi (test_exit / 100) ;;
  let temp_proceeds := temp_sale * dec 94 100 - remaining_balance in
  flows <- add_to_last (- equity_required i :: temp_cf_list) temp_proceeds ;;
  sensitivity_metric metric_choice flows temp_cf_list temp_proceeds.

(** [var_ranges[var]] of the two-way tab. *)
Definition var_ranges (v : SensitivityVar) : list Qc :=
  match v with
  | Exit_Cap_Rate =>
      np_linspace (Qcmax 3 (exit_cap_rate i - dec 15 10))
                  (Qcmin 9 (exit_cap_rate i + dec 15 10)) 7
  | Rent_Growth_Rate =>
      np_linspace (Qcmax 0 (rent_growth i - 2))
                  (Qcmin 6 (rent_growth i + 2)) 7
  | Interest_Rate =>
      np_linspace (Qcmax 2 (interest_rate i - 2))
                  (Qcmin 10 (interest_rate i + 2)) 7
  | Vacancy_Rate =>
      np_linspace (Qcmax 0 (vacancy i - 3)) (Qcmin 15 (vacancy i + 3)) 7
  | OpEx_Growth_Rate =>
      np_linspace (Qcmax 0 (opex_growth i - 2))
                  (Qcmin 6 (opex_growth i + 2)) 7
  end.

(** [heat_results], row by row. *)
Definition two_way_grid
    (var1 var2 : SensitivityVar) (metric_choice : Metric)
  : result (list (list Qc)) :=
  map_result
    (fun val1 =>
       map_result (two_way_cell var1 var2 metric_choice val1)
                  (var_ranges var2))
    (var_ranges var1).

(** Body of the loop of the one-way tab. *)
Definition one_way_point
    (test_var : SensitivityVar) (one_metric : Metric) (test_val : Qc)
  : result Qc :=
  let test_rent_gr :=
    if negb (var_eqb test_var Rent_Growth_Rate) then rent_growth i
    else test_val in
  let test_vac :=
    if negb (var_eqb test_var Vacancy_Rate) then vacancy i else test_val in
  let test_opex_gr :=
    if negb (var_eqb test_var OpEx_Growth_Rate) then opex_growth i
    else test_val in
  let test_exit :=
    if negb (var_eqb test_var Exit_Cap_Rate) then exit_cap_rate i
    else test_val in
  let test_int :=
    if negb (var_eqb test_var Interest_Rate) then interest_rate i
    else test_val in
  let years := range 1 (holding_period i + 1) in
  let noi_values :=
    map (fun year : Z =>
           year_1_noi i * pow (1 + test_rent_gr / 100) (year - 1)) years in
  temp_annual_ds <-
    calculate_debt_service 1 (loan_amount i) test_int
      (amortization i) (io_period i) ;;
  let ncf_values := map (fun noi => noi - capex_annual) noi_values in
  let temp_cf_list := map (fun ncf => ncf - temp_annual_ds) ncf_values in
  let final_noi :=
    year_1_noi i * pow (1 + test_rent_gr / 100) (holding_period i) in
  temp_sale <- div final_noi (test_exit / 100) ;;
  let temp_proceeds := temp_sale * dec 94 100 - remaining_balance in
  flows <- add_to_last (- equity_required i :: temp_cf_list) temp_proceeds ;;
  sensitivity_metric one_metric flows temp_cf_list temp_proceeds.

(** [test_range] of the one-way tab. *)
Definition test_range (test_var : SensitivityVar) : list Qc :=
  match test_var with
  | Exit_Cap_Rate =>
      np_linspace (Qcmax 3 (exit_cap_rate i - 2))
                  (Qcmin 9 (exit_cap_rate i + 2)) 13
  | Rent_Growth_Rate =>
      np_linspace (Qcmax 0 (rent_growth i - dec 25 10))
                  (Qcmin 6 (rent_growth i + dec 25 10)) 13
  | Interest_Rate =>
      np_linspace (Qcmax 2 (interest_rate i - dec 25 10))
                  (Qcmin 10 (interest_rate i + dec 25 10)) 13
  | Vacancy_Rate =>
      np_linspace (Qcmax 0 (vacancy i - 4)) (Qcmin 15 (vacancy i + 4)) 13
  | OpEx_Growth_Rate =>
      np_linspace (Qcmax 0 (opex_growth i - dec 25 10))
                  (Qcmin 6 (opex_growth i + dec 25 10)) 13
  end.

(** [one_results]. *)
Definition one_results (test_var : SensitivityVar) (one_metric : Metric)
  : result (list Qc) :=
  map_result (one_way_point test_var one_metric) (test_range test_var).

End Sensitivity.

(** The two tabs as the script runs them: after the "Calculations"
    section, with the [remaining_balance] it left behind. *)
Definition two_way_analysis `{NumpyFinancial}
    (i : Inputs) (var1 var2 : SensitivityVar) (metric_choice : Metric)
  : result (list (list Qc)) :=
  v <- compute_valuation i ;;
  two_way_grid i (val_remaining_balance v) var1 var2 metric_choice.

Definition one_way_analysis `{NumpyFinancial}
    (i : Inputs) (test_var : SensitivityVar) (one_metric : Metric)
  : result (list Qc) :=
  v <- compute_valuation i ;;
  one_results i (val_remaining_balance v) test_var one_metric.

(** ** Deal score and recommendation *)

(** The [metrics] and [property_data] dictionaries; a missing key is
    [None], and so is a property type that is none of the four. *)
Record MetricsDict : Set := {
  m_irr : option Qc;
  m_equity_multiple : option Qc;
  m_npv : option Qc;
  m_cap_rate : option Qc;
  m_year1_coc : option Qc;
  m_avg_coc : option Qc;
  m_dscr : option Qc
}.

Record PropertyDict : Set := {
  p_property_type : option PropertyType;
  p_equity_required : option Qc;
  p_exit_cap_rate : option Qc;
  p_loan_to_value : option Qc;
  p_holding_period : option Z
}.

(** [d.get(key, default)] and [d[key]]. *)
Definition get {A : Type} (o : option A) (default : A) : A :=
  match o with
  | Some a => a
  | None => default
  end.

Definition getitem {A : Type} (o : option A) : result A :=
  match o with
  | Some a => Ok a
  | None => Raise KeyError
  end.

(** A value of [score_breakdown]: [{'score': ..., 'max': ...}]. *)
Record ScoreEntry : Set := {
  score : Z;
  max : Z
}.

(** [score_breakdown], in insertion order. *)
Definition ScoreBreakdown : Set := list (string * ScoreEntry).

Definition market_caps (t : option PropertyType) : Qc :=
  match t with
  | Some Multifamily => dec 55 10
  | Some Office => 7
  | Some Retail => dec 65 10
  | Some SingleFamily => 6
  | None => dec 65 10
  end.

(** The breakpoint tables of [calculate_deal_score], one function per
    [if]/[elif] chain, named after the variable the chain assigns. *)

Definition irr_score (irr : Qc) : Z :=
  if 20 <=? irr then 20 else if 17 <=? irr then 18
  else if 15 <=? irr then 16 else if 12 <=? irr then 13
  else if 10 <=? irr then 10 else if 8 <=? irr then 6 else 2.

Definition em_score (em : Qc) : Z :=
  if dec 35 10 <=? em then 10 else if 3 <=? em then 9
  else if dec 25 10 <=? em then 8 else if 2 <=? em then 6
  else if dec 15 10 <=? em then 4 else 2.

Definition value_score (npv_pct : Qc) : Z :=
  if 25 <=? npv_pct then 20 else if 20 <=? npv_pct then 18
  else if 15 <=? npv_pct then 15 else if 10 <=? npv_pct then 12
  else if 5 <=? npv_pct then 8 else if 0 <=? npv_pct then 5 else 0%Z.

Definition coc1_score (year1_coc : Qc) : Z :=
  if 10 <=? year1_coc then 12 else if 8 <=? year1_coc then 10
  else if 6 <=? year1_coc then 8 else if 4 <=? year1_coc then 5
  else if 2 <=? year1_coc then 3 else 1%Z.

Definition coc_avg_score (avg_coc : Qc) : Z :=
  if 12 <=? avg_coc then 8 else if 10 <=? avg_coc then 7
  else if 8 <=? avg_coc then 5 else if 6 <=? avg_coc then 3 else 1%Z.

Definition cap_score (cap_spread : Qc) : Z :=
  if dec 15 10 <=? cap_spread then 10 else if 1 <=? cap_spread then 8
  else if dec 5 10 <=? cap_spread then 6 else if 0 <=? cap_spread then 4
  else if dec (-5) 10 <=? cap_spread then 2 else 0%Z.

Definition entry_score (going_in_cap market_cap : Qc) : Z :=
  if market_cap + 1 <=? going_in_cap then 5
  else if market_cap <=? going_in_cap then 3 else 1%Z.

Definition ltv_score (ltv : Qc) : Z :=
  if ltv =? 0 then 5 else if ltv <=? 65 then 5
  else if ltv <=? 75 then 4 else if ltv <=? 80 then 3 else 1%Z.

(** [dscr] is read from [metrics] only when there is a loan. *)
Definition dscr_score (ltv : Qc) (metrics : MetricsDict) : Z :=
  if ltv =? 0 then 5
  else
    let dscr := get (m_dscr metrics) 0 in
    if dec 15 10 <=? dscr then 5 else if dec 13 10 <=? dscr then 4
    else if dec 12 10 <=? dscr then 3 else if dec 11 10 <=? dscr then 2
    else 0%Z.

Definition hold_score (holding_period : Z) : Z :=
  if (holding_period <=? 5)%Z then 5 else if (holding_period <=? 10)%Z then 4
  else if (holding_period <=? 20)%Z then 3
  else if (holding_period <=? 30)%Z then 2 else 1%Z.

(** Grade and rating of a total score. *)
Definition grade_and_rating (total_score : Z) : string * string :=
  if (95 <=? total_score)%Z then ("A+"%string, "Elite"%string)
  else if (90 <=? total_score)%Z then ("A"%string, "Outstanding"%string)
  else if (85 <=? total_score)%Z then ("A-"%string, "Excellent"%string)
  else if (80 <=? total_score)%Z then ("B+"%string, "Very Good"%string)
  else if (75 <=? total_score)%Z then ("B"%string, "Good"%string)
  else if (70 <=? total_score)%Z then ("B-"%string, "Above Average"%string)
  else if (65 <=? total_score)%Z then ("C+"%string, "Average"%string)
  else if (60 <=? total_score)%Z then ("C"%string, "Below Average"%string)
  else if (55 <=? total_score)%Z then ("C-"%string, "Weak"%string)
  else ("F"%string, "Poor"%string).

(** [calculate_deal_score(metrics, property_data)]: total score,
    breakdown, grade and rating.  No operation of the body raises on
    numeric entries, so the [except] branch is not modelled. *)
Definition calculate_deal_score (metrics : MetricsDict) (property_data : PropertyDict)
  : Z * ScoreBreakdown * string * string :=
  let irr := get (m_irr metrics) 0 in
  let em := get (m_equity_multiple metrics) 1 in
  let returns_score := (irr_score irr + em_score em)%Z in
  let npv := get (m_npv metrics) 0 in
  let equity := get (p_equity_required property_data) 1 in
  let npv_pct := if 0 <? equity then npv / equity * 100 else 0 in
  let year1_coc := get (m_year1_coc metrics) 0 in
  let avg_coc := get (m_avg_coc metrics) 0 in
  let cashflow_score := (coc1_score year1_coc + coc_avg_score avg_coc)%Z in
  let going_in_cap := get (m_cap_rate metrics) 0 in
  let exit_cap := get (p_exit_cap_rate property_data) 0 in
  let cap_spread := exit_cap - going_in_cap in
  let market_cap := market_caps (p_property_type property_data) in
  let market_score :=
    (cap_score cap_spread + entry_score going_in_cap market_cap)%Z in
  let ltv := get (p_loan_to_value property_data) 0 in
  let holding_period := get (p_holding_period property_data) 10%Z in
  let risk_score :=
    (ltv_score ltv + dscr_score ltv metrics + hold_score holding_period)%Z in
  let total_score :=
    (returns_score + value_score npv_pct + cashflow_score + market_score
     + risk_score)%Z in
  let score_breakdown : ScoreBreakdown :=
    [ ("Returns (IRR/EM)"%string, {| score := returns_score; max := 30 |});
      ("Value Creation (NPV)"%string,
       {| score := value_score npv_pct; max := 20 |});
      ("Cash Flow Strength"%string, {| score := cashflow_score; max := 20 |});
      ("Market Positioning"%string, {| score := market_score; max := 15 |});
      ("Risk Profile"%string, {| score := risk_score; max := 15 |}) ] in
  let '(grade, rating) := grade_and_rating total_score in
  (total_score, score_breakdown, grade, rating).

(** The [action] texts (each is shown with a coloured marker):
    STRONG BUY, BUY, HOLD, PASS, HARD PASS, and the fallback
    REVIEW NEEDED. *)
Inductive Action : Set :=
| STRONG_BUY
| BUY
| HOLD
| PASS
| HARD_PASS
| REVIEW_NEEDED.

Inductive Confidence : Set :=
| HIGH
| MODERATE
| LOW
| NOT_AVAILABLE.

(** An entry of the [strengths] list.  The program formats each entry
    as a line of text; a constructor stands for the template and
    carries the values interpolated into it. *)
Inductive Strength : Set :=
| Category_strength (category : string) (score max : Z) (pct : Qc)
| Superior_IRR (irr : Qc)
| Positive_NPV (npv : Qc)
| Strong_equity_multiple (equity_multiple : Qc).

(** An entry of the [risks] list. *)
Inductive Risk : Set :=
| Category_risk (category : string) (score max : Z) (pct : Qc)
| IRR_below_threshold (irr : Qc)
| Negative_NPV
| Very_long_hold (holding_period : Z).

Record Recommendation : Set := {
  action : Action;
  summary : string;
  strengths : list Strength;
  risks : list Risk;
  actions : list string;
  confidence : Confidence
}.

(** [pct = (data['score'] / data['max']) * 100]. *)
Definition pct_of (data : ScoreEntry) : result Qc :=
  q <- div (score data) (max data) ;; Ok (q * 100).

(** First loop over [score_breakdown.items()]: categories at or above
    80 percent of their cap. *)
Fixpoint category_strengths (score_breakdown : ScoreBreakdown)
  : result (list Strength) :=
  match score_breakdown with
  | [] => Ok []
  | (category, data) :: rest =>
      pct <- pct_of data ;;
      tl <- category_strengths rest ;;
      Ok (if 80 <=? pct
          then Category_strength category (score data) (max data) pct :: tl
          else tl)
  end.

(** Second loop: categories below 50 percent of their cap. *)
Fixpoint category_risks (score_breakdown : ScoreBreakdown)
  : result (list Risk) :=
  match score_breakdown with
  | [] => Ok []
  | (category, data) :: rest =>
      pct <- pct_of data ;;
      tl <- category_risks rest ;;
      Ok (if pct <? 50
          then Category_risk category (score data) (max data) pct :: tl
          else tl)
  end.

(** The three absolute-metric strength flags, in program order. *)
Definition metric_strengths (metrics : MetricsDict) : result (list Strength) :=
  s1 <- (if 15 <=? get (m_irr metrics) 0
         then irr <- getitem (m_irr metrics) ;; Ok [Superior_IRR irr]
         else Ok []) ;;
  s2 <- (if 0 <? get (m_npv metrics) 0
         then npv <- getitem (m_npv metrics) ;; Ok [Positive_NPV npv]
         else Ok []) ;;
  s3 <- (if dec 25 10 <=? get (m_equity_multiple metrics) 0
         then em <- getitem (m_equity_multiple metrics) ;;
              Ok [Strong_equity_multiple em]
         else Ok []) ;;
  Ok (s1 ++ s2 ++ s3).

(** The three absolute-metric risk flags, in program order. *)
Definition metric_risks (metrics : MetricsDict) (property_data : PropertyDict)
  : result (list Risk) :=
  r1 <- (if get (m_irr metrics) 0 <? 10
         then irr <- getitem (m_irr metrics) ;; Ok [IRR_below_threshold irr]
         else Ok []) ;;
  let r2 := if get (m_npv metrics) 0 <? 0 then [Negative_NPV] else [] in
  r3 <- (if (20 <? get (p_holding_period property_data) 0)%Z
         then hp <- getitem (p_holding_period property_data) ;;
              Ok [Very_long_hold hp]
         else Ok []) ;;
  Ok (r1 ++ r2 ++ r3).

(** The body of the [try] block of [generate_recommendation]. *)
Definition recommendation_body
    (total_score : Z) (score_breakdown : ScoreBreakdown)
    (metrics : MetricsDict) (property_data : PropertyDict)
  : result Recommendation :=
  let '(act, text) :=
    if (85 <=? total_score)%Z then
      (STRONG_BUY,
       "This deal offers exceptional risk-adjusted returns. Proceed with acquisition immediately."%string)
    else if (75 <=? total_score)%Z then
      (BUY,
       "Solid investment opportunity that meets investment criteria. Proceed if available."%string)
    else if (65 <=? total_score)%Z then
      (HOLD,
       "Average deal with mixed qualities. Consider waiting for better opportunities."%string)
    else if (55 <=? total_score)%Z then
      (PASS,
       "Below-average deal with significant concerns. Not recommended."%string)
    else
      (HARD_PASS,
       "This deal has critical red flags. Do not proceed."%string) in
  cs <- category_strengths score_breakdown ;;
  ms <- metric_strengths metrics ;;
  let all_strengths := cs ++ ms in
  cr <- category_risks score_breakdown ;;
  mr <- metric_risks metrics property_data ;;
  let all_risks := cr ++ mr in
  let todo :=
    if (75 <=? total_score)%Z then
      [ "1. Verify rent comps and growth assumptions with local brokers"%string;
        "2. Confirm property condition and CapEx budget accuracy"%string;
        "3. Review tenant quality and lease terms in detail"%string ]
    else
      [ "1. Reassess assumptions - are they too aggressive?"%string;
        "2. Explore ways to improve returns (lower price, better financing)"%string;
        "3. Compare against other available opportunities"%string ] in
  let conf :=
    if (85 <=? total_score)%Z then HIGH
    else if (70 <=? total_score)%Z then MODERATE
    else LOW in
  Ok {| action := act; summary := text;
        strengths := firstn 4 all_strengths;
        risks := firstn 4 all_risks;
        actions := todo; confidence := conf |}.

(** [generate_recommendation(total_score, score_breakdown, metrics,
    property_data)]: the body, or the fallback of the [except] branch. *)
Definition generate_recommendation
    (total_score : Z) (score_breakdown : ScoreBreakdown)
    (metrics : MetricsDict) (property_data : PropertyDict)
  : Recommendation :=
  try_except
    (recommendation_body total_score score_breakdown metrics property_data)
    {| action := REVIEW_NEEDED;
       summary :=
         "Unable to generate recommendation. Review metrics manually."%string;
       strengths := []; risks := []; actions := [];
       confidence := NOT_AVAILABLE |}.

(** ** Assumption sets used in the examples *)

(** The specification's example: multifamily, five units at 1500 a
    month, price 1,000,000, closing costs 20,000, 70 percent
    loan-to-value at 6.5 percent over 30 years, ten-year hold. *)
Definition example_scenario : Inputs := {|
  property_type := Multifamily;
  units_or_sf := 5;
  monthly_rent := 0;
  unit_rent_inputs := [ofZ 1500; ofZ 1500; ofZ 1500; ofZ 1500; ofZ 1500];
  rent_per_sf := 0;
  purchase_price := 1000000;
  closing_costs := 20000;
  rent_growth := 3;
  vacancy := 5;
  opex_per_unit_or_sf := 6000;
  opex_growth := 3;
  capex_per_unit_or_sf := 300;
  management_fee := 4;
  loan_to_value := 70;
  interest_rate := dec 65 10;
  amortization := 30;
  io_period := 0;
  holding_period := 10;
  exit_cap_rate := dec 55 10;
  selling_costs := 2;
  discount_rate := 12;
  tax_rate := 0;
  building_value_pct := 80
|}.

(** The same assumption set with other financing and exit terms. *)
Definition with_financing
    (i : Inputs) (ltv rate : Qc) (amort io hold : Z) : Inputs := {|
  property_type := property_type i;
  units_or_sf := units_or_sf i;
  monthly_rent := monthly_rent i;
  unit_rent_inputs := unit_rent_inputs i;
  rent_per_sf := rent_per_sf i;
  purchase_price := purchase_price i;
  closing_costs := closing_costs i;
  rent_growth := rent_growth i;
  vacancy := vacancy i;
  opex_per_unit_or_sf := opex_per_unit_or_sf i;
  opex_growth := opex_growth i;
  capex_per_unit_or_sf := capex_per_unit_or_sf i;
  management_fee := management_fee i;
  loan_to_value := ltv;
  interest_rate := rate;
  amortization := amort;
  io_period := io;
  holding_period := hold;
  exit_cap_rate := exit_cap_rate i;
  selling_costs := selling_costs i;
  discount_rate := discount_rate i;
  tax_rate := tax_rate i;
  building_value_pct := building_value_pct i
|}.

(** The assumption set with one sensitivity variable set to [x] and
    every other input unchanged. *)
Definition set_var (v : SensitivityVar) (x : Qc) (i : Inputs) : Inputs := {|
  property_type := property_type i;
  units_or_sf := units_or_sf i;
  monthly_rent := monthly_rent i;
  unit_rent_inputs := unit_rent_inputs i;
  rent_per_sf := rent_per_sf i;
  purchase_price := purchase_price i;
  closing_costs := closing_costs i;
  rent_growth := if var_eqb v Rent_Growth_Rate then x else rent_growth i;
  vacancy := if var_eqb v Vacancy_Rate then x else vacancy i;
  opex_per_unit_or_sf := opex_per_unit_or_sf i;
  opex_growth := if var_eqb v OpEx_Growth_Rate then x else opex_growth i;
  capex_per_unit_or_sf := capex_per_unit_or_sf i;
  management_fee := management_fee i;
  loan_to_value := loan_to_value i;
  interest_rate := if var_eqb v Interest_Rate then x else interest_rate i;
  amortization := amortization i;
  io_period := io_period i;
  holding_period := holding_period i;
  exit_cap_rate := if var_eqb v Exit_Cap_Rate then x else exit_cap_rate i;
  selling_costs := selling_costs i;
  discount_rate := discount_rate i;
  tax_rate := tax_rate i;
  building_value_pct := building_value_pct i
|}.

(** An all-cash purchase held for two years. *)
Definition all_cash : Inputs :=
  with_financing example_scenario 0 (dec 65 10) 30 0 2.

(** A one-year loan at 12 percent held for two years. *)
Definition short_loan : Inputs :=
  with_financing example_scenario 70 12 1 0 2.

(** An interest-only period (10 years) longer than the amortization
    period (5 years), held for 12 years. *)
Definition io_beyond_amortization : Inputs :=
  with_financing example_scenario 70 (dec 65 10) 5 10 12.

(** The running loan balance of the script's call of
    [calculate_cash_flows]. *)
Definition balance_trace (i : Inputs) : result (list Qc) :=
  loan_balance_by_year (property_type i) (holding_period i) (unit_rents i)
    (annual_rent_total i) (rent_growth i) (vacancy i)
    (opex_per_unit_or_sf i) (opex_growth i) (units_or_sf i)
    (management_fee i) (capex_per_unit_or_sf i) (loan_amount i)
    (interest_rate i) (amortization i) (io_period i) (equity_required i)
    (tax_rate i) (annual_depreciation i).

(** ** The invariant of the running balance

    With [r] the monthly rate and [pmt] the fixed monthly payment, the
    balance [b] after year [y] satisfies
    [r * b - pmt = (r * loan - pmt) * (1 + r)^(12 * max 0 (y - io))]:
    nothing has moved up to the end of the interest-only period, and
    twelve payments a year have been made since. *)
Definition balance_after
    (loan_amount interest_rate : Qc) (amortization io_period y : Z) (b : Qc)
  : Prop :=
  interest_rate / 100 / 12 * b
  - loan_amount
    * (interest_rate / 100 / 12
       * pow (1 + interest_rate / 100 / 12) ((amortization - io_period) * 12))
    / (pow (1 + interest_rate / 100 / 12) ((amortization - io_period) * 12) - 1)
  = (interest_rate / 100 / 12 * loan_amount
     - loan_amount
       * (interest_rate / 100 / 12
          * pow (1 + interest_rate / 100 / 12)
              ((amortization - io_period) * 12))
       / (pow (1 + interest_rate / 100 / 12)
            ((amortization - io_period) * 12) - 1))
    * pow (1 + interest_rate / 100 / 12) (12 * Z.max 0 (y - io_period)).

(** ** The candidate lists of the recommendation

    What [generate_recommendation] collects before it cuts each list to
    four entries, written as list expressions. *)

(** A category's score as a percentage of its cap. *)
Definition pct (data : ScoreEntry) : Qc := score data / max data * 100.

Definition is_strong (e : string * ScoreEntry) : bool := 80 <=? pct (snd e).

Definition is_weak (e : string * ScoreEntry) : bool := pct (snd e) <? 50.

Definition strength_of (e : string * ScoreEntry) : Strength :=
  Category_strength (fst e) (score (snd e)) (max (snd e)) (pct (snd e)).

Definition risk_of (e : string * ScoreEntry) : Risk :=
  Category_risk (fst e) (score (snd e)) (max (snd e)) (pct (snd e)).

Definition irr_strength (metrics : MetricsDict) : list Strength :=
  match m_irr metrics with
  | Some irr => if 15 <=? irr then [Superior_IRR irr] else []
  | None => []
  end.

Definition npv_strength (metrics : MetricsDict) : list Strength :=
  match m_npv metrics with
  | Some npv => if 0 <? npv then [Positive_NPV npv] else []
  | None => []
  end.

Definition equity_multiple_strength (metrics : MetricsDict) : list Strength :=
  match m_equity_multiple metrics with
  | Some em => if dec 25 10 <=? em then [Strong_equity_multiple em] else []
  | None => []
  end.

Definition strength_candidates
    (score_breakdown : ScoreBreakdown) (metrics : MetricsDict) : list Strength :=
  map strength_of (filter is_strong score_breakdown)
  ++ irr_strength metrics ++ npv_strength metrics
  ++ equity_multiple_strength metrics.

Definition irr_risk (irr : Qc) : list Risk :=
  if irr <? 10 then [IRR_below_threshold irr] else [].

Definition npv_risk (metrics : MetricsDict) : list Risk :=
  if get (m_npv metrics) 0 <? 0 then [Negative_NPV] else [].

Definition hold_risk (property_data : PropertyDict) : list Risk :=
  match p_holding_period property_data with
  | Some hp => if (20 <? hp)%Z then [Very_long_hold hp] else []
  | None => []
  end.

Definition risk_candidates
    (score_breakdown : ScoreBreakdown) (irr : Qc) (metrics : MetricsDict)
    (property_data : PropertyDict) : list Risk :=
  map risk_of (filter is_weak score_breakdown)
  ++ irr_risk irr ++ npv_risk metrics ++ hold_risk property_data.

(** Every cap of the breakdown is non-zero. *)
Definition caps_nonzero (score_breakdown : ScoreBreakdown) : Prop :=
  forall e, In e score_breakdown -> max (snd e) <> 0%Z.

(** The script's two calls: score the deal, then generate the
    recommendation from the score and its breakdown. *)
Definition score_and_recommend
    (metrics : MetricsDict) (property_data : PropertyDict) : Recommendation :=
  let '(total_score, score_breakdown, _, _) :=
    calculate_deal_score metrics property_data in
  generate_recommendation total_score score_breakdown metrics property_data.

(** A deal that scores full marks in four categories: IRR 20 percent,
    equity multiple 3.5, NPV 100,000 on 320,000 of equity, year-1 and
    average cash-on-cash 12 percent, going-in cap 8 percent against an
    exit cap of 9.5 percent, 85 percent leverage with a coverage ratio
    of 1.1, ten-year hold. *)
Definition strong_deal_metrics : MetricsDict := {|
  m_irr := Some (ofZ 20);
  m_equity_multiple := Some (dec 35 10);
  m_npv := Some (ofZ 100000);
  m_cap_rate := Some (ofZ 8);
  m_year1_coc := Some (ofZ 12);
  m_avg_coc := Some (ofZ 12);
  m_dscr := Some (dec 11 10)
|}.

Definition strong_deal_property : PropertyDict := {|
  p_property_type := Some Multifamily;
  p_equity_required := Some (ofZ 320000);
  p_exit_cap_rate := Some (dec 95 10);
  p_loan_to_value := Some (ofZ 85);
  p_holding_period := Some 10%Z
|}.

Definition strong_deal_breakdown : ScoreBreakdown :=
  [ ("Returns (IRR/EM)"%string, {| score := 30; max := 30 |});
    ("Value Creation (NPV)"%string, {| score := 20; max := 20 |});
    ("Cash Flow Strength"%string, {| score := 20; max := 20 |});
    ("Market Positioning"%string, {| score := 15; max := 15 |});
    ("Risk Profile"%string, {| score := 7; max := 15 |}) ].

(** A list whose every entry is at most the entry before it. *)
Fixpoint non_increasing (l : list Qc) : Prop :=
  match l with
  | x :: ((y :: _) as tl) => y <= x /\ non_increasing tl
  | _ => True
  end.

(** The balance after year [y] of a loan that amortizes on schedule:
    [loan * ((1+r)^n - (1+r)^m) / ((1+r)^n - 1)], with [n] the number
    of amortizing payments and [m = 12 * max 0 (y - io)] the number
    already made. *)
Definition scheduled_balance
    (loan_amount interest_rate : Qc) (amortization io_period y : Z) : Qc :=
  loan_amount
  * (pow (1 + interest_rate / 100 / 12) ((amortization - io_period) * 12)
     - pow (1 + interest_rate / 100 / 12) (12 * Z.max 0 (y - io_period)))
  / (pow (1 + interest_rate / 100 / 12) ((amortization - io_period) * 12) - 1).

(** The accounting identities of a projection row. *)
Definition row_balances (vacancy management_fee : Qc) (row : CashFlowRow)
  : Prop :=
  EGI row = Gross_Income row * (1 - vacancy / 100) /\
  Mgmt_Fees row = EGI row * (management_fee / 100) /\
  NOI row = EGI row - OpEx row - Mgmt_Fees row /\
  BTCF row = NOI row - CapEx row - Debt_Service row /\
  ATCF row = BTCF row - Taxes row /\
  0 <= Taxes row.

(** An instance for the examples: a root finder that finds no rate, so
    that the script's [except] branch reports an IRR of 0. *)
Definition irr_not_found : NumpyFinancial :=
  {| npf_irr := fun _ => Raise ZeroDivisionError |}.

(** ** The deal-score section of the script *)

(** [metrics_for_score].  The coverage ratio divides the first year's
    NOI by its debt service, or by 1 when the debt service is not
    positive. *)
Definition metrics_for_score (cap_rate : Qc) (v : Valuation)
  : result MetricsDict :=
  let year1_coc :=
    match val_cf_df v with
    | row :: _ => CoC_Return row
    | [] => 0
    end in
  dscr <-
    match val_cf_df v with
    | row :: _ =>
        div (NOI row)
            (if 0 <? Debt_Service row then Debt_Service row else 1)
    | [] => Ok 0
    end ;;
  Ok {| m_irr := Some (val_irr v);
        m_equity_multiple := Some (val_equity_multiple v);
        m_npv := Some (val_npv v);
        m_cap_rate := Some cap_rate;
        m_year1_coc := Some year1_coc;
        m_avg_coc := Some (val_avg_coc v);
        m_dscr := Some dscr |}.

(** [property_for_score]. *)
Definition property_for_score (i : Inputs) : PropertyDict :=
  {| p_property_type := Some (property_type i);
     p_equity_required := Some (equity_required i);
     p_exit_cap_rate := Some (exit_cap_rate i);
     p_loan_to_value := Some (loan_to_value i);
     p_holding_period := Some (holding_period i) |}.

(** The section "Deal Score & Recommendation": total score, breakdown,
    grade, rating and recommendation of the deal on screen. *)
Definition deal_score_section `{NumpyFinancial} (i : Inputs)
  : result (Z * ScoreBreakdown * string * string * Recommendation) :=
  v <- compute_valuation i ;;
  cap_rate <- going_in_cap i ;;
  metrics <- metrics_for_score cap_rate v ;;
  let property_data := property_for_score i in
  let '(total_score, score_breakdown, grade, rating) :=
    calculate_deal_score metrics property_data in
  Ok (total_score, score_breakdown, grade, rating,
      generate_recommendation total_score score_breakdown metrics
        property_data).

(** ** The sensitivity level of the one-way tab *)

(** The three levels "HIGH", "MODERATE" and "LOW". *)
Inductive SensitivityLevel : Set :=
| High_sensitivity
| Moderate_sensitivity
| Low_sensitivity.

(** Python's [abs]. *)
Definition Qcabs (x : Qc) : Qc := if x <? 0 then - x else x.

(** [l[0]] and [l[-1]]. *)
Definition first_item (l : list Qc) : result Qc :=
  match l with
  | [] => Raise IndexError
  | x :: _ => Ok x
  end.

Definition last_item (l : list Qc) : result Qc :=
  match rev l with
  | [] => Raise IndexError
  | x :: _ => Ok x
  end.

(** A numpy float: a number, or what a division by zero leaves
    behind, an infinity with its sign or [nan]. *)
Inductive npfloat : Set :=
| Finite (x : Qc)
| Inf (negative : bool)
| NaN.

(** numpy's true division by a number that may be (positive) zero: it
    raises nothing. *)
Definition np_divide (x y : Qc) : npfloat :=
  if y =? 0 then (if x =? 0 then NaN else Inf (x <? 0))
  else Finite (x / y).

(** [abs(x)] and [x > c] on numpy floats; a comparison with [nan] is
    false. *)
Definition np_abs (x : npfloat) : npfloat :=
  match x with
  | Finite q => Finite (Qcabs q)
  | Inf _ => Inf false
  | NaN => NaN
  end.

Definition np_gt (x : npfloat) (c : Qc) : bool :=
  match x with
  | Finite q => c <? q
  | Inf negative => negb negative
  | NaN => false
  end.

(** [slope = (one_results[-1] - one_results[0])
             / (test_range[-1] - test_range[0])]; the divisor is a
    numpy value. *)
Definition sensitivity_slope (one_results test_range : list Qc)
  : result npfloat :=
  y1 <- last_item one_results ;;
  y0 <- first_item one_results ;;
  x1 <- last_item test_range ;;
  x0 <- first_item test_range ;;
  Ok (np_divide (y1 - y0) (x1 - x0)).

Definition sensitivity_level (slope : npfloat) : SensitivityLevel :=
  if np_gt (np_abs slope) (dec 15 10) then High_sensitivity
  else if np_gt (np_abs slope) (dec 5 10) then Moderate_sensitivity
  else Low_sensitivity.

(** The level reported under the chart of the one-way tab. *)
Definition one_way_sensitivity_level `{NumpyFinancial}
    (i : Inputs) (test_var : SensitivityVar) (one_metric : Metric)
  : result SensitivityLevel :=
  results <- one_way_analysis i test_var one_metric ;;
  slope <- sensitivity_slope results (test_range i test_var) ;;
  Ok (sensitivity_level slope).

(** ** The tornado chart *)

Definition sensitivity_vars : list SensitivityVar :=
  [Exit_Cap_Rate; Rent_Growth_Rate; Interest_Rate; Vacancy_Rate;
   OpEx_Growth_Rate].

(** An entry of [tornado_data]; the keys are "variable", "low", "high"
    and "range". *)
Record TornadoRow : Set := {
  t_variable : SensitivityVar;
  t_low : Qc;
  t_high : Qc;
  t_range : Qc
}.

Definition tornado_base_val (i : Inputs) (var_name : SensitivityVar) : Qc :=
  match var_name with
  | Exit_Cap_Rate => exit_cap_rate i
  | Rent_Growth_Rate => rent_growth i
  | Interest_Rate => interest_rate i
  | Vacancy_Rate => vacancy i
  | OpEx_Growth_Rate => opex_growth i
  end.

(** Body of [for test_val in [low_val, high_val]]: the value appended
    to [var_results]. *)
Definition tornado_result
    (i : Inputs) (var_name : SensitivityVar) (test_val : Qc) : result Qc :=
  let temp_noi := year_1_noi i in
  let rent_gr :=
    if var_eqb var_name Rent_Growth_Rate then test_val else rent_growth i in
  let vac :=
    if var_eqb var_name Vacancy_Rate then test_val else vacancy i in
  let opex_gr :=
    if var_eqb var_name OpEx_Growth_Rate then test_val else opex_growth i in
  let exit_cap :=
    if var_eqb var_name Exit_Cap_Rate then test_val else exit_cap_rate i in
  let temp_noi :=
    fold_left (fun noi (yr : Z) => noi * (1 + rent_gr / 100))
              (range 0 (holding_period i)) temp_noi in
  temp_sale <- div temp_noi (exit_cap / 100) ;;
  simple_return <-
    div (temp_sale * dec 94 100 - equity_required i) (equity_required i) ;;
  Ok (simple_return * 100).

(** Body of [for var_name in sensitivity_vars]. *)
Definition tornado_row (i : Inputs) (var_name : SensitivityVar)
  : result TornadoRow :=
  let base_val := tornado_base_val i var_name in
  let low_val := base_val * dec 8 10 in
  let high_val := base_val * dec 12 10 in
  low <- tornado_result i var_name low_val ;;
  high <- tornado_result i var_name high_val ;;
  Ok {| t_variable := var_name; t_low := low; t_high := high;
        t_range := Qcabs (high - low) |}.

(** [tornado_data.sort(key=lambda x: x["range"], reverse=True)]: a
    stable sort into descending order; entries with equal keys keep
    their order. *)
Fixpoint insert_by_range (x : TornadoRow) (l : list TornadoRow)
  : list TornadoRow :=
  match l with
  | [] => [x]
  | y :: tl =>
      if t_range x <? t_range y then y :: insert_by_range x tl
      else x :: y :: tl
  end.

Definition sort_by_range (l : list TornadoRow) : list TornadoRow :=
  fold_right insert_by_range [] l.

Definition tornado_data (i : Inputs) : result (list TornadoRow) :=
  rows <- map_result (tornado_row i) sensitivity_vars ;;
  Ok (sort_by_range rows).

(** ** Loan payoff schedule and loan payment summary *)

(** [monthly_payment_amort] of both sections: the payment formula runs
    only for a positive monthly rate. *)
Definition amortizing_payment
    (loan_amount interest_rate : Qc) (amortization io_period : Z)
  : result Qc :=
  let monthly_rate := interest_rate / 100 / 12 in
  if (io_period <? amortization)%Z then
    let remaining_payments := ((amortization - io_period) * 12)%Z in
    if 0 <? monthly_rate then
      div (loan_amount
           * (monthly_rate * pow (1 + monthly_rate) remaining_payments))
          (pow (1 + monthly_rate) remaining_payments - 1)
    else Ok 0
  else Ok 0.

(** A record of [amort_schedule]. *)
Record AmortRow : Set := {
  sched_Year : Z;
  Annual_Payment : Qc;
  Principal : Qc;
  Interest : Qc;
  Remaining_Balance : Qc
}.

(** The accumulators of the twelve-month loop of the payoff schedule. *)
Record PayoffMonth : Set := {
  year_interest : Qc;
  year_principal : Qc;
  payoff_balance : Qc
}.

Definition payoff_month (monthly_rate monthly_payment_amort : Qc)
    (s : PayoffMonth) : PayoffMonth :=
  let interest := payoff_balance s * monthly_rate in
  let principal := monthly_payment_amort - interest in
  {| year_interest := year_interest s + interest;
     year_principal := year_principal s + principal;
     payoff_balance := Qcmax 0 (payoff_balance s - principal) |}.

(** Body of the year loop of the payoff schedule: the appended record
    and the balance carried to the next year. *)
Definition payoff_year
    (loan_amount interest_rate : Qc) (io_period : Z)
    (monthly_payment_amort : Qc) (year : Z) (bal : Qc) : AmortRow * Qc :=
  let monthly_rate := interest_rate / 100 / 12 in
  if (year <=? io_period)%Z then
    let interest_paid := loan_amount * (interest_rate / 100) in
    ({| sched_Year := year; Annual_Payment := interest_paid;
        Principal := 0; Interest := interest_paid;
        Remaining_Balance := Qcmax 0 bal |},
     bal)
  else
    let s :=
      Nat.iter 12 (payoff_month monthly_rate monthly_payment_amort)
        {| year_interest := 0; year_principal := 0; payoff_balance := bal |} in
    ({| sched_Year := year;
        Annual_Payment := year_interest s + year_principal s;
        Principal := year_principal s; Interest := year_interest s;
        Remaining_Balance := Qcmax 0 (payoff_balance s) |},
     payoff_balance s).

Fixpoint payoff_loop
    (loan_amount interest_rate : Qc) (io_period : Z)
    (monthly_payment_amort : Qc) (years : list Z) (bal : Qc)
  : list AmortRow :=
  match years with
  | [] => []
  | year :: rest =>
      let rb :=
        payoff_year loan_amount interest_rate io_period monthly_payment_amort
          year bal in
      fst rb
      :: payoff_loop loan_amount interest_rate io_period
           monthly_payment_amort rest (snd rb)
  end.

(** [amort_schedule] of the section "Loan Payoff Schedule". *)
Definition amort_schedule
    (loan_amount interest_rate : Qc) (amortization io_period : Z)
  : result (list AmortRow) :=
  monthly_payment_amort <-
    amortizing_payment loan_amount interest_rate amortization io_period ;;
  Ok (payoff_loop loan_amount interest_rate io_period monthly_payment_amort
        (range 1 (amortization + 1)) loan_amount).

(** [pd.DataFrame(records)[key]]: a frame made from an empty list has
    no columns, and reading one raises [KeyError]. *)
Definition df_column {A B : Type} (records : list A) (key : A -> B)
  : result (list B) :=
  match records with
  | [] => Raise KeyError
  | _ :: _ => Ok (map key records)
  end.

(** The section "Loan Payoff Schedule", which runs under
    [if loan_amount > 0]: the schedule, made into the frame [amort_df],
    whose columns 'Year' and 'Remaining Balance' the chart reads. *)
Definition loan_payoff_schedule
    (loan_amount interest_rate : Qc) (amortization io_period : Z)
  : result (option (list AmortRow)) :=
  if 0 <? loan_amount then
    rows <- amort_schedule loan_amount interest_rate amortization io_period ;;
    x <- df_column rows sched_Year ;;
    y <- df_column rows Remaining_Balance ;;
    Ok (Some rows)
  else Ok None.

(** The accumulators of the twelve-month loop of the payment summary;
    here the balance is not cut off at zero. *)
Record SummaryMonth : Set := {
  annual_interest : Qc;
  annual_principal : Qc;
  summary_balance : Qc
}.

Definition summary_month (monthly_rate monthly_payment_amort : Qc)
    (s : SummaryMonth) : SummaryMonth :=
  let interest := summary_balance s * monthly_rate in
  let principal := monthly_payment_amort - interest in
  {| annual_interest := annual_interest s + interest;
     annual_principal := annual_principal s + principal;
     summary_balance := summary_balance s - principal |}.

(** The running totals of the section "Loan Payment Summary". *)
Record PaymentTotals : Set := {
  running_balance : Qc;
  total_paid_at_holding : Qc;
  principal_paid_at_holding : Qc;
  total_paid_full_term : Qc
}.

(** Body of the year loop of the payment summary. *)
Definition summary_year
    (loan_amount interest_rate : Qc) (io_period holding_period : Z)
    (monthly_payment_amort : Qc) (s : PaymentTotals) (year : Z)
  : PaymentTotals :=
  let monthly_rate := interest_rate / 100 / 12 in
  let '(annual_payment, principal_this_year, bal) :=
    if (year <=? io_period)%Z then
      (loan_amount * (interest_rate / 100), 0, running_balance s)
    else
      let m :=
        Nat.iter 12 (summary_month monthly_rate monthly_payment_amort)
          {| annual_interest := 0; annual_principal := 0;
             summary_balance := running_balance s |} in
      (annual_interest m + annual_principal m, annual_principal m,
       summary_balance m) in
  {| running_balance := bal;
     total_paid_at_holding :=
       if (year <=? holding_period)%Z
       then total_paid_at_holding s + annual_payment
       else total_paid_at_holding s;
     principal_paid_at_holding :=
       if (year <=? holding_period)%Z
       then principal_paid_at_holding s + principal_this_year
       else principal_paid_at_holding s;
     total_paid_full_term := total_paid_full_term s + annual_payment |}.

(** The totals after [for year in range(1, amortization + 1)]. *)
Definition payment_totals
    (loan_amount interest_rate : Qc)
    (amortization io_period holding_period : Z) : result PaymentTotals :=
  monthly_payment_amort <-
    amortizing_payment loan_amount interest_rate amortization io_period ;;
  Ok (fold_left
        (summary_year loan_amount interest_rate io_period holding_period
           monthly_payment_amort)
        (range 1 (amortization + 1))
        {| running_balance := loan_amount; total_paid_at_holding := 0;
           principal_paid_at_holding := 0; total_paid_full_term := 0 |}).

(** [interest_paid_at_holding], and the "Total Interest Paid" shown for
    the full term. *)
Definition interest_paid_at_holding (s : PaymentTotals) : Qc :=
  total_paid_at_holding s - principal_paid_at_holding s.

Definition total_interest_paid (loan_amount : Qc) (s : PaymentTotals) : Qc :=
  total_paid_full_term s - loan_amount.

(** ** Saved deals *)

(** A saved deal, as far as [get_deals_by_type] and the deal comparison
    read it back; a key that is missing is [None]. *)
Record DealData : Set := {
  d_property_type : option PropertyType;
  d_purchase_price : option Qc;
  d_loan_to_value : option Qc;
  d_irr : option Qc;
  d_equity_multiple : option Qc;
  d_npv : option Qc;
  d_going_in_cap : option Qc;
  d_exit_cap_rate : option Qc;
  d_holding_period : option Z
}.

(** The dictionary of deals by name, in insertion order. *)
Definition Deals : Set := list (string * DealData).

(** [deals[deal_name] = deal_data]: an existing key keeps its place. *)
Fixpoint dict_set (deals : Deals) (deal_name : string) (deal_data : DealData)
  : Deals :=
  match deals with
  | [] => [(deal_name, deal_data)]
  | (k, v) :: rest =>
      if String.eqb k deal_name then (k, deal_data) :: rest
      else (k, v) :: dict_set rest deal_name deal_data
  end.

(** [deals.get(deal_name)]. *)
Fixpoint dict_get (deals : Deals) (deal_name : string) : option DealData :=
  match deals with
  | [] => None
  | (k, v) :: rest =>
      if String.eqb k deal_name then Some v else dict_get rest deal_name
  end.

(** [deal_name in deals]. *)
Definition dict_mem (deals : Deals) (deal_name : string) : bool :=
  existsb (fun kv => String.eqb (fst kv) deal_name) deals.

(** [del deals[deal_name]]. *)
Definition dict_del (deals : Deals) (deal_name : string) : Deals :=
  filter (fun kv => negb (String.eqb (fst kv) deal_name)) deals.

(** The file [saved_deals.json]: absent, present but not readable as
    JSON, or holding a dictionary of deals (one entry per name, as
    [json.dump] writes it).  Writing the file is taken to succeed. *)
Inductive DealsFile : Set :=
| No_file
| Unreadable
| Stored (deals : Deals).

(** The state the four functions share: the file and the two caches of
    [st.cache_data].  A cache keeps the result of a call, per argument,
    until it is cleared or expires. *)
Record Store : Set := {
  file : DealsFile;
  load_cache : option Deals;
  by_type_cache : PropertyType -> option Deals
}.

(** The uncached body of [load_deals_from_file]. *)
Definition read_deals (f : DealsFile) : Deals :=
  match f with
  | Stored deals => deals
  | Unreadable => []
  | No_file => []
  end.

Definition load_deals_from_file (s : Store) : Deals * Store :=
  match load_cache s with
  | Some deals => (deals, s)
  | None =>
      let deals := read_deals (file s) in
      (deals,
       {| file := file s; load_cache := Some deals;
          by_type_cache := by_type_cache s |})
  end.

Definition save_deal_to_file
    (deal_name : string) (deal_data : DealData) (s : Store) : Store :=
  let '(deals, s) := load_deals_from_file s in
  let deals := dict_set deals deal_name deal_data in
  {| file := Stored deals; load_cache := None;
     by_type_cache := by_type_cache s |}.

Definition delete_deal_from_file (deal_name : string) (s : Store)
  : bool * Store :=
  let '(deals, s) := load_deals_from_file s in
  if dict_mem deals deal_name then
    let deals := dict_del deals deal_name in
    (true,
     {| file := Stored deals; load_cache := None;
        by_type_cache := by_type_cache s |})
  else (false, s).

Definition property_type_eqb (a b : PropertyType) : bool :=
  match a, b with
  | SingleFamily, SingleFamily
  | Multifamily, Multifamily
  | Office, Office
  | Retail, Retail => true
  | _, _ => false
  end.

(** [data.get('property_type') == property_type]. *)
Definition has_type (property_type : PropertyType) (kv : string * DealData)
  : bool :=
  match d_property_type (snd kv) with
  | Some t => property_type_eqb t property_type
  | None => false
  end.

Definition get_deals_by_type (property_type : PropertyType) (s : Store)
  : Deals * Store :=
  match by_type_cache s property_type with
  | Some deals => (deals, s)
  | None =>
      let '(deals, s) := load_deals_from_file s in
      let result := filter (has_type property_type) deals in
      (result,
       {| file := file s; load_cache := load_cache s;
          by_type_cache :=
            fun t =>
              if property_type_eqb t property_type then Some result
              else by_type_cache s t |})
  end.

(** The passing of time: a cached result may expire at any moment. *)
Definition expire_load_cache (s : Store) : Store :=
  {| file := file s; load_cache := None; by_type_cache := by_type_cache s |}.

Definition expire_by_type_cache (property_type : PropertyType) (s : Store)
  : Store :=
  {| file := file s; load_cache := load_cache s;
     by_type_cache :=
       fun t =>
         if property_type_eqb t property_type then None
         else by_type_cache s t |}.

(** One call of the program, or the expiry of a cache entry. *)
Inductive StoreStep : Set :=
| Load
| Save (deal_name : string) (deal_data : DealData)
| Delete (deal_name : string)
| By_type (property_type : PropertyType)
| Expire_load
| Expire_by_type (property_type : PropertyType).

Definition store_step (s : Store) (c : StoreStep) : Store :=
  match c with
  | Load => snd (load_deals_from_file s)
  | Save deal_name deal_data => save_deal_to_file deal_name deal_data s
  | Delete deal_name => snd (delete_deal_from_file deal_name s)
  | By_type property_type => snd (get_deals_by_type property_type s)
  | Expire_load => expire_load_cache s
  | Expire_by_type property_type => expire_by_type_cache property_type s
  end.

(** The store when the program starts: a file in any state, nothing
    cached. *)
Definition start_store (f : DealsFile) : Store :=
  {| file := f; load_cache := None; by_type_cache := fun _ => None |}.

(** The store after a run of calls. *)
Definition run_store (f : DealsFile) (calls : list StoreStep) : Store :=
  fold_left store_step calls (start_store f).

(** ** Deal comparison *)

(** Body of the loop over the selected deals: score, grade and rating
    of one saved deal. *)
Definition comparison_score (deal_data : DealData) : Z * string * string :=
  let equity_calc :=
    get (d_purchase_price deal_data) 0
    - get (d_purchase_price deal_data) 0
      * (get (d_loan_to_value deal_data) 0 / 100) in
  let deal_metrics :=
    {| m_irr := Some (get (d_irr deal_data) 0);
       m_equity_multiple := Some (get (d_equity_multiple deal_data) 1);
       m_npv := Some (get (d_npv deal_data) 0);
       m_cap_rate := Some (get (d_going_in_cap deal_data) 0);
       m_year1_coc := Some (get (d_irr deal_data) 0 / 2);
       m_avg_coc := Some (get (d_irr deal_data) 0 / dec 15 10);
       m_dscr := Some (dec 13 10) |} in
  let deal_property_data :=
    {| p_property_type := d_property_type deal_data;
       p_equity_required := Some equity_calc;
       p_exit_cap_rate := Some (get (d_exit_cap_rate deal_data) 0);
       p_loan_to_value := Some (get (d_loan_to_value deal_data) 0);
       p_holding_period := Some (get (d_holding_period deal_data) 10%Z) |} in
  let '(score, breakdown, grade, rating) :=
    calculate_deal_score deal_metrics deal_property_data in
  (score, grade, rating).

(** [max(range(len(deal_scores)), key=lambda i: deal_scores[i]['score'])]
    after the first entry: the index kept so far, its score, and the
    index of the next entry. *)
Fixpoint best_from (best : nat) (best_score : Z) (idx : nat) (scores : list Z)
  : nat :=
  match scores with
  | [] => best
  | s :: rest =>
      if (best_score <? s)%Z then best_from idx s (S idx) rest
      else best_from best best_score (S idx) rest
  end.

(** [best_idx]; the comparison runs with at least two selected deals. *)
Definition best_idx (first_score : Z) (other_scores : list Z) : nat :=
  best_from 0 first_score 1 other_scores.


(** A three-year loan at 12 percent with one interest-only year, held
    for two years. *)
Definition three_year_loan : Inputs :=
  with_financing example_scenario 70 12 3 1 2.

(** The cache of [load_deals_from_file], if filled, holds what the file
    holds. *)
Definition load_cache_current (s : Store) : Prop :=
  match load_cache s with
  | Some deals => deals = read_deals (file s)
  | None => True
  end.

(** A saved deal for the examples. *)
Definition example_deal : DealData := {|
  d_property_type := Some Multifamily;
  d_purchase_price := Some (ofZ 1000000);
  d_loan_to_value := Some (ofZ 70);
  d_irr := Some (ofZ 12);
  d_equity_multiple := Some (ofZ 2);
  d_npv := Some (ofZ 0);
  d_going_in_cap := Some (dec 52 10);
  d_exit_cap_rate := Some (dec 55 10);
  d_holding_period := Some 10%Z
|}.

(** A projection row in terms of the script's year-1 figures: income
    and management fee compound at the rent growth rate, operating
    expenses at their own rate. *)
Definition row_compounds (i : Inputs) (row : CashFlowRow) : Prop :=
  Gross_Income row
  = year_1_gri i * pow (1 + rent_growth i / 100) (Year row - 1) /\
  EGI row = year_1_egi i * pow (1 + rent_growth i / 100) (Year row - 1) /\
  OpEx row = year_1_opex i * pow (1 + opex_growth i / 100) (Year row - 1) /\
  Mgmt_Fees row
  = year_1_mgmt i * pow (1 + rent_growth i / 100) (Year row - 1) /\
  NOI row
  = (year_1_egi i - year_1_mgmt i)
    * pow (1 + rent_growth i / 100) (Year row - 1)
    - year_1_opex i * pow (1 + opex_growth i / 100) (Year row - 1) /\
  (opex_growth i = rent_growth i ->
   NOI row = year_1_noi i * pow (1 + rent_growth i / 100) (Year row - 1)).

(** The score of a saved deal in the comparison, and the index the
    "BEST DEAL" badge goes to among the selected deals. *)
Definition comparison_total (deal_data : DealData) : Z :=
  fst (fst (comparison_score deal_data)).

Definition best_deal (first_deal : DealData) (other_deals : list DealData)
  : nat :=
  best_idx (comparison_total first_deal) (map comparison_total other_deals).

(** The deal above with weaker returns: an IRR of 10 percent, an
    equity multiple of 2 and no NPV. *)
Definition weaker_deal_metrics : MetricsDict := {|
  m_irr := Some (ofZ 10);
  m_equity_multiple := Some (ofZ 2);
  m_npv := Some (ofZ 0);
  m_cap_rate := Some (ofZ 8);
  m_year1_coc := Some (ofZ 12);
  m_avg_coc := Some (ofZ 12);
  m_dscr := Some (dec 11 10)
|}.

(** * Properties *)

(** * Facts about the numbers *)

Lemma Qceqb_eq (x y : Qc) : (x =? y) = true <-> x = y.
Proof.
  unfold Qceqb. rewrite Qeq_bool_iff. split.
  - apply Qc_is_canon.
  - intros ->. reflexivity.
Qed.

Lemma Qceqb_neq (x y : Qc) : (x =? y) = false <-> x <> y.
Proof.
  rewrite <- Qceqb_eq. destruct (x =? y); split; congruence.
Qed.

Lemma Qcleb_le (x y : Qc) : (x <=? y) = true <-> x <= y.
Proof. unfold Qcleb, Qcle. apply Qle_bool_iff. Qed.

Lemma Qcltb_lt (x y : Qc) : (x <? y) = true <-> x < y.
Proof.
  unfold Qcltb, Qclt. rewrite negb_true_iff.
  split; intros Hxy.
  - apply Qnot_le_lt. intros Hle. apply Qle_bool_iff in Hle. congruence.
  - destruct (Qle_bool y x) eqn:E; [|reflexivity].
    apply Qle_bool_iff in E. exfalso. apply (Qlt_not_le _ _ Hxy E).
Qed.

Lemma Qcltb_ge (x y : Qc) : (x <? y) = false <-> y <= x.
Proof.
  unfold Qcltb, Qcle. rewrite negb_false_iff. apply Qle_bool_iff.
Qed.

Lemma Qclt_0_neq (x : Qc) : 0 < x -> x <> 0.
Proof. intros Hx ->. exact (Qlt_irrefl _ Hx). Qed.

Lemma ofZ_neq_0 (z : Z) : z <> 0%Z -> ofZ z <> 0.
Proof.
  intros Hz Heq. apply Hz.
  unfold ofZ in Heq. apply Q2Qc_eq_iff in Heq.
  unfold Qeq in Heq. simpl in Heq. lia.
Qed.

(** Order statements on [Qc] read on the underlying fractions. *)
Ltac qc_to_q :=
  unfold Qclt, Qcle, Qcdiv, Qcminus, Qcplus, Qcmult, Qcinv, Qcopp, ofZ;
  cbn [this Q2Qc]; rewrite ?Qred_correct.

Tactic Notation "qc_to_q" "in" hyp(H) :=
  unfold Qclt, Qcle, Qcdiv, Qcminus, Qcplus, Qcmult, Qcinv, Qcopp, ofZ in H;
  cbn [this Q2Qc] in H; rewrite ?Qred_correct in H.

Lemma ofZ_pos (z : Z) : (0 < z)%Z -> 0 < ofZ z.
Proof.
  intros Hz. qc_to_q. unfold Qlt. simpl. lia.
Qed.

Lemma Qcdiv_pos (x y : Qc) : 0 < x -> 0 < y -> 0 < x / y.
Proof.
  intros Hx Hy. qc_to_q in Hx. qc_to_q in Hy. qc_to_q.
  apply Qmult_lt_0_compat; [exact Hx|]. apply Qinv_lt_0_compat. exact Hy.
Qed.

Lemma Qcplus_pos_gt (x y : Qc) : 0 < y -> x < x + y.
Proof.
  intros Hy. qc_to_q in Hy. qc_to_q. lra.
Qed.

Lemma Qcmult_gt_1 (x y : Qc) : 1 < x -> 1 < y -> 1 < x * y.
Proof.
  intros Hx Hy. qc_to_q in Hx. qc_to_q in Hy. qc_to_q. nra.
Qed.

Lemma Qcpower_gt_1 (x : Qc) (n : nat) : 1 < x -> (0 < n)%nat -> 1 < x ^ n.
Proof.
  intros Hx Hn. destruct n as [|n]; [lia|]. clear Hn.
  induction n as [|n IH].
  - simpl. rewrite Qcmult_1_r. exact Hx.
  - change (x ^ S (S n)) with (x * x ^ S n). apply Qcmult_gt_1; assumption.
Qed.

Lemma pow_nonneg_exp (x : Qc) (n : Z) : (0 <= n)%Z -> pow x n = x ^ Z.to_nat n.
Proof.
  intros Hn. destruct n as [|p|p]; simpl; try reflexivity. lia.
Qed.

Lemma pow_gt_1 (x : Qc) (n : Z) : 1 < x -> (0 < n)%Z -> 1 < pow x n.
Proof.
  intros Hx Hn. rewrite pow_nonneg_exp by lia. apply Qcpower_gt_1; [assumption|lia].
Qed.

Lemma pow_1_l (n : Z) : pow 1 n = 1.
Proof.
  destruct n as [|p|p]; simpl; rewrite ?Qcpower_1;
    solve [reflexivity | apply Qc_is_canon; reflexivity].
Qed.

Lemma Qcpower_add (x : Qc) (n m : nat) : x ^ (n + m) = x ^ n * x ^ m.
Proof.
  induction n as [|n IH]; simpl.
  - now rewrite Qcmult_1_l.
  - rewrite IH. ring.
Qed.

Lemma pow_add (x : Qc) (n m : Z) :
  (0 <= n)%Z -> (0 <= m)%Z -> pow x (n + m) = pow x n * pow x m.
Proof.
  intros Hn Hm. rewrite !pow_nonneg_exp by lia.
  rewrite Z2Nat.inj_add by lia. apply Qcpower_add.
Qed.

(** * The error monad *)

Lemma div_ok (x y : Qc) : y <> 0 -> div x y = Ok (x / y).
Proof.
  intros Hy. unfold div. apply Qceqb_neq in Hy. now rewrite Hy.
Qed.

Lemma div_by_zero (x : Qc) : div x 0 = Raise ZeroDivisionError.
Proof. reflexivity. Qed.

Lemma percent_neq_0 (x : Qc) : x <> 0 -> x / 100 <> 0.
Proof.
  intros Hx Heq. apply Hx.
  replace x with (x / 100 * 100) by (field; discriminate).
  rewrite Heq. ring.
Qed.

(** Equality of computed values: canonical fractions are compared by
    numerator and denominator, lists and results component by component. *)
Ltac qc_eq :=
  lazymatch goal with
  | |- @eq Qc _ _ => apply Qc_is_canon; vm_compute; reflexivity
  | |- Ok _ = Ok _ => apply f_equal; qc_eq
  | |- Some _ = Some _ => apply f_equal; qc_eq
  | |- cons _ _ = cons _ _ => apply f_equal2; qc_eq
  | |- pair _ _ = pair _ _ => apply f_equal2; qc_eq
  | |- _ => reflexivity
  end.

Ltac qc_compute := vm_compute; qc_eq.

(** * Terminal sale price *)

(** The two cases of the guard [if exit_cap_rate > 0 else 0]. *)
Lemma sale_price_cases (final_noi rent_growth exit_cap_rate : Qc) :
  (exit_cap_rate <= 0 ->
   sale_price final_noi rent_growth exit_cap_rate = Ok 0) /\
  (0 < exit_cap_rate ->
   sale_price final_noi rent_growth exit_cap_rate
   = Ok (final_noi * (1 + rent_growth / 100) / (exit_cap_rate / 100))).
Proof.
  unfold sale_price. split; intros Hcap.
  - apply Qcltb_ge in Hcap. now rewrite Hcap.
  - pose proof (Qclt_0_neq _ Hcap) as Hne.
    apply Qcltb_lt in Hcap. rewrite Hcap.
    apply div_ok, percent_neq_0, Hne.
Qed.

(** * Equity multiple *)

(** C4, as amended.  The equity multiple never fails: with no equity
    (zero or negative) the guard returns 0, and with positive equity it
    is [(sum of the yearly cash flows + net sale proceeds) / equity]. *)
Theorem equity_multiple_guarded
    (column : list Qc) (net_sale_proceeds equity_required : Qc) :
  (equity_required <= 0 ->
   equity_multiple column net_sale_proceeds equity_required = Ok 0) /\
  (0 < equity_required ->
   equity_multiple column net_sale_proceeds equity_required
   = Ok ((sum column + net_sale_proceeds) / equity_required)).
Proof.
  unfold equity_multiple. split; intros Heq.
  - apply Qcltb_ge in Heq. now rewrite Heq.
  - pose proof (Qclt_0_neq _ Heq) as Hne.
    apply Qcltb_lt in Heq. rewrite Heq. apply div_ok, Hne.
Qed.

Lemma equity_multiple_guarded_example :
  equity_multiple [ofZ 100; ofZ 200] 1000 0 = Ok 0 /\
  equity_multiple [ofZ 100; ofZ 200] 1000 500
  = Ok ((sum [ofZ 100; ofZ 200] + 1000) / 500).
Proof.
  split.
  - apply (proj1 (equity_multiple_guarded [ofZ 100; ofZ 200] 1000 0)).
    unfold Qcle, Qle. simpl. lia.
  - apply (proj2 (equity_multiple_guarded [ofZ 100; ofZ 200] 1000 500)).
    unfold Qclt, Qlt. simpl. lia.
Defined.

(** C4, as stated, fails: with zero equity the multiple is reported as
    0, not as an error. *)
Lemma equity_multiple_zero_equity_returns_zero :
  equity_multiple [ofZ 100; ofZ 200] 1000 0 = Ok 0.
Proof. reflexivity. Qed.

(** * Zero interest *)

Lemma zero_monthly_rate : (0 : Qc) / 100 / 12 = 0.
Proof. apply Qc_is_canon. reflexivity. Qed.

Lemma annuity_denominator_zero_rate (n : Z) :
  pow (1 + 0 / 100 / 12) n - 1 = 0.
Proof.
  rewrite zero_monthly_rate, Qcplus_0_r, pow_1_l. ring.
Qed.

(** C10 fails on the code.  At an interest rate of 0 the annuity
    denominator [(1 + monthly_rate)^n - 1] is 0: the debt service of
    every year after the interest-only period, and the closed-form
    balance of every holding period strictly between the interest-only
    period and the amortization period, raise [ZeroDivisionError]. *)
Theorem zero_interest_divides_by_zero
    (loan_amount : Qc) (amortization io_period : Z) :
  0 < loan_amount ->
  (io_period < amortization)%Z ->
  (forall year : Z,
     (io_period < year)%Z ->
     calculate_debt_service year loan_amount 0 amortization io_period
     = Raise ZeroDivisionError) /\
  (forall holding_period : Z,
     (io_period < holding_period < amortization)%Z ->
     calc_remaining_balance loan_amount 0 amortization io_period holding_period
     = Raise ZeroDivisionError).
Proof.
  intros Hloan Ham.
  apply Qclt_0_neq, Qceqb_neq in Hloan.
  split.
  - intros year Hyear. unfold calculate_debt_service.
    rewrite Hloan.
    replace (year <=? io_period)%Z with false by (symmetry; apply Z.leb_gt; lia).
    cbn [orb].
    replace ((amortization - io_period) * 12 <=? 0)%Z with false
      by (symmetry; apply Z.leb_gt; lia).
    rewrite annuity_denominator_zero_rate. reflexivity.
  - intros holding_period Hhold. unfold calc_remaining_balance.
    rewrite Hloan.
    replace (holding_period <=? io_period)%Z with false
      by (symmetry; apply Z.leb_gt; lia).
    cbn [orb].
    replace ((amortization - holding_period) * 12 <=? 0)%Z with false
      by (symmetry; apply Z.leb_gt; lia).
    rewrite annuity_denominator_zero_rate. reflexivity.
Qed.

Lemma zero_interest_divides_by_zero_example :
  calculate_debt_service 1 700000 0 30 0 = Raise ZeroDivisionError /\
  calc_remaining_balance 700000 0 30 0 10 = Raise ZeroDivisionError.
Proof.
  assert (Hloan : 0 < ofZ 700000) by (unfold Qclt, Qlt; simpl; lia).
  assert (Ham : (0 < 30)%Z) by lia.
  destruct (zero_interest_divides_by_zero 700000 30 0 Hloan Ham) as [Hds Hbal].
  split.
  - apply Hds. lia.
  - apply Hbal. lia.
Defined.

(** * An interest-only period that covers the amortization period *)

(** The part of C2 that holds: when the interest-only period is at
    least the amortization period, the debt service of every later year
    is 0. *)
Lemma debt_service_zero_after_io
    (year : Z) (loan_amount interest_rate : Qc) (amortization io_period : Z) :
  (amortization <= io_period)%Z -> (io_period < year)%Z ->
  loan_amount <> 0 ->
  calculate_debt_service year loan_amount interest_rate amortization io_period
  = Ok 0.
Proof.
  intros Ham Hyear Hloan. unfold calculate_debt_service.
  apply Qceqb_neq in Hloan. rewrite Hloan.
  replace (year <=? io_period)%Z with false by (symmetry; apply Z.leb_gt; lia).
  cbn [orb].
  replace ((amortization - io_period) * 12 <=? 0)%Z with true
    by (symmetry; apply Z.leb_le; lia).
  reflexivity.
Qed.

(** What the closed form does there: past the interest-only period it
    reports a balance of 0. *)
Lemma remaining_balance_zero_after_io
    (loan_amount interest_rate : Qc) (amortization io_period holding_period : Z) :
  (amortization <= io_period)%Z -> (io_period < holding_period)%Z ->
  loan_amount <> 0 ->
  calc_remaining_balance loan_amount interest_rate amortization io_period
    holding_period = Ok 0.
Proof.
  intros Ham Hhold Hloan. unfold calc_remaining_balance.
  apply Qceqb_neq in Hloan. rewrite Hloan.
  replace (holding_period <=? io_period)%Z with false
    by (symmetry; apply Z.leb_gt; lia).
  cbn [orb].
  replace ((amortization - holding_period) * 12 <=? 0)%Z with true
    by (symmetry; apply Z.leb_le; lia).
  reflexivity.
Qed.

(** C2 fails on the code.  With a 10-year interest-only period, a
    5-year amortization period and a 12-year hold on a loan of 700,000,
    [calc_remaining_balance] reports 0, although the running balance of
    the year loop stays at 700,000 in each of the 12 years and nothing
    is paid after year 10. *)
Theorem remaining_balance_drops_loan_after_io :
  loan_amount io_beyond_amortization = 700000 /\
  calc_remaining_balance (loan_amount io_beyond_amortization)
    (interest_rate io_beyond_amortization)
    (amortization io_beyond_amortization)
    (io_period io_beyond_amortization)
    (holding_period io_beyond_amortization) = Ok 0 /\
  balance_trace io_beyond_amortization = Ok (repeat (ofZ 700000) 12) /\
  calculate_debt_service 11 (loan_amount io_beyond_amortization)
    (interest_rate io_beyond_amortization)
    (amortization io_beyond_amortization)
    (io_period io_beyond_amortization) = Ok 0.
Proof.
  repeat split; qc_compute.
Qed.

(** * The running loan balance *)

Lemma range_succ (a : Z) (k : nat) :
  range a (a + Z.of_nat (S k)) = a :: range (a + 1) (a + 1 + Z.of_nat k).
Proof.
  unfold range.
  replace (a + Z.of_nat (S k) - a)%Z with (Z.of_nat (S k)) by lia.
  replace (a + 1 + Z.of_nat k - (a + 1))%Z with (Z.of_nat k) by lia.
  rewrite !Nat2Z.id. cbn [seq map]. f_equal.
  - lia.
  - rewrite <- seq_shift, map_map. apply map_ext. intros j. lia.
Qed.

Lemma range_empty (a : Z) : range a (a + Z.of_nat 0) = [].
Proof.
  unfold range. replace (a + Z.of_nat 0 - a)%Z with 0%Z by lia. reflexivity.
Qed.

Lemma last_cons {A : Type} (l : list A) :
  forall a d : A, last (a :: l) d = last l a.
Proof.
  induction l as [|x l IH]; intros a d.
  - reflexivity.
  - change (last (a :: x :: l) d) with (last (x :: l) d).
    now rewrite (IH x d), (IH x a).
Qed.

Section MonthlyIteration.

Variables interest_rate monthly_payment : Qc.

Local Abbreviation r := (cf_monthly_rate interest_rate).

(** One month: the balance grows by the month's interest and drops
    by the payment. *)
Lemma month_step_balance (s : MonthState) :
  temp_balance (month_step interest_rate monthly_payment s)
  = temp_balance s * (1 + r) - monthly_payment.
Proof. unfold month_step. cbn [temp_balance]. ring. Qed.

(** [n] months: the distance of [r * balance] from the payment grows
    by the factor [(1 + r)^n]. *)
Lemma month_iter_balance (n : nat) (s : MonthState) :
  r * temp_balance (Nat.iter n (month_step interest_rate monthly_payment) s)
  - monthly_payment
  = (r * temp_balance s - monthly_payment) * (1 + r) ^ n.
Proof.
  induction n as [|n IH].
  - change (Nat.iter 0 (month_step interest_rate monthly_payment) s) with s.
    change ((1 + r) ^ 0) with (1 : Qc). ring.
  - rewrite Nat.iter_succ, month_step_balance.
    change ((1 + r) ^ S n) with ((1 + r) * (1 + r) ^ n).
    transitivity
      ((r * temp_balance
              (Nat.iter n (month_step interest_rate monthly_payment) s)
        - monthly_payment) * (1 + r)).
    + ring.
    + rewrite IH. ring.
Qed.

End MonthlyIteration.

Section LoanBalance.

Variable property_type : PropertyType.
Variable holding_period : Z.
Variable unit_rents : list Qc.
Variables annual_rent_total rent_growth vacancy : Qc.
Variables opex_per_unit_or_sf opex_growth : Qc.
Variable units_or_sf : Z.
Variables management_fee capex_per_unit_or_sf : Qc.
Variables loan_amount interest_rate : Qc.
Variables amortization io_period : Z.
Variables equity_required tax_rate annual_depreciation : Qc.

Local Abbreviation year_body :=
  (cash_flow_year property_type unit_rents annual_rent_total rent_growth
     vacancy opex_per_unit_or_sf opex_growth units_or_sf management_fee
     capex_per_unit_or_sf loan_amount interest_rate amortization io_period
     equity_required tax_rate annual_depreciation).

Local Abbreviation year_loop :=
  (cash_flow_loop property_type unit_rents annual_rent_total rent_growth
     vacancy opex_per_unit_or_sf opex_growth units_or_sf management_fee
     capex_per_unit_or_sf loan_amount interest_rate amortization io_period
     equity_required tax_rate annual_depreciation).

Local Abbreviation amortize :=
  (amortize_year loan_amount interest_rate amortization io_period).

(** The monthly rate, the growth factor, the number of amortizing
    payments and the fixed monthly payment. *)
Local Abbreviation r := (interest_rate / 100 / 12).
Local Abbreviation n := ((amortization - io_period) * 12)%Z.
Local Abbreviation pmt :=
  (loan_amount * (r * pow (1 + r) n) / (pow (1 + r) n - 1)).

Hypothesis rate_pos : 0 < interest_rate.

Lemma monthly_rate_pos : 0 < r.
Proof.
  apply Qcdiv_pos; [apply Qcdiv_pos; [exact rate_pos|]|];
    apply ofZ_pos; lia.
Qed.

Lemma cf_monthly_rate_pos : cf_monthly_rate interest_rate = r.
Proof.
  unfold cf_monthly_rate.
  pose proof rate_pos as H. apply Qcltb_lt in H. now rewrite H.
Qed.

Lemma growth_factor_gt_1 : 1 < 1 + r.
Proof. apply Qcplus_pos_gt, monthly_rate_pos. Qed.

Lemma annuity_denominator_nonzero (k : Z) :
  (0 < k)%Z -> pow (1 + r) k - 1 <> 0.
Proof.
  intros Hk Heq.
  pose proof (pow_gt_1 (1 + r) k growth_factor_gt_1 Hk) as Hgt.
  replace (pow (1 + r) k) with (pow (1 + r) k - 1 + 1) in Hgt by ring.
  rewrite Heq in Hgt. rewrite Qcplus_0_l in Hgt.
  exact (Qlt_irrefl _ Hgt).
Qed.

Lemma pow_growth_nonzero (k : Z) : (0 <= k)%Z -> pow (1 + r) k <> 0.
Proof.
  intros Hk Heq.
  destruct (Z.eq_dec k 0) as [->|Hne].
  - cbn [pow] in Heq. discriminate Heq.
  - pose proof (pow_gt_1 (1 + r) k growth_factor_gt_1 ltac:(lia)) as Hgt.
    rewrite Heq in Hgt. unfold Qclt, Qlt in Hgt. simpl in Hgt. lia.
Qed.

(** With a positive rate the debt service is defined in every year. *)
Lemma debt_service_defined (year : Z) :
  exists ds,
    calculate_debt_service year loan_amount interest_rate amortization
      io_period = Ok ds.
Proof.
  unfold calculate_debt_service.
  destruct ((year <=? io_period)%Z || (loan_amount =? 0)); [eauto|].
  destruct (n <=? 0)%Z eqn:Hn; [eauto|].
  apply Z.leb_gt in Hn.
  rewrite div_ok by (apply annuity_denominator_nonzero; exact Hn).
  cbn [bind]. eauto.
Qed.

(** The balance at the end of a year, from the balance at its start:
    unchanged up to the end of the interest-only period, and twelve
    monthly steps afterwards. *)
Lemma amortize_year_io (year : Z) (b : Qc) :
  (year <= io_period)%Z ->
  exists st, amortize year b = Ok st /\ temp_balance st = b.
Proof.
  intros Hyear. unfold amortize_year.
  destruct (loan_amount =? 0); [eexists; split; reflexivity|].
  replace (year <=? io_period)%Z with true by (symmetry; apply Z.leb_le; lia).
  eexists; split; reflexivity.
Qed.

Lemma amortize_year_amortizing (year : Z) (b : Qc) :
  (io_period < year)%Z -> (io_period < amortization)%Z ->
  loan_amount <> 0 ->
  exists st,
    amortize year b = Ok st /\
    r * temp_balance st - pmt = (r * b - pmt) * pow (1 + r) 12.
Proof.
  intros Hyear Ham Hloan. unfold amortize_year.
  apply Qceqb_neq in Hloan. rewrite Hloan.
  replace (year <=? io_period)%Z with false by (symmetry; apply Z.leb_gt; lia).
  replace (io_period <? amortization)%Z with true
    by (symmetry; apply Z.ltb_lt; lia).
  rewrite cf_monthly_rate_pos.
  rewrite div_ok by (apply annuity_denominator_nonzero; lia).
  cbn [bind]. eexists; split; [reflexivity|].
  pose proof (month_iter_balance interest_rate pmt 12
                {| interest_expense := 0; principal_paid_this_year := 0;
                   temp_balance := b |}) as Hiter.
  rewrite cf_monthly_rate_pos in Hiter. cbn [temp_balance] in Hiter.
  exact Hiter.
Qed.

(** One year of the loop never fails, and carries the balance that
    [amortize_year] computes. *)
Lemma cash_flow_year_defined (year : Z) (b : Qc) (st : MonthState) :
  amortize year b = Ok st ->
  exists row, year_body year b = Ok (row, temp_balance st).
Proof.
  intros Hst. unfold cash_flow_year.
  destruct (debt_service_defined year) as [ds Hds].
  rewrite Hds. cbn [bind]. rewrite Hst. cbn [bind].
  destruct (0 <? equity_required) eqn:Heq.
  - apply Qcltb_lt, Qclt_0_neq in Heq.
    rewrite div_ok by exact Heq. cbn [bind]. eauto.
  - cbn [bind]. eauto.
Qed.

(** ** The loop invariant *)

Local Abbreviation balance_at :=
  (balance_after loan_amount interest_rate amortization io_period).

Hypothesis loan_nonzero : loan_amount <> 0.
Hypothesis amortizing : (io_period < amortization)%Z.

Lemma balance_after_start (y : Z) :
  (y <= io_period)%Z -> balance_at y loan_amount.
Proof.
  intros Hy. unfold balance_after.
  replace (Z.max 0 (y - io_period)) with 0%Z by lia.
  cbn [Z.mul pow]. ring.
Qed.

Lemma balance_after_step (year : Z) (b : Qc) :
  balance_at (year - 1) b ->
  exists row b',
    year_body year b = Ok (row, b') /\ balance_at year b'.
Proof.
  intros Hb.
  destruct (Z_le_gt_dec year io_period) as [Hio|Hio].
  - destruct (amortize_year_io year b Hio) as [st [Hst Hbal]].
    destruct (cash_flow_year_defined year b st Hst) as [row Hrow].
    exists row, (temp_balance st). split; [exact Hrow|].
    rewrite Hbal. unfold balance_after in *.
    replace (Z.max 0 (year - io_period)) with 0%Z by lia.
    replace (Z.max 0 (year - 1 - io_period)) with 0%Z in Hb by lia.
    exact Hb.
  - destruct (amortize_year_amortizing year b ltac:(lia) amortizing
                loan_nonzero) as [st [Hst Hbal]].
    destruct (cash_flow_year_defined year b st Hst) as [row Hrow].
    exists row, (temp_balance st). split; [exact Hrow|].
    unfold balance_after in *. rewrite Hbal, Hb.
    replace (12 * Z.max 0 (year - io_period))%Z
      with (12 * Z.max 0 (year - 1 - io_period) + 12)%Z by lia.
    rewrite pow_add by lia. ring.
Qed.

(** The loop over the years [s, s+1, ..., s+k-1]. *)
Lemma year_loop_balance (k : nat) :
  forall (s : Z) (b : Qc),
    balance_at (s - 1) b ->
    exists tr,
      year_loop (range s (s + Z.of_nat k)) b = Ok tr /\
      List.length tr = k /\
      balance_at (s - 1 + Z.of_nat k) (last (map snd tr) b).
Proof.
  induction k as [|k IH]; intros s b Hb.
  - rewrite range_empty. exists []. cbn [cash_flow_loop]. repeat split.
    cbn [map last]. replace (s - 1 + Z.of_nat 0)%Z with (s - 1)%Z by lia.
    exact Hb.
  - rewrite range_succ. cbn [cash_flow_loop].
    destruct (balance_after_step s b Hb) as [row [b' [Hrow Hb']]].
    rewrite Hrow. cbn [bind snd].
    replace s with (s + 1 - 1)%Z in Hb' by lia.
    destruct (IH (s + 1)%Z b' Hb') as [tr [Htr [Hlen Hlast]]].
    rewrite Htr. cbn [bind].
    exists ((row, b') :: tr). repeat split.
    + cbn [List.length]. now rewrite Hlen.
    + replace (s - 1 + Z.of_nat (S k))%Z
        with (s + 1 - 1 + Z.of_nat k)%Z by lia.
      cbn [map snd]. rewrite last_cons. exact Hlast.
Qed.

End LoanBalance.

(** The closed form, once the invariant is known. *)
Lemma closed_form_from_invariant
    (L r Am Ak B : Qc) :
  r <> 0 -> Ak <> 0 -> Am * Ak - 1 <> 0 ->
  r * B - L * (r * (Am * Ak)) / (Am * Ak - 1)
  = (r * L - L * (r * (Am * Ak)) / (Am * Ak - 1)) * Am ->
  L * (r * (Am * Ak)) / (Am * Ak - 1) * (Ak - 1) / (r * Ak) = B.
Proof.
  intros Hr HAk Hden Hinv.
  assert (HB : B = (r * B - L * (r * (Am * Ak)) / (Am * Ak - 1)
                    + L * (r * (Am * Ak)) / (Am * Ak - 1)) / r)
    by (field; auto).
  rewrite HB, Hinv. field. auto.
Qed.

Lemma paid_off_from_invariant (L r An B : Qc) :
  r <> 0 -> An - 1 <> 0 ->
  r * B - L * (r * An) / (An - 1) = (r * L - L * (r * An) / (An - 1)) * An ->
  B = 0.
Proof.
  intros Hr Hden Hinv.
  assert (HB : B = (r * B - L * (r * An) / (An - 1)
                    + L * (r * An) / (An - 1)) / r)
    by (field; auto).
  rewrite HB, Hinv. field. auto.
Qed.

(** C8.  For a loan with positive principal and rate whose holding
    period ends after the interest-only period and no later than the
    amortization period, the year loop of [calculate_cash_flows] runs
    to the end, and the balance it has reached after the last year of
    the holding period is exactly the value of
    [calc_remaining_balance].  Over the rationals the two agree with
    no tolerance. *)
Theorem closed_form_balance_matches_monthly_iteration
    (property_type : PropertyType) (holding_period : Z)
    (unit_rents : list Qc)
    (annual_rent_total rent_growth vacancy opex_per_unit_or_sf
     opex_growth : Qc)
    (units_or_sf : Z)
    (management_fee capex_per_unit_or_sf loan_amount interest_rate : Qc)
    (amortization io_period : Z)
    (equity_required tax_rate annual_depreciation : Qc) :
  0 < loan_amount ->
  0 < interest_rate ->
  (0 <= io_period)%Z ->
  (io_period < amortization)%Z ->
  (io_period < holding_period <= amortization)%Z ->
  exists balances : list Qc,
    loan_balance_by_year property_type holding_period unit_rents
      annual_rent_total rent_growth vacancy opex_per_unit_or_sf opex_growth
      units_or_sf management_fee capex_per_unit_or_sf loan_amount
      interest_rate amortization io_period equity_required tax_rate
      annual_depreciation = Ok balances /\
    List.length balances = Z.to_nat holding_period /\
    calc_remaining_balance loan_amount interest_rate amortization io_period
      holding_period = Ok (last balances loan_amount).
Proof.
  intros Hloan Hrate Hio Ham Hhold.
  pose proof (Qclt_0_neq _ Hloan) as Hloan0.
  assert (Hstart : balance_after loan_amount interest_rate amortization
                     io_period (1 - 1) loan_amount)
    by (apply balance_after_start; lia).
  destruct (year_loop_balance property_type unit_rents annual_rent_total
              rent_growth vacancy opex_per_unit_or_sf opex_growth units_or_sf
              management_fee capex_per_unit_or_sf loan_amount interest_rate
              amortization io_period equity_required tax_rate
              annual_depreciation Hrate Hloan0 Ham
              (Z.to_nat holding_period) 1 loan_amount Hstart)
    as [tr [Htr [Hlen Hinv]]].
  exists (map snd tr).
  unfold loan_balance_by_year, cash_flow_trace.
  replace (holding_period + 1)%Z with (1 + Z.of_nat (Z.to_nat holding_period))%Z
    by lia.
  rewrite Htr. cbn [bind]. split; [reflexivity|]. split.
  - now rewrite length_map.
  - unfold balance_after in Hinv.
    replace (12 * Z.max 0 (1 - 1 + Z.of_nat (Z.to_nat holding_period)
                           - io_period))%Z
      with ((holding_period - io_period) * 12)%Z in Hinv by lia.
    set (B := last (map snd tr) loan_amount) in *.
    set (r := interest_rate / 100 / 12) in *.
    assert (Hr : r <> 0)
      by (apply Qclt_0_neq, monthly_rate_pos; exact Hrate).
    unfold calc_remaining_balance.
    apply Qceqb_neq in Hloan0. rewrite Hloan0.
    replace (holding_period <=? io_period)%Z with false
      by (symmetry; apply Z.leb_gt; lia).
    cbn [orb]. fold r.
    destruct (Z.eq_dec holding_period amortization) as [Heq|Hne].
    + (* the loan is paid off exactly at the end of the holding period *)
      subst holding_period.
      replace ((amortization - amortization) * 12 <=? 0)%Z with true
        by (symmetry; apply Z.leb_le; lia).
      f_equal. symmetry.
      apply (paid_off_from_invariant loan_amount r
               (pow (1 + r) ((amortization - io_period) * 12)) B Hr).
      * apply annuity_denominator_nonzero; [exact Hrate|lia].
      * exact Hinv.
    + replace ((amortization - holding_period) * 12 <=? 0)%Z with false
        by (symmetry; apply Z.leb_gt; lia).
      replace ((amortization - io_period) * 12)%Z
        with ((holding_period - io_period) * 12
              + (amortization - holding_period) * 12)%Z in * by lia.
      rewrite pow_add in * by lia.
      set (Am := pow (1 + r) ((holding_period - io_period) * 12)) in *.
      set (Ak := pow (1 + r) ((amortization - holding_period) * 12)) in *.
      assert (HAk : Ak <> 0)
        by (apply pow_growth_nonzero; [exact Hrate|lia]).
      assert (Hden : Am * Ak - 1 <> 0).
      { unfold Am, Ak. rewrite <- pow_add by lia.
        apply annuity_denominator_nonzero; [exact Hrate|lia]. }
      rewrite div_ok by exact Hden. cbn [bind].
      rewrite div_ok
        by (intros Hz; apply Qcmult_integral in Hz; destruct Hz; auto).
      f_equal.
      apply closed_form_from_invariant; assumption.
Qed.

Lemma closed_form_balance_example :
  exists balances : list Qc,
    loan_balance_by_year Multifamily 2
      [ofZ 1500; ofZ 1500] 36000 3 5 6000 3 2 4 300 700000 12 3 1 320000 0 0
    = Ok balances /\
    List.length balances = Z.to_nat 2 /\
    calc_remaining_balance 700000 12 3 1 2 = Ok (last balances 700000).
Proof.
  apply closed_form_balance_matches_monthly_iteration.
  - unfold Qclt, Qlt. simpl. lia.
  - unfold Qclt, Qlt. simpl. lia.
  - lia.
  - lia.
  - lia.
Defined.

(** * One-way sensitivity *)

(** The tested value of the vacancy rate, and of the operating-expense
    growth rate, is bound to a variable the loop body never reads. *)
Lemma one_way_point_ignores_vacancy `{NumpyFinancial}
    (i : Inputs) (remaining_balance : Qc) (one_metric : Metric) (v w : Qc) :
  one_way_point i remaining_balance Vacancy_Rate one_metric v
  = one_way_point i remaining_balance Vacancy_Rate one_metric w.
Proof. reflexivity. Qed.

Lemma one_way_point_ignores_opex_growth `{NumpyFinancial}
    (i : Inputs) (remaining_balance : Qc) (one_metric : Metric) (v w : Qc) :
  one_way_point i remaining_balance OpEx_Growth_Rate one_metric v
  = one_way_point i remaining_balance OpEx_Growth_Rate one_metric w.
Proof. reflexivity. Qed.

(** Running a valuation on concrete inputs: the result is computed and
    compared field by field. *)
Ltac run_valuation :=
  eexists; split; [vm_compute; reflexivity|]; cbn -[dec ofZ]; qc_compute.

(** C5 fails on the code.  On the all-cash example the one-way sweep of
    the vacancy rate runs over 1, 5/3, ..., 9 percent and reports the
    same equity multiple, 59985733/58437500, at all thirteen points,
    whereas the valuation itself gives 166081703/146093750 at a vacancy
    of 1 percent and 145357727/146093750 at 9 percent.  Likewise the
    sweep of the operating-expense growth rate over 0.5, ..., 5.5
    percent reports that same number thirteen times, whereas the
    valuation gives 126238897/116875000 at 0.5 percent and
    11173877/10625000 at 5.5 percent. *)
Theorem one_way_vacancy_sweep_is_flat `{NumpyFinancial} :
  (hd_error (test_range all_cash Vacancy_Rate) = Some (ofZ 1) /\
   last (test_range all_cash Vacancy_Rate) 0 = 9 /\
   one_way_analysis all_cash Vacancy_Rate Equity_Multiple
   = Ok (repeat (dec 59985733 58437500) 13) /\
   (exists v,
      compute_valuation (set_var Vacancy_Rate 1 all_cash) = Ok v /\
      val_equity_multiple v = dec 166081703 146093750) /\
   (exists v,
      compute_valuation (set_var Vacancy_Rate 9 all_cash) = Ok v /\
      val_equity_multiple v = dec 145357727 146093750)) /\
  (hd_error (test_range all_cash OpEx_Growth_Rate) = Some (dec 5 10) /\
   last (test_range all_cash OpEx_Growth_Rate) 0 = dec 55 10 /\
   one_way_analysis all_cash OpEx_Growth_Rate Equity_Multiple
   = Ok (repeat (dec 59985733 58437500) 13) /\
   (exists v,
      compute_valuation (set_var OpEx_Growth_Rate (dec 5 10) all_cash)
      = Ok v /\
      val_equity_multiple v = dec 126238897 116875000) /\
   (exists v,
      compute_valuation (set_var OpEx_Growth_Rate (dec 55 10) all_cash)
      = Ok v /\
      val_equity_multiple v = dec 11173877 10625000)).
Proof.
  split.
  - split; [qc_compute|]. split; [qc_compute|]. split; [qc_compute|].
    split; run_valuation.
  - split; [qc_compute|]. split; [qc_compute|]. split; [qc_compute|].
    split; run_valuation.
Qed.

(** * Two-way sensitivity *)

(** C6 fails on the code.  On the all-cash example (selling costs 2
    percent, rent and expense growth both 3 percent) the centre cell of
    the exit-cap-rate by rent-growth grid has both variables at their
    base values, yet its equity multiple is 59985733/58437500 where the
    valuation reports 31143943/29218750.  The yearly cash flows are the
    same; the cell is what the valuation's formula gives with the sale
    price multiplied by 0.94 instead of by one minus the configured
    selling-cost rate. *)
Theorem two_way_base_cell_differs_from_valuation `{NumpyFinancial} :
  nth 3 (var_ranges all_cash Exit_Cap_Rate) 0 = exit_cap_rate all_cash /\
  nth 3 (var_ranges all_cash Rent_Growth_Rate) 0 = rent_growth all_cash /\
  (exists grid,
     two_way_analysis all_cash Exit_Cap_Rate Rent_Growth_Rate Equity_Multiple
     = Ok grid /\
     nth 3 (nth 3 grid []) 0 = dec 59985733 58437500) /\
  (exists v,
     compute_valuation all_cash = Ok v /\
     val_equity_multiple v = dec 31143943 29218750 /\
     val_net_sale_proceeds v = val_sale_price v * dec 98 100 /\
     (sum (map BTCF (val_cf_df v)) + val_sale_price v * dec 98 100)
     / equity_required all_cash = dec 31143943 29218750 /\
     (sum (map BTCF (val_cf_df v)) + val_sale_price v * dec 94 100)
     / equity_required all_cash = dec 59985733 58437500).
Proof.
  split; [qc_compute|]. split; [qc_compute|]. split.
  - run_valuation.
  - eexists. split; [vm_compute; reflexivity|].
    cbn -[dec ofZ]. repeat split; qc_compute.
Qed.

(** * The running balance past the amortization period *)

(** C7 fails on the code.  For a one-year loan of 700,000 at 12
    percent held for two years, the year loop keeps amortizing after
    the loan is paid off: the running balance is 0 after year 1 and
    negative after year 2, while [calc_remaining_balance] reports 0 for
    the same loan. *)
Theorem running_balance_negative_past_amortization :
  balance_trace short_loan
  = Ok [0; dec (-7887775210923788044628407) 10000000000000000000] /\
  (dec (-7887775210923788044628407) 10000000000000000000 <? 0) = true /\
  calc_remaining_balance (loan_amount short_loan) (interest_rate short_loan)
    (amortization short_loan) (io_period short_loan)
    (holding_period short_loan) = Ok 0.
Proof.
  repeat split; qc_compute.
Qed.

(** * The recommendation *)

Lemma pct_of_defined (data : ScoreEntry) :
  max data <> 0%Z -> pct_of data = Ok (pct data).
Proof.
  intros Hmax. unfold pct_of, pct.
  rewrite div_ok by (apply ofZ_neq_0; exact Hmax). reflexivity.
Qed.

Lemma caps_nonzero_cons (e : string * ScoreEntry) (sb : ScoreBreakdown) :
  caps_nonzero (e :: sb) -> max (snd e) <> 0%Z /\ caps_nonzero sb.
Proof.
  intros H. split.
  - apply H. now left.
  - intros e' He'. apply H. now right.
Qed.

Lemma category_strengths_filter (sb : ScoreBreakdown) :
  caps_nonzero sb ->
  category_strengths sb = Ok (map strength_of (filter is_strong sb)).
Proof.
  induction sb as [|[category data] sb IH]; intros Hcaps.
  - reflexivity.
  - apply caps_nonzero_cons in Hcaps. destruct Hcaps as [Hmax Hcaps].
    cbn [category_strengths filter]. cbn [snd] in Hmax.
    rewrite (pct_of_defined data Hmax). cbn [bind].
    rewrite (IH Hcaps). cbn [bind].
    change (is_strong (category, data)) with (80 <=? pct data).
    destruct (80 <=? pct data); reflexivity.
Qed.

Lemma category_risks_filter (sb : ScoreBreakdown) :
  caps_nonzero sb ->
  category_risks sb = Ok (map risk_of (filter is_weak sb)).
Proof.
  induction sb as [|[category data] sb IH]; intros Hcaps.
  - reflexivity.
  - apply caps_nonzero_cons in Hcaps. destruct Hcaps as [Hmax Hcaps].
    cbn [category_risks filter]. cbn [snd] in Hmax.
    rewrite (pct_of_defined data Hmax). cbn [bind].
    rewrite (IH Hcaps). cbn [bind].
    change (is_weak (category, data)) with (pct data <? 50).
    destruct (pct data <? 50); reflexivity.
Qed.

(** Case analysis on every test that is still undecided. *)
Ltac split_conditions :=
  repeat match goal with
         | |- context [if ?c then _ else _] =>
             lazymatch c with
             | true => fail
             | false => fail
             | _ => destruct c; cbn [bind]
             end
         end.

Lemma metric_strengths_flags (metrics : MetricsDict) :
  metric_strengths metrics
  = Ok (irr_strength metrics ++ npv_strength metrics
        ++ equity_multiple_strength metrics).
Proof.
  unfold metric_strengths, irr_strength, npv_strength,
    equity_multiple_strength.
  destruct (m_irr metrics) as [irr|], (m_npv metrics) as [npv|],
    (m_equity_multiple metrics) as [em|]; cbn [get getitem];
    try change (15 <=? 0) with false;
    try change (0 <? 0) with false;
    try change (dec 25 10 <=? 0) with false;
    cbn [bind]; split_conditions; reflexivity.
Qed.

Lemma metric_risks_flags
    (irr : Qc) (metrics : MetricsDict) (property_data : PropertyDict) :
  m_irr metrics = Some irr ->
  metric_risks metrics property_data
  = Ok (irr_risk irr ++ npv_risk metrics ++ hold_risk property_data).
Proof.
  intros Hirr.
  unfold metric_risks, irr_risk, npv_risk, hold_risk. rewrite Hirr.
  cbn [get getitem].
  destruct (p_holding_period property_data) as [hp|]; cbn [get getitem];
    try change (20 <? 0)%Z with false;
    cbn [bind]; split_conditions; reflexivity.
Qed.

Lemma recommendation_body_lists
    (total_score : Z) (sb : ScoreBreakdown) (metrics : MetricsDict)
    (property_data : PropertyDict) (irr : Qc) :
  caps_nonzero sb ->
  m_irr metrics = Some irr ->
  exists act text todo conf,
    recommendation_body total_score sb metrics property_data
    = Ok {| action := act; summary := text;
            strengths := firstn 4 (strength_candidates sb metrics);
            risks := firstn 4 (risk_candidates sb irr metrics property_data);
            actions := todo; confidence := conf |}.
Proof.
  intros Hcaps Hirr. unfold recommendation_body.
  match goal with
  | |- context [let '(act, text) := ?c in _] => destruct c as [act text]
  end.
  rewrite (category_strengths_filter sb Hcaps), metric_strengths_flags,
    (category_risks_filter sb Hcaps),
    (metric_risks_flags irr metrics property_data Hirr).
  cbn [bind]. unfold strength_candidates, risk_candidates.
  do 4 eexists. reflexivity.
Qed.

Lemma in_firstn {A : Type} (x : A) (k : nat) (l : list A) :
  In x (firstn k l) -> In x l.
Proof.
  intros Hin. rewrite <- (firstn_skipn k l). apply in_or_app. now left.
Qed.

Lemma strength_of_not_irr (irr : Qc) (l : ScoreBreakdown) :
  ~ In (Superior_IRR irr) (map strength_of l).
Proof.
  intros Hin. apply in_map_iff in Hin. destruct Hin as [e [He _]].
  discriminate He.
Qed.

(** The IRR entry comes right after the category entries, so it is
    among the first four exactly when fewer than four categories are
    flagged. *)
Lemma irr_entry_in_first_four
    (irr : Qc) (cats : ScoreBreakdown) (rest : list Strength) :
  In (Superior_IRR irr)
     (firstn 4 (map strength_of cats ++ [Superior_IRR irr] ++ rest))
  <-> (List.length cats < 4)%nat.
Proof.
  rewrite firstn_app, length_map. split.
  - intros Hin. apply in_app_or in Hin. destruct Hin as [Hin|Hin].
    + apply in_firstn in Hin. now apply strength_of_not_irr in Hin.
    + destruct (Nat.lt_ge_cases (List.length cats) 4) as [Hlt|Hge];
        [exact Hlt|].
      replace (4 - List.length cats)%nat with 0%nat in Hin by lia.
      destruct Hin.
  - intros Hlt. apply in_or_app. right.
    destruct (4 - List.length cats)%nat as [|k] eqn:Hk; [lia|].
    cbn [app firstn]. now left.
Qed.

Lemma in_firstn_all {A : Type} (x : A) (l rest : list A) (k : nat) :
  (List.length l <= k)%nat -> In x l -> In x (firstn k (l ++ rest)).
Proof.
  intros Hlen Hin. rewrite firstn_app. apply in_or_app. left.
  now rewrite firstn_all2 by exact Hlen.
Qed.

(** C9, as amended.  When every cap is non-zero and the metrics carry
    an IRR (otherwise the generator returns its fallback, with empty
    lists), the candidates are collected in this order: the categories
    at or above 80 percent of their cap, then the IRR entry if IRR is
    at least 15, then the other metric entries; likewise for the risks
    with the categories below 50 percent.  The returned lists are the
    first four candidates.  So the IRR entry is returned exactly when
    fewer than four categories are flagged as strengths, and every
    flagged category is returned when at most four are flagged. *)
Theorem recommendation_keeps_first_four_candidates
    (total_score : Z) (sb : ScoreBreakdown) (metrics : MetricsDict)
    (property_data : PropertyDict) (irr : Qc) :
  caps_nonzero sb ->
  m_irr metrics = Some irr ->
  let r := generate_recommendation total_score sb metrics property_data in
  strengths r = firstn 4 (strength_candidates sb metrics) /\
  risks r = firstn 4 (risk_candidates sb irr metrics property_data) /\
  (15 <= irr ->
   (In (Superior_IRR irr) (strengths r)
    <-> (List.length (filter is_strong sb) < 4)%nat)) /\
  ((List.length (filter is_strong sb) <= 4)%nat ->
   forall e, In e sb -> is_strong e = true ->
             In (strength_of e) (strengths r)) /\
  ((List.length (filter is_weak sb) <= 4)%nat ->
   forall e, In e sb -> is_weak e = true -> In (risk_of e) (risks r)).
Proof.
  intros Hcaps Hirr r.
  destruct (recommendation_body_lists total_score sb metrics property_data
              irr Hcaps Hirr) as [act [text [todo [conf Hbody]]]].
  assert (Hs : strengths r = firstn 4 (strength_candidates sb metrics))
    by (unfold r, generate_recommendation; rewrite Hbody; reflexivity).
  assert (Hr : risks r
               = firstn 4 (risk_candidates sb irr metrics property_data))
    by (unfold r, generate_recommendation; rewrite Hbody; reflexivity).
  split; [exact Hs|]. split; [exact Hr|]. split; [|split].
  - intros Hge. apply Qcleb_le in Hge.
    rewrite Hs. unfold strength_candidates, irr_strength.
    rewrite Hirr, Hge. apply irr_entry_in_first_four.
  - intros Hlen e He Hstrong. rewrite Hs. unfold strength_candidates.
    apply in_firstn_all; [now rewrite length_map|].
    apply in_map, filter_In. now split.
  - intros Hlen e He Hweak. rewrite Hr. unfold risk_candidates.
    apply in_firstn_all; [now rewrite length_map|].
    apply in_map, filter_In. now split.
Qed.

Lemma strong_deal_score :
  calculate_deal_score strong_deal_metrics strong_deal_property
  = (92%Z, strong_deal_breakdown, "A"%string, "Outstanding"%string).
Proof. vm_compute. reflexivity. Qed.

(** C9, as stated, fails: the deal above has an IRR of 20 percent, but
    four categories are at 100 percent of their cap and fill the four
    places of the returned list; the IRR entry is cut off. *)
Lemma irr_strength_cut_off_by_four_categories :
  m_irr strong_deal_metrics = Some (ofZ 20) /\
  (15 <=? 20) = true /\
  strengths (score_and_recommend strong_deal_metrics strong_deal_property)
  = [ Category_strength "Returns (IRR/EM)" 30 30 100;
      Category_strength "Value Creation (NPV)" 20 20 100;
      Category_strength "Cash Flow Strength" 20 20 100;
      Category_strength "Market Positioning" 15 15 100 ].
Proof.
  split; [reflexivity|]. split; [reflexivity|].
  vm_compute. repeat (apply f_equal2; [f_equal; qc_eq|]). reflexivity.
Qed.

Lemma strong_deal_caps_nonzero : caps_nonzero strong_deal_breakdown.
Proof.
  intros e He. cbn [strong_deal_breakdown In] in He.
  repeat (destruct He as [<-|He]; [cbn [snd max]; lia|]).
  destruct He.
Defined.

Lemma recommendation_first_four_example :
  let r := generate_recommendation 92 strong_deal_breakdown
             strong_deal_metrics strong_deal_property in
  strengths r = firstn 4 (strength_candidates strong_deal_breakdown
                            strong_deal_metrics) /\
  risks r = firstn 4 (risk_candidates strong_deal_breakdown 20
                        strong_deal_metrics strong_deal_property) /\
  (15 <= 20 ->
   (In (Superior_IRR 20) (strengths r)
    <-> (List.length (filter is_strong strong_deal_breakdown) < 4)%nat)) /\
  ((List.length (filter is_strong strong_deal_breakdown) <= 4)%nat ->
   forall e, In e strong_deal_breakdown -> is_strong e = true ->
             In (strength_of e) (strengths r)) /\
  ((List.length (filter is_weak strong_deal_breakdown) <= 4)%nat ->
   forall e, In e strong_deal_breakdown -> is_weak e = true ->
             In (risk_of e) (risks r)).
Proof.
  apply (recommendation_keeps_first_four_candidates 92 strong_deal_breakdown
           strong_deal_metrics strong_deal_property 20).
  - exact strong_deal_caps_nonzero.
  - reflexivity.
Defined.

(** * The rows of the projection *)

Lemma bind_inv {A B : Type} (m : result A) (k : A -> result B) (b : B) :
  bind m k = Ok b -> exists a, m = Ok a /\ k a = Ok b.
Proof.
  destruct m as [a|e]; cbn [bind]; intros H; [eauto|discriminate H].
Qed.

Lemma Qcminus_0_r (x : Qc) : x - 0 = x.
Proof. ring. Qed.

Section Rows.

Variable property_type : PropertyType.
Variable unit_rents : list Qc.
Variables annual_rent_total rent_growth vacancy : Qc.
Variables opex_per_unit_or_sf opex_growth : Qc.
Variable units_or_sf : Z.
Variables management_fee capex_per_unit_or_sf : Qc.
Variables loan_amount interest_rate : Qc.
Variables amortization io_period : Z.
Variables equity_required tax_rate annual_depreciation : Qc.

Local Abbreviation year_body :=
  (cash_flow_year property_type unit_rents annual_rent_total rent_growth
     vacancy opex_per_unit_or_sf opex_growth units_or_sf management_fee
     capex_per_unit_or_sf loan_amount interest_rate amortization io_period
     equity_required tax_rate annual_depreciation).

Local Abbreviation year_loop :=
  (cash_flow_loop property_type unit_rents annual_rent_total rent_growth
     vacancy opex_per_unit_or_sf opex_growth units_or_sf management_fee
     capex_per_unit_or_sf loan_amount interest_rate amortization io_period
     equity_required tax_rate annual_depreciation).

(** The operating lines of a row: income compounds from year 1 at the
    rent growth rate, expenses at the expense growth rate, the capital
    reserve is flat, the management fee is taken on effective gross
    income, and the net lines follow by subtraction. *)
Lemma cash_flow_year_equations (year : Z) (b b' : Qc) (row : CashFlowRow) :
  year_body year b = Ok (row, b') ->
  Year row = year /\
  Gross_Income row
  = match property_type with
    | SingleFamily | Multifamily =>
        sum (map (fun rent => rent * pow (1 + rent_growth / 100) (year - 1))
               unit_rents) * 12
    | _ => annual_rent_total * pow (1 + rent_growth / 100) (year - 1)
    end /\
  EGI row = Gross_Income row * (1 - vacancy / 100) /\
  OpEx row
  = match property_type with
    | SingleFamily =>
        opex_per_unit_or_sf * pow (1 + opex_growth / 100) (year - 1)
    | _ => opex_per_unit_or_sf * units_or_sf
           * pow (1 + opex_growth / 100) (year - 1)
    end /\
  Mgmt_Fees row = EGI row * (management_fee / 100) /\
  CapEx row
  = match property_type with
    | SingleFamily => capex_per_unit_or_sf
    | _ => capex_per_unit_or_sf * units_or_sf
    end /\
  NOI row = EGI row - OpEx row - Mgmt_Fees row /\
  calculate_debt_service year loan_amount interest_rate amortization
    io_period = Ok (Debt_Service row) /\
  BTCF row = NOI row - CapEx row - Debt_Service row /\
  ATCF row = BTCF row - Taxes row.
Proof.
  unfold cash_flow_year. intros H.
  apply bind_inv in H. destruct H as [ds [Hds H]].
  apply bind_inv in H. destruct H as [am [Ham H]].
  apply bind_inv in H. destruct H as [coc [Hcoc H]].
  injection H as Hrow Hbal. subst row.
  cbn [Year Gross_Income EGI OpEx Mgmt_Fees CapEx NOI Debt_Service BTCF
       Taxes ATCF].
  repeat (split; [first [reflexivity | exact Hds]|]).
  destruct (0 <? tax_rate); [reflexivity|].
  symmetry. apply Qcminus_0_r.
Qed.

Lemma year_loop_head (year : Z) (rest : list Z) (b : Qc)
      (tr : list (CashFlowRow * Qc)) :
  year_loop (year :: rest) b = Ok tr ->
  exists row b' tl, year_body year b = Ok (row, b') /\ tr = (row, b') :: tl.
Proof.
  cbn [cash_flow_loop]. intros H.
  apply bind_inv in H. destruct H as [[row b'] [Hrow H]].
  apply bind_inv in H. destruct H as [tl [_ H]].
  injection H as <-. eauto.
Qed.

Lemma Qcmax_0_nonneg (x : Qc) : 0 <= Qcmax 0 x.
Proof.
  unfold Qcmax. destruct (0 <? x) eqn:Hx.
  - apply Qclt_le_weak, Qcltb_lt, Hx.
  - apply Qcle_refl.
Qed.

Lemma cash_flow_year_taxes (year : Z) (b b' : Qc) (row : CashFlowRow) :
  year_body year b = Ok (row, b') -> 0 <= Taxes row.
Proof.
  unfold cash_flow_year. intros H.
  apply bind_inv in H. destruct H as [ds [Hds H]].
  apply bind_inv in H. destruct H as [am [Ham H]].
  apply bind_inv in H. destruct H as [coc [Hcoc H]].
  injection H as Hrow Hbal. subst row. cbn [Taxes].
  destruct (0 <? tax_rate).
  - apply Qcmax_0_nonneg.
  - apply Qcle_refl.
Qed.

(** Every record of the loop comes out of its body. *)
Lemma year_loop_rows (years : list Z) :
  forall (b : Qc) (tr : list (CashFlowRow * Qc)),
    year_loop years b = Ok tr ->
    Forall (fun rb => exists year b0, year_body year b0 = Ok rb) tr.
Proof.
  induction years as [|year rest IH]; intros b tr H.
  - cbn [cash_flow_loop] in H. injection H as <-. constructor.
  - cbn [cash_flow_loop] in H.
    apply bind_inv in H. destruct H as [rb [Hrb H]].
    apply bind_inv in H. destruct H as [tl [Htl H]].
    injection H as <-. constructor.
    + eauto.
    + exact (IH _ _ Htl).
Qed.

End Rows.

(** Every row that [calculate_cash_flows] returns satisfies the
    identities of the data model: effective gross income is gross
    income less vacancy, the management fee is taken on effective gross
    income, NOI = EGI - opex - management fee, BTCF = (NOI - CapEx) -
    debt service, ATCF = BTCF - taxes, and taxes are never negative. *)
Theorem projection_rows_balance
    (property_type : PropertyType) (holding_period : Z)
    (unit_rents : list Qc)
    (annual_rent_total rent_growth vacancy opex_per_unit_or_sf
     opex_growth : Qc)
    (units_or_sf : Z)
    (management_fee capex_per_unit_or_sf loan_amount interest_rate : Qc)
    (amortization io_period : Z)
    (equity_required tax_rate annual_depreciation : Qc)
    (rows : list CashFlowRow) :
  calculate_cash_flows property_type holding_period unit_rents
    annual_rent_total rent_growth vacancy opex_per_unit_or_sf opex_growth
    units_or_sf management_fee capex_per_unit_or_sf loan_amount
    interest_rate amortization io_period equity_required tax_rate
    annual_depreciation = Ok rows ->
  Forall (row_balances vacancy management_fee) rows.
Proof.
  unfold calculate_cash_flows, cash_flow_trace. intros H.
  apply bind_inv in H. destruct H as [tr [Htr H]].
  injection H as <-.
  apply year_loop_rows in Htr.
  apply Forall_forall. intros row Hrow.
  apply in_map_iff in Hrow. destruct Hrow as [[row' b'] [Heq Hin]].
  cbn [fst] in Heq. subst row'.
  rewrite Forall_forall in Htr.
  destruct (Htr _ Hin) as [year [b0 Hbody]].
  pose proof (cash_flow_year_taxes _ _ _ _ _ _ _ _ _ _ _ _ _ _ _ _ _ _ _ _ _
                Hbody) as Htax.
  apply cash_flow_year_equations in Hbody.
  destruct Hbody as [_ [_ [Hegi [_ [Hmgmt [_ [Hnoi [_ [Hbtcf Hatcf]]]]]]]]].
  repeat (split; [assumption|]). exact Htax.
Qed.

Lemma projection_rows_balance_example :
  exists rows : list CashFlowRow,
    cf_df all_cash = Ok rows /\
    List.length rows = 2%nat /\
    Forall (row_balances (vacancy all_cash) (management_fee all_cash)) rows.
Proof.
  destruct (cf_df all_cash) as [rows|e] eqn:Hrows.
  - exists rows. split; [reflexivity|]. split.
    + revert Hrows. vm_compute. intros H. injection H as <-. reflexivity.
    + exact (projection_rows_balance _ _ _ _ _ _ _ _ _ _ _ _ _ _ _ _ _ _ _
               Hrows).
  - exfalso. revert Hrows. vm_compute. discriminate.
Defined.

(** * The specification's example *)

(** The script's own year-1 figures and its financing split. *)
Lemma example_script_figures :
  year_1_gri example_scenario = 90000 /\
  year_1_egi example_scenario = 85500 /\
  year_1_opex example_scenario = 30000 /\
  year_1_mgmt example_scenario = 3420 /\
  year_1_noi example_scenario = 52080 /\
  total_acquisition example_scenario = 1020000 /\
  loan_amount example_scenario = 700000 /\
  equity_required example_scenario = 320000.
Proof.
  repeat split; qc_compute.
Qed.

(** The projection of the example runs through its ten years, and its
    first row carries the year-1 figures. *)
Lemma example_first_row :
  exists (row : CashFlowRow) (rest : list CashFlowRow),
    cf_df example_scenario = Ok (row :: rest) /\
    List.length (row :: rest) = 10%nat /\
    Gross_Income row = 90000 /\
    EGI row = 85500 /\
    OpEx row = 30000 /\
    Mgmt_Fees row = 3420 /\
    NOI row = 52080.
Proof.
  assert (Hrate : 0 < interest_rate example_scenario)
    by (unfold Qclt, Qlt; simpl; lia).
  assert (Hloan : loan_amount example_scenario <> 0)
    by (apply Qceqb_neq; vm_compute; reflexivity).
  assert (Ham : (io_period example_scenario
                 < amortization example_scenario)%Z)
    by (cbn; lia).
  assert (Hstart :
            balance_after (loan_amount example_scenario)
              (interest_rate example_scenario)
              (amortization example_scenario) (io_period example_scenario)
              (1 - 1) (loan_amount example_scenario))
    by (apply balance_after_start; cbn; lia).
  destruct (year_loop_balance (property_type example_scenario)
              (unit_rents example_scenario)
              (annual_rent_total example_scenario)
              (rent_growth example_scenario) (vacancy example_scenario)
              (opex_per_unit_or_sf example_scenario)
              (opex_growth example_scenario) (units_or_sf example_scenario)
              (management_fee example_scenario)
              (capex_per_unit_or_sf example_scenario)
              (loan_amount example_scenario) (interest_rate example_scenario)
              (amortization example_scenario) (io_period example_scenario)
              (equity_required example_scenario) (tax_rate example_scenario)
              (annual_depreciation example_scenario)
              Hrate Hloan Ham 10 1 (loan_amount example_scenario) Hstart)
    as [tr [Htr [Hlen _]]].
  pose proof Htr as Hhead.
  rewrite range_succ in Hhead.
  apply year_loop_head in Hhead.
  destruct Hhead as [row [b' [tl [Hrow ->]]]].
  apply cash_flow_year_equations in Hrow.
  destruct Hrow as [_ [Hgri [Hegi [Hopex [Hmgmt [_ [Hnoi _]]]]]]].
  exists row, (map fst tl).
  assert (Gross_Income row = 90000) as Hg by (rewrite Hgri; qc_compute).
  assert (EGI row = 85500) as He by (rewrite Hegi, Hg; qc_compute).
  assert (OpEx row = 30000) as Ho by (rewrite Hopex; qc_compute).
  assert (Mgmt_Fees row = 3420) as Hm by (rewrite Hmgmt, He; qc_compute).
  assert (NOI row = 52080) as Hn by (rewrite Hnoi, He, Ho, Hm; qc_compute).
  split; [|split; [|now repeat (split; [assumption|])]].
  - unfold cf_df, calculate_cash_flows, cash_flow_trace.
    change (holding_period example_scenario + 1)%Z with (1 + Z.of_nat 10)%Z.
    rewrite Htr. reflexivity.
  - cbn [List.length] in Hlen |- *. rewrite length_map. exact Hlen.
Qed.

(** C3, as amended.  On the example the year-1 figures, both as the
    script computes them and as the first row of the ten-year
    projection carries them, are: gross income 90,000, effective gross
    income 85,500, operating expenses 30,000, management fee 3,420 and
    net operating income 52,080.  The loan is 70 percent of the
    purchase price, 700,000, so the equity required is the 1,020,000
    acquisition cost less the loan: 320,000. *)
Theorem example_year_one_figures :
  (year_1_gri example_scenario = 90000 /\
   year_1_egi example_scenario = 85500 /\
   year_1_opex example_scenario = 30000 /\
   year_1_mgmt example_scenario = 3420 /\
   year_1_noi example_scenario = 52080 /\
   total_acquisition example_scenario = 1020000 /\
   loan_amount example_scenario = 700000 /\
   equity_required example_scenario = 320000) /\
  (exists (row : CashFlowRow) (rest : list CashFlowRow),
     cf_df example_scenario = Ok (row :: rest) /\
     List.length (row :: rest) = 10%nat /\
     Gross_Income row = 90000 /\
     EGI row = 85500 /\
     OpEx row = 30000 /\
     Mgmt_Fees row = 3420 /\
     NOI row = 52080).
Proof.
  split; [exact example_script_figures | exact example_first_row].
Qed.

(** C3, as stated, fails: the equity required on the example is
    320,000, not the 306,000 that 30 percent of the acquisition cost
    would give. *)
Lemma example_equity_is_not_306000 :
  equity_required example_scenario = 320000 /\
  (equity_required example_scenario =? 306000) = false /\
  dec 3 10 * total_acquisition example_scenario = 306000.
Proof.
  repeat split; qc_compute.
Qed.

(** * The running balance, year by year *)

(** Order facts used below. *)

Lemma Qcle_minus_l (c x y : Qc) : x <= y -> c - y <= c - x.
Proof.
  intros H. qc_to_q in H. qc_to_q. lra.
Qed.

Lemma Qcle_scale (l d x y : Qc) :
  0 <= l -> 0 < d -> x <= y -> l * x / d <= l * y / d.
Proof.
  intros Hl Hd Hxy. qc_to_q in Hl. qc_to_q in Hd. qc_to_q in Hxy. qc_to_q.
  pose proof (Qinv_lt_0_compat _ Hd) as Hinv.
  apply Qmult_le_compat_r; [|lra].
  rewrite <- (Qmult_comm x), <- (Qmult_comm y).
  apply Qmult_le_compat_r; assumption.
Qed.

Lemma Qcle_scale_nonneg (l d x : Qc) :
  0 <= l -> 0 < d -> 0 <= x -> 0 <= l * x / d.
Proof.
  intros Hl Hd Hx.
  replace (0 : Qc) with (l * 0 / d) at 1 by (field; apply Qclt_0_neq, Hd).
  apply Qcle_scale; assumption.
Qed.

Lemma Qcle_mult_ge_1 (x y : Qc) : 0 <= x -> 1 <= y -> x <= x * y.
Proof.
  intros Hx Hy. qc_to_q in Hx. qc_to_q in Hy. qc_to_q. nra.
Qed.

Lemma pow_ge_1 (x : Qc) (k : Z) : 1 < x -> (0 <= k)%Z -> 1 <= pow x k.
Proof.
  intros Hx Hk. destruct (Z.eq_dec k 0) as [->|Hne].
  - cbn [pow]. apply Qcle_refl.
  - apply Qclt_le_weak, pow_gt_1; [exact Hx|lia].
Qed.

Lemma pow_le_mono (x : Qc) (m k : Z) :
  1 < x -> (0 <= m <= k)%Z -> pow x m <= pow x k.
Proof.
  intros Hx Hmk.
  replace k with (m + (k - m))%Z by lia.
  rewrite pow_add by lia.
  apply Qcle_mult_ge_1.
  - apply Qcle_trans with 1; [|apply pow_ge_1; [exact Hx|lia]].
    unfold Qcle, Qle. simpl. lia.
  - apply pow_ge_1; [exact Hx|lia].
Qed.

Lemma non_increasing_cons (x y : Qc) (l : list Qc) :
  y <= x -> non_increasing (y :: l) -> non_increasing (x :: y :: l).
Proof. intros Hxy Hl. split; assumption. Qed.

Lemma Forall2_map_r {A B C : Type} (P : A -> C -> Prop) (f : B -> C)
      (xs : list A) (ys : list B) :
  Forall2 (fun x y => P x (f y)) xs ys -> Forall2 P xs (map f ys).
Proof.
  induction 1; cbn [map]; constructor; assumption.
Qed.

Lemma Forall2_self_map {A B : Type} (P : A -> B -> Prop) (f : A -> B)
      (xs : list A) :
  (forall x, In x xs -> P x (f x)) -> Forall2 P xs (map f xs).
Proof.
  induction xs as [|x xs IH]; intros H; cbn [map]; constructor.
  - apply H. now left.
  - apply IH. intros y Hy. apply H. now right.
Qed.

Lemma in_range (a b y : Z) : In y (range a b) -> (a <= y < b)%Z.
Proof.
  unfold range. intros Hin. apply in_map_iff in Hin.
  destruct Hin as [k [<- Hk]]. apply in_seq in Hk. lia.
Qed.

Section RunningBalance.

Variable property_type : PropertyType.
Variable holding_period : Z.
Variable unit_rents : list Qc.
Variables annual_rent_total rent_growth vacancy : Qc.
Variables opex_per_unit_or_sf opex_growth : Qc.
Variable units_or_sf : Z.
Variables management_fee capex_per_unit_or_sf : Qc.
Variables loan_amount interest_rate : Qc.
Variables amortization io_period : Z.
Variables equity_required tax_rate annual_depreciation : Qc.

Local Abbreviation year_body :=
  (cash_flow_year property_type unit_rents annual_rent_total rent_growth
     vacancy opex_per_unit_or_sf opex_growth units_or_sf management_fee
     capex_per_unit_or_sf loan_amount interest_rate amortization io_period
     equity_required tax_rate annual_depreciation).

Local Abbreviation year_loop :=
  (cash_flow_loop property_type unit_rents annual_rent_total rent_growth
     vacancy opex_per_unit_or_sf opex_growth units_or_sf management_fee
     capex_per_unit_or_sf loan_amount interest_rate amortization io_period
     equity_required tax_rate annual_depreciation).

Local Abbreviation balances_by_year :=
  (loan_balance_by_year property_type holding_period unit_rents
     annual_rent_total rent_growth vacancy opex_per_unit_or_sf opex_growth
     units_or_sf management_fee capex_per_unit_or_sf loan_amount
     interest_rate amortization io_period equity_required tax_rate
     annual_depreciation).

Local Abbreviation balance_at :=
  (balance_after loan_amount interest_rate amortization io_period).

Local Abbreviation scheduled :=
  (scheduled_balance loan_amount interest_rate amortization io_period).

(** ** Interest-only years: no assumption on the rate *)

Lemma cash_flow_year_io (year : Z) (b : Qc) :
  (year <= io_period)%Z -> exists row, year_body year b = Ok (row, b).
Proof.
  intros Hyear. unfold cash_flow_year, calculate_debt_service, amortize_year.
  replace (year <=? io_period)%Z with true by (symmetry; apply Z.leb_le; lia).
  cbn [orb bind].
  destruct (loan_amount =? 0); cbn [bind temp_balance];
    (destruct (0 <? equity_required) eqn:Heq;
     [ apply Qcltb_lt, Qclt_0_neq in Heq;
       rewrite div_ok by exact Heq; cbn [bind]; eauto
     | cbn [bind]; eauto ]).
Qed.

Lemma year_loop_io (k : nat) :
  forall (s : Z) (b : Qc),
    (s + Z.of_nat k - 1 <= io_period)%Z ->
    exists tr,
      year_loop (range s (s + Z.of_nat k)) b = Ok tr /\
      map snd tr = repeat b k.
Proof.
  induction k as [|k IH]; intros s b Hio.
  - rewrite range_empty. exists []. split; reflexivity.
  - rewrite range_succ. cbn [cash_flow_loop].
    destruct (cash_flow_year_io s b ltac:(lia)) as [row Hrow].
    rewrite Hrow. cbn [bind snd].
    destruct (IH (s + 1)%Z b ltac:(lia)) as [tr [Htr Hbal]].
    rewrite Htr. cbn [bind]. eexists. split; [reflexivity|].
    cbn [map snd repeat]. now rewrite Hbal.
Qed.

(** The part of C7 that holds on every input: while the holding
    period lies within the interest-only period, the running balance
    stays at the principal. *)
Lemma balance_unchanged_during_interest_only :
  (holding_period <= io_period)%Z ->
  balances_by_year = Ok (repeat loan_amount (Z.to_nat holding_period)).
Proof.
  intros Hio. unfold loan_balance_by_year, cash_flow_trace.
  destruct (Z_le_gt_dec 0 holding_period) as [Hh|Hh].
  - replace (holding_period + 1)%Z
      with (1 + Z.of_nat (Z.to_nat holding_period))%Z by lia.
    destruct (year_loop_io (Z.to_nat holding_period) 1 loan_amount
                ltac:(lia)) as [tr [Htr Hbal]].
    rewrite Htr. cbn [bind]. now rewrite Hbal.
  - unfold range.
    replace (Z.to_nat (holding_period + 1 - 1)) with 0%nat by lia.
    replace (Z.to_nat holding_period) with 0%nat by lia.
    reflexivity.
Qed.

(** ** Amortizing loans at a positive rate *)

Hypothesis rate_pos : 0 < interest_rate.
Hypothesis loan_pos : 0 < loan_amount.
Hypothesis io_nonneg : (0 <= io_period)%Z.
Hypothesis amortizing : (io_period < amortization)%Z.

(** Every year of the loop satisfies the invariant. *)
Lemma year_loop_invariant (k : nat) :
  forall (s : Z) (b : Qc),
    balance_at (s - 1) b ->
    exists tr,
      year_loop (range s (s + Z.of_nat k)) b = Ok tr /\
      Forall2 (fun y rb => balance_at y (snd rb))
              (range s (s + Z.of_nat k)) tr.
Proof.
  induction k as [|k IH]; intros s b Hb.
  - rewrite range_empty. exists []. split; [reflexivity|constructor].
  - rewrite range_succ. cbn [cash_flow_loop].
    destruct (balance_after_step property_type unit_rents annual_rent_total
                rent_growth vacancy opex_per_unit_or_sf opex_growth
                units_or_sf management_fee capex_per_unit_or_sf loan_amount
                interest_rate amortization io_period equity_required
                tax_rate annual_depreciation rate_pos
                (Qclt_0_neq _ loan_pos) amortizing s b Hb)
      as [row [b' [Hrow Hb']]].
    rewrite Hrow. cbn [bind snd].
    pose proof Hb' as Hnext. replace s with (s + 1 - 1)%Z in Hnext by lia.
    destruct (IH (s + 1)%Z b' Hnext) as [tr [Htr Hall]].
    rewrite Htr. cbn [bind]. eexists. split; [reflexivity|].
    constructor; [exact Hb'|exact Hall].
Qed.

(** The invariant pins the balance down: it is the scheduled one. *)
Lemma balance_at_scheduled (y : Z) (b : Qc) :
  balance_at y b -> b = scheduled y.
Proof.
  unfold balance_after, scheduled_balance.
  set (r := interest_rate / 100 / 12).
  set (An := pow (1 + r) ((amortization - io_period) * 12)).
  set (Am := pow (1 + r) (12 * Z.max 0 (y - io_period))).
  intros Hinv.
  assert (Hr : r <> 0)
    by (apply Qclt_0_neq, monthly_rate_pos; exact rate_pos).
  assert (Hden : An - 1 <> 0)
    by (apply annuity_denominator_nonzero; [exact rate_pos|lia]).
  assert (Hb : b = (r * b - loan_amount * (r * An) / (An - 1)
                    + loan_amount * (r * An) / (An - 1)) / r)
    by (field; auto).
  rewrite Hb, Hinv. field. auto.
Qed.

Lemma trace_scheduled (years : list Z) (tr : list (CashFlowRow * Qc)) :
  Forall2 (fun y rb => balance_at y (snd rb)) years tr ->
  map snd tr = map scheduled years.
Proof.
  induction 1 as [|y rb years tr Hy _ IH]; cbn [map]; [reflexivity|].
  now rewrite (balance_at_scheduled y (snd rb) Hy), IH.
Qed.

(** The balances of the loop are the scheduled ones. *)
Lemma balances_by_year_scheduled :
  balances_by_year = Ok (map scheduled (range 1 (holding_period + 1))).
Proof.
  unfold loan_balance_by_year, cash_flow_trace.
  assert (Hstart : balance_at (1 - 1) loan_amount).
  { apply balance_after_start. lia. }
  destruct (Z_le_gt_dec 0 holding_period) as [Hh|Hh].
  - replace (holding_period + 1)%Z
      with (1 + Z.of_nat (Z.to_nat holding_period))%Z by lia.
    destruct (year_loop_invariant (Z.to_nat holding_period) 1 loan_amount
                Hstart) as [tr [Htr Hall]].
    rewrite Htr. cbn [bind]. now rewrite (trace_scheduled _ _ Hall).
  - unfold range. replace (Z.to_nat (holding_period + 1 - 1)) with 0%nat by lia.
    reflexivity.
Qed.

(** ** What the schedule looks like *)

Local Abbreviation r := (interest_rate / 100 / 12).
Local Abbreviation An := (pow (1 + r) ((amortization - io_period) * 12)).

Lemma annuity_denominator_pos : 0 < An - 1.
Proof.
  unfold Qcminus. apply (proj1 (Qclt_minus_iff 1 An)), pow_gt_1.
  - apply growth_factor_gt_1, rate_pos.
  - lia.
Qed.

Lemma scheduled_io (y : Z) :
  (y <= io_period)%Z -> scheduled y = loan_amount.
Proof.
  intros Hy. unfold scheduled_balance.
  replace (Z.max 0 (y - io_period)) with 0%Z by lia.
  cbn [Z.mul pow]. field. apply Qclt_0_neq, annuity_denominator_pos.
Qed.

Lemma scheduled_step (y : Z) : scheduled (y + 1) <= scheduled y.
Proof.
  unfold scheduled_balance. apply Qcle_scale.
  - apply Qclt_le_weak, loan_pos.
  - exact annuity_denominator_pos.
  - apply Qcle_minus_l, pow_le_mono.
    + apply growth_factor_gt_1, rate_pos.
    + lia.
Qed.

Lemma scheduled_nonneg (y : Z) :
  (y <= amortization)%Z -> 0 <= scheduled y.
Proof.
  intros Hy. unfold scheduled_balance. apply Qcle_scale_nonneg.
  - apply Qclt_le_weak, loan_pos.
  - exact annuity_denominator_pos.
  - unfold Qcminus.
    apply (proj1 (Qcle_minus_iff
                    (pow (1 + r) (12 * Z.max 0 (y - io_period))) An)),
      pow_le_mono.
    + apply growth_factor_gt_1, rate_pos.
    + lia.
Qed.

Lemma scheduled_non_increasing (k : nat) :
  forall s : Z, non_increasing (map scheduled (range s (s + Z.of_nat k))).
Proof.
  induction k as [|k IH]; intros s.
  - rewrite range_empty. exact I.
  - rewrite range_succ. cbn [map].
    specialize (IH (s + 1)%Z).
    destruct k as [|k].
    + rewrite range_empty in *. exact I.
    + rewrite range_succ in *. cbn [map] in *.
      apply non_increasing_cons; [apply scheduled_step|exact IH].
Qed.

End RunningBalance.

(** Within the amortization schedule the running balance behaves as the
    data model says.  For a loan with positive principal and rate and
    an amortization period longer than the interest-only period, the
    year loop runs to the end for every holding period; the balance
    never increases from one year to the next, starting from the
    principal; it equals the principal in every interest-only year; and
    it is non-negative in every year when the holding period does not
    exceed the amortization period. *)
Theorem running_balance_on_schedule
    (property_type : PropertyType) (holding_period : Z)
    (unit_rents : list Qc)
    (annual_rent_total rent_growth vacancy opex_per_unit_or_sf
     opex_growth : Qc)
    (units_or_sf : Z)
    (management_fee capex_per_unit_or_sf loan_amount interest_rate : Qc)
    (amortization io_period : Z)
    (equity_required tax_rate annual_depreciation : Qc) :
  0 < loan_amount ->
  0 < interest_rate ->
  (0 <= io_period < amortization)%Z ->
  exists balances : list Qc,
    loan_balance_by_year property_type holding_period unit_rents
      annual_rent_total rent_growth vacancy opex_per_unit_or_sf opex_growth
      units_or_sf management_fee capex_per_unit_or_sf loan_amount
      interest_rate amortization io_period equity_required tax_rate
      annual_depreciation = Ok balances /\
    non_increasing (loan_amount :: balances) /\
    Forall2 (fun (year : Z) (b : Qc) =>
               (year <= io_period)%Z -> b = loan_amount)
            (range 1 (holding_period + 1)) balances /\
    ((holding_period <= amortization)%Z ->
     Forall (fun b : Qc => 0 <= b) balances).
Proof.
  intros Hloan Hrate [Hio Ham].
  exists (map (scheduled_balance loan_amount interest_rate amortization
                 io_period) (range 1 (holding_period + 1))).
  split; [|split; [|split]].
  - apply balances_by_year_scheduled; assumption.
  - rewrite <- (scheduled_io loan_amount interest_rate amortization io_period
                  Hrate Ham 0 Hio) at 1.
    change (non_increasing
              (map (scheduled_balance loan_amount interest_rate amortization
                      io_period)
                   (0%Z :: range (0 + 1) (holding_period + 1)))).
    destruct (Z_le_gt_dec 0 holding_period) as [Hh|Hh].
    + replace (holding_period + 1)%Z
        with (0 + 1 + Z.of_nat (Z.to_nat holding_period))%Z by lia.
      rewrite <- range_succ.
      apply scheduled_non_increasing; assumption.
    + unfold range.
      replace (Z.to_nat (holding_period + 1 - (0 + 1))) with 0%nat by lia.
      exact I.
  - apply Forall2_self_map. intros y _ Hy.
    apply scheduled_io; assumption.
  - intros Hhold. apply Forall_forall. intros b Hb.
    apply in_map_iff in Hb. destruct Hb as [y [<- Hy]].
    apply in_range in Hy.
    apply scheduled_nonneg; [assumption..|lia].
Qed.

Lemma running_balance_on_schedule_example :
  exists balances : list Qc,
    loan_balance_by_year Multifamily 3
      [ofZ 1500; ofZ 1500] 36000 3 5 6000 3 2 4 300 700000 12 3 1 320000 0 0
    = Ok balances /\
    non_increasing (ofZ 700000 :: balances) /\
    Forall2 (fun (year : Z) (b : Qc) => (year <= 1)%Z -> b = 700000)
            (range 1 (3 + 1)) balances /\
    ((3 <= 3)%Z -> Forall (fun b : Qc => 0 <= b) balances).
Proof.
  apply running_balance_on_schedule.
  - unfold Qclt, Qlt. simpl. lia.
  - unfold Qclt, Qlt. simpl. lia.
  - lia.
Defined.

(** * Further properties of the engine *)

Lemma balance_unchanged_example :
  loan_balance_by_year Multifamily 2
    [ofZ 1500; ofZ 1500] 36000 3 5 6000 3 2 4 300 700000 0 30 5 320000 0 0
  = Ok (repeat (ofZ 700000) (Z.to_nat 2)).
Proof.
  apply balance_unchanged_during_interest_only. lia.
Defined.

(** An all-cash purchase: with a loan-to-value of 0 there is no loan,
    the debt service of every year and the remaining balance are 0, and
    the equity required is the whole acquisition cost. *)
Theorem all_cash_has_no_debt (i : Inputs) (year : Z) :
  loan_to_value i = 0 ->
  loan_amount i = 0 /\
  calculate_debt_service year (loan_amount i) (interest_rate i)
    (amortization i) (io_period i) = Ok 0 /\
  calc_remaining_balance (loan_amount i) (interest_rate i) (amortization i)
    (io_period i) (holding_period i) = Ok 0 /\
  equity_required i = total_acquisition i.
Proof.
  intros Hltv.
  assert (Hloan : loan_amount i = 0).
  { unfold loan_amount. rewrite Hltv. unfold Qcdiv. ring. }
  unfold equity_required. rewrite Hloan.
  unfold calculate_debt_service, calc_remaining_balance.
  change (0 =? 0) with true. rewrite !orb_true_r.
  repeat split.
  - f_equal. ring.
  - ring.
Qed.

Lemma all_cash_has_no_debt_example :
  loan_amount all_cash = 0 /\
  calculate_debt_service 1 (loan_amount all_cash) (interest_rate all_cash)
    (amortization all_cash) (io_period all_cash) = Ok 0 /\
  calc_remaining_balance (loan_amount all_cash) (interest_rate all_cash)
    (amortization all_cash) (io_period all_cash) (holding_period all_cash)
  = Ok 0 /\
  equity_required all_cash = total_acquisition all_cash.
Proof.
  apply (all_cash_has_no_debt all_cash 1). reflexivity.
Defined.

(** * The deal score *)

(** Case analysis on a chain of threshold tests. *)
Ltac split_chain :=
  repeat match goal with
         | |- context [if ?c then _ else _] => destruct c
         end.

Lemma irr_score_bounds (x : Qc) : (2 <= irr_score x <= 20)%Z.
Proof. unfold irr_score. split_chain; lia. Qed.

Lemma em_score_bounds (x : Qc) : (2 <= em_score x <= 10)%Z.
Proof. unfold em_score. split_chain; lia. Qed.

Lemma value_score_bounds (x : Qc) : (0 <= value_score x <= 20)%Z.
Proof. unfold value_score. split_chain; lia. Qed.

Lemma coc1_score_bounds (x : Qc) : (1 <= coc1_score x <= 12)%Z.
Proof. unfold coc1_score. split_chain; lia. Qed.

Lemma coc_avg_score_bounds (x : Qc) : (1 <= coc_avg_score x <= 8)%Z.
Proof. unfold coc_avg_score. split_chain; lia. Qed.

Lemma cap_score_bounds (x : Qc) : (0 <= cap_score x <= 10)%Z.
Proof. unfold cap_score. split_chain; lia. Qed.

Lemma entry_score_bounds (x y : Qc) : (1 <= entry_score x y <= 5)%Z.
Proof. unfold entry_score. split_chain; lia. Qed.

Lemma ltv_score_bounds (x : Qc) : (1 <= ltv_score x <= 5)%Z.
Proof. unfold ltv_score. split_chain; lia. Qed.

Lemma dscr_score_bounds (x : Qc) (m : MetricsDict) :
  (0 <= dscr_score x m <= 5)%Z.
Proof. unfold dscr_score. cbv zeta. split_chain; lia. Qed.

Lemma hold_score_bounds (x : Z) : (1 <= hold_score x <= 5)%Z.
Proof. unfold hold_score. split_chain; lia. Qed.

(** The score is the sum of five sub-scores, each within its cap
    (Returns 30, Value Creation 20, Cash Flow Strength 20, Market
    Positioning 15, Risk Profile 15), listed in that order in the
    breakdown; the total is therefore at most 100. *)
Theorem deal_score_within_caps
    (metrics : MetricsDict) (property_data : PropertyDict) :
  exists (returns value cashflow market risk : Z) (grade rating : string),
    calculate_deal_score metrics property_data
    = ((returns + value + cashflow + market + risk)%Z,
       [ ("Returns (IRR/EM)"%string, {| score := returns; max := 30 |});
         ("Value Creation (NPV)"%string, {| score := value; max := 20 |});
         ("Cash Flow Strength"%string, {| score := cashflow; max := 20 |});
         ("Market Positioning"%string, {| score := market; max := 15 |});
         ("Risk Profile"%string, {| score := risk; max := 15 |}) ],
       grade, rating) /\
    (0 <= returns <= 30)%Z /\ (0 <= value <= 20)%Z /\
    (0 <= cashflow <= 20)%Z /\ (0 <= market <= 15)%Z /\
    (0 <= risk <= 15)%Z /\
    (0 <= returns + value + cashflow + market + risk <= 100)%Z.
Proof.
  unfold calculate_deal_score. cbv zeta.
  destruct (grade_and_rating _) as [grade rating].
  do 7 eexists. split; [reflexivity|].
  pose proof (irr_score_bounds (get (m_irr metrics) 0)).
  pose proof (em_score_bounds (get (m_equity_multiple metrics) 1)).
  pose proof (coc1_score_bounds (get (m_year1_coc metrics) 0)).
  pose proof (coc_avg_score_bounds (get (m_avg_coc metrics) 0)).
  pose proof (ltv_score_bounds (get (p_loan_to_value property_data) 0)).
  pose proof (dscr_score_bounds (get (p_loan_to_value property_data) 0)
                metrics).
  pose proof (hold_score_bounds (get (p_holding_period property_data) 10%Z)).
  match goal with
  | |- context [value_score ?x] => pose proof (value_score_bounds x)
  end.
  match goal with
  | |- context [cap_score ?x] => pose proof (cap_score_bounds x)
  end.
  match goal with
  | |- context [entry_score ?x ?y] => pose proof (entry_score_bounds x y)
  end.
  lia.
Qed.

Lemma Qcleb_gt (x y : Qc) : (x <=? y) = false <-> y < x.
Proof.
  unfold Qcleb, Qclt. split; intros H.
  - apply Qnot_le_lt. intros Hle. apply Qle_bool_iff in Hle. congruence.
  - apply not_true_is_false. intros Hle. apply Qle_bool_iff in Hle.
    exact (Qlt_not_le _ _ H Hle).
Qed.

(** Integer constants as fractions, for linear arithmetic. *)
Ltac q_consts :=
  repeat match goal with
         | H : context [this (ofZ ?k)] |- _ =>
             let v := eval vm_compute in (this (ofZ k)) in
             change (this (ofZ k)) with v in H
         end.

(** The IRR breakpoints are inclusive on the lower bound of each
    bucket: 20 and above scores 20, from 17 up to but not including 20
    scores 18, and so on down to 2 below 8. *)
Theorem irr_score_buckets (irr : Qc) :
  (20 <= irr -> irr_score irr = 20%Z) /\
  (17 <= irr -> irr < 20 -> irr_score irr = 18%Z) /\
  (15 <= irr -> irr < 17 -> irr_score irr = 16%Z) /\
  (12 <= irr -> irr < 15 -> irr_score irr = 13%Z) /\
  (10 <= irr -> irr < 12 -> irr_score irr = 10%Z) /\
  (8 <= irr -> irr < 10 -> irr_score irr = 6%Z) /\
  (irr < 8 -> irr_score irr = 2%Z).
Proof.
  unfold irr_score.
  repeat split; intros;
    repeat match goal with
           | |- context [?a <=? irr] => destruct (a <=? irr) eqn:?
           end;
    try reflexivity; exfalso;
    repeat match goal with
           | H : (_ <=? _) = true |- _ => apply Qcleb_le in H
           | H : (_ <=? _) = false |- _ => apply Qcleb_gt in H
           end;
    unfold Qcle, Qclt in *; q_consts; lra.
Qed.

Lemma irr_score_boundary_examples :
  irr_score 20 = 20%Z /\ irr_score (dec 19999 1000) = 18%Z.
Proof.
  split.
  - apply (proj1 (irr_score_buckets 20)). unfold Qcle, Qle. simpl. lia.
  - apply (proj1 (proj2 (irr_score_buckets (dec 19999 1000)))).
    + unfold Qcle, Qle. simpl. lia.
    + unfold Qclt, Qlt. simpl. lia.
Defined.

(** * Interest and principal of a year *)

Lemma ofZ_add (a b : Z) : ofZ (a + b) = ofZ a + ofZ b.
Proof.
  apply Qc_is_canon. qc_to_q. rewrite inject_Z_plus. reflexivity.
Qed.

Lemma ofZ_succ (k : nat) : ofZ (Z.of_nat (S k)) = ofZ (Z.of_nat k) + 1.
Proof.
  rewrite Nat2Z.inj_succ. unfold Z.succ. rewrite ofZ_add.
  reflexivity.
Qed.

Section YearSplit.

Variables interest_rate monthly_payment : Qc.

(** Every month pays [monthly_payment], split into interest and
    principal, and the principal comes off the balance. *)
Lemma month_iter_split (k : nat) (s : MonthState) :
  interest_expense (Nat.iter k (month_step interest_rate monthly_payment) s)
  + principal_paid_this_year
      (Nat.iter k (month_step interest_rate monthly_payment) s)
  = interest_expense s + principal_paid_this_year s
    + Z.of_nat k * monthly_payment /\
  temp_balance (Nat.iter k (month_step interest_rate monthly_payment) s)
  + principal_paid_this_year
      (Nat.iter k (month_step interest_rate monthly_payment) s)
  = temp_balance s + principal_paid_this_year s.
Proof.
  induction k as [|k [IH1 IH2]].
  - cbn [Nat.iter nat_rect Z.of_nat]. split; [|reflexivity].
    change (ofZ 0) with (0 : Qc). ring.
  - rewrite Nat.iter_succ, ofZ_succ.
    set (s' := Nat.iter k (month_step interest_rate monthly_payment) s) in *.
    unfold month_step.
    cbn [interest_expense principal_paid_this_year temp_balance].
    split.
    + transitivity
        (interest_expense s' + principal_paid_this_year s' + monthly_payment).
      * ring.
      * rewrite IH1. ring.
    + rewrite <- IH2. ring.
Qed.

End YearSplit.

(** The interest expense and the principal that [calculate_cash_flows]
    books for a year add up to the debt service that
    [calculate_debt_service] reports for that year, and the balance
    carried forward is the balance less the principal.  The rate is
    positive; in an interest-only year the balance is still the
    original loan amount. *)
Theorem year_interest_and_principal_make_debt_service
    (loan_amount interest_rate : Qc) (amortization io_period year : Z)
    (b : Qc) :
  0 < interest_rate ->
  ((year <= io_period)%Z -> b = loan_amount) ->
  exists st ds,
    amortize_year loan_amount interest_rate amortization io_period year b
    = Ok st /\
    calculate_debt_service year loan_amount interest_rate amortization
      io_period = Ok ds /\
    interest_expense st + principal_paid_this_year st = ds /\
    temp_balance st = b - principal_paid_this_year st.
Proof.
  intros Hrate Hio.
  unfold amortize_year, calculate_debt_service.
  destruct (loan_amount =? 0) eqn:Hloan.
  - rewrite orb_true_r. apply Qceqb_eq in Hloan. subst loan_amount.
    do 2 eexists. split; [reflexivity|]. split; [reflexivity|].
    cbn [interest_expense principal_paid_this_year temp_balance].
    split; ring.
  - rewrite orb_false_r.
    destruct (year <=? io_period)%Z eqn:Hyear.
    + apply Z.leb_le in Hyear. rewrite (Hio Hyear).
      do 2 eexists. split; [reflexivity|]. split; [reflexivity|].
      cbn [interest_expense principal_paid_this_year temp_balance].
      split; ring.
    + destruct (io_period <? amortization)%Z eqn:Ham.
      * apply Z.ltb_lt in Ham.
        replace ((amortization - io_period) * 12 <=? 0)%Z with false
          by (symmetry; apply Z.leb_gt; lia).
        rewrite (cf_monthly_rate_pos interest_rate Hrate).
        rewrite div_ok
          by (apply (annuity_denominator_nonzero interest_rate Hrate); lia).
        cbn [bind]. do 2 eexists. split; [reflexivity|]. split; [reflexivity|].
        match goal with
        | |- context [Nat.iter 12 (month_step _ ?pmt) ?s] =>
            destruct (month_iter_split interest_rate pmt 12 s) as [H1 H2];
            generalize dependent (Nat.iter 12 (month_step interest_rate pmt) s);
            generalize dependent pmt
        end.
        intros pmt st H1 H2.
        cbn [interest_expense principal_paid_this_year temp_balance] in H1, H2.
        change (Z.of_nat 12) with 12%Z in H1.
        split.
        -- rewrite H1. ring.
        -- transitivity
             (temp_balance st + principal_paid_this_year st
              - principal_paid_this_year st); [ring|].
           rewrite H2. ring.
      * apply Z.ltb_ge in Ham.
        replace ((amortization - io_period) * 12 <=? 0)%Z with true
          by (symmetry; apply Z.leb_le; lia).
        do 2 eexists. split; [reflexivity|]. split; [reflexivity|].
        cbn [interest_expense principal_paid_this_year temp_balance].
        split; ring.
Qed.

Lemma year_interest_and_principal_example :
  exists st ds,
    amortize_year 700000 12 3 1 2 700000 = Ok st /\
    calculate_debt_service 2 700000 12 3 1 = Ok ds /\
    interest_expense st + principal_paid_this_year st = ds /\
    temp_balance st = 700000 - principal_paid_this_year st.
Proof.
  apply year_interest_and_principal_make_debt_service.
  - unfold Qclt, Qlt. simpl. lia.
  - lia.
Defined.

(** * When the valuation completes *)

Lemma Qcpower_neq_0 (x : Qc) (n : nat) : x <> 0 -> x ^ n <> 0.
Proof.
  intros Hx. induction n as [|n IH].
  - discriminate.
  - cbn [Qcpower]. intros Hz. apply Qcmult_integral in Hz.
    destruct Hz; auto.
Qed.

Lemma pow_neq_0 (x : Qc) (n : Z) : x <> 0 -> (0 <= n)%Z -> pow x n <> 0.
Proof.
  intros Hx Hn. rewrite pow_nonneg_exp by exact Hn.
  apply Qcpower_neq_0, Hx.
Qed.

Lemma fold_left_plus (l : list Qc) (a : Qc) :
  fold_left Qcplus l a = a + fold_left Qcplus l 0.
Proof.
  revert a. induction l as [|x l IH]; intros a; cbn [fold_left].
  - ring.
  - rewrite (IH (a + x)), (IH (0 + x)). ring.
Qed.

Lemma sum_cons (a : Qc) (l : list Qc) : sum (a :: l) = a + sum l.
Proof.
  unfold sum. cbn [fold_left]. rewrite fold_left_plus. ring.
Qed.

(** [l[-1] += x] on a list that is not empty: the length stays, the
    total grows by [x]. *)
Lemma add_to_last_defined (a : Qc) (l : list Qc) (x : Qc) :
  exists l',
    add_to_last (a :: l) x = Ok l' /\
    List.length l' = S (List.length l) /\
    sum l' = sum (a :: l) + x.
Proof.
  revert a. induction l as [|b l IH]; intros a.
  - exists [a + x]. split; [reflexivity|]. split; [reflexivity|].
    rewrite !sum_cons. unfold sum. cbn [fold_left]. ring.
  - destruct (IH b) as [l' [Hl' [Hlen Hsum]]].
    exists (a :: l'). split.
    + change (add_to_last (a :: b :: l) x)
        with (tl' <- add_to_last (b :: l) x ;; Ok (a :: tl')).
      rewrite Hl'. reflexivity.
    + split.
      * cbn [List.length]. now rewrite Hlen.
      * rewrite (sum_cons a l'), Hsum, (sum_cons a (b :: l)). ring.
Qed.

Lemma npv_from_defined (rate : Qc) (values : list Qc) :
  1 + rate <> 0 ->
  forall t : Z, (0 <= t)%Z -> exists x, npv_from rate t values = Ok x.
Proof.
  intros Hrate. induction values as [|v tl IH]; intros t Ht.
  - exists 0. reflexivity.
  - cbn [npv_from]. rewrite div_ok by (apply pow_neq_0; assumption).
    cbn [bind]. destruct (IH (t + 1)%Z ltac:(lia)) as [x Hx].
    rewrite Hx. cbn [bind]. eauto.
Qed.

Lemma final_year_noi_defined (rows : list CashFlowRow) :
  rows <> [] -> exists x, final_year_noi rows = Ok x.
Proof.
  intros Hrows. unfold final_year_noi.
  destruct (rev rows) as [|r l] eqn:Hrev.
  - apply (f_equal (@rev _)) in Hrev. rewrite rev_involutive in Hrev.
    contradiction.
  - eauto.
Qed.

Lemma sale_price_defined (final_noi rent_growth exit_cap_rate : Qc) :
  exists x, sale_price final_noi rent_growth exit_cap_rate = Ok x.
Proof.
  unfold sale_price. destruct (0 <? exit_cap_rate) eqn:Hcap; [|eauto].
  apply Qcltb_lt, Qclt_0_neq in Hcap.
  rewrite div_ok by (apply percent_neq_0; exact Hcap). eauto.
Qed.

Lemma equity_multiple_defined
    (column : list Qc) (net_sale_proceeds equity_required : Qc) :
  exists x,
    equity_multiple column net_sale_proceeds equity_required = Ok x /\
    (0 < equity_required ->
     x = (sum column + net_sale_proceeds) / equity_required).
Proof.
  unfold equity_multiple. destruct (0 <? equity_required) eqn:Heq.
  - apply Qcltb_lt in Heq. rewrite div_ok by (apply Qclt_0_neq; exact Heq).
    eauto.
  - exists 0. split; [reflexivity|]. intros Hpos.
    apply Qcltb_lt in Hpos. congruence.
Qed.

Section Financed.

Variables loan_amount interest_rate : Qc.
Variables amortization io_period : Z.

(** Either the rate is positive or nothing is borrowed. *)
Hypothesis financed : 0 < interest_rate \/ loan_amount = 0.

Lemma debt_service_total (year : Z) :
  exists ds,
    calculate_debt_service year loan_amount interest_rate amortization
      io_period = Ok ds.
Proof.
  destruct financed as [Hrate|Hloan].
  - apply debt_service_defined, Hrate.
  - unfold calculate_debt_service. apply Qceqb_eq in Hloan.
    rewrite Hloan, orb_true_r. eauto.
Qed.

Lemma amortize_year_total (year : Z) (b : Qc) :
  exists st,
    amortize_year loan_amount interest_rate amortization io_period year b
    = Ok st.
Proof.
  unfold amortize_year.
  destruct (loan_amount =? 0) eqn:Hloan; [eauto|].
  destruct (year <=? io_period)%Z; [eauto|].
  destruct (io_period <? amortization)%Z eqn:Ham; [|eauto].
  apply Z.ltb_lt in Ham.
  destruct financed as [Hrate|Hzero];
    [|apply Qceqb_neq in Hloan; contradiction].
  rewrite (cf_monthly_rate_pos interest_rate Hrate).
  rewrite div_ok
    by (apply (annuity_denominator_nonzero interest_rate Hrate); lia).
  cbn [bind]. eauto.
Qed.

Lemma remaining_balance_total (holding_period : Z) :
  exists x,
    calc_remaining_balance loan_amount interest_rate amortization
      io_period holding_period = Ok x.
Proof.
  unfold calc_remaining_balance.
  destruct (loan_amount =? 0) eqn:Hloan; [rewrite orb_true_r; eauto|].
  rewrite orb_false_r.
  destruct (holding_period <=? io_period)%Z eqn:Hhold; [eauto|].
  apply Z.leb_gt in Hhold.
  destruct ((amortization - holding_period) * 12 <=? 0)%Z eqn:Hrem;
    [eauto|].
  apply Z.leb_gt in Hrem.
  destruct financed as [Hrate|Hzero];
    [|apply Qceqb_neq in Hloan; contradiction].
  rewrite div_ok
    by (apply (annuity_denominator_nonzero interest_rate Hrate); lia).
  cbn [bind].
  rewrite div_ok.
  - eauto.
  - intros Hz. apply Qcmult_integral in Hz. destruct Hz as [Hz|Hz].
    + exact (Qclt_0_neq _ (monthly_rate_pos interest_rate Hrate) Hz).
    + revert Hz. apply (pow_growth_nonzero interest_rate Hrate). lia.
Qed.

End Financed.

Section ProjectionTotal.

Variable property_type : PropertyType.
Variable unit_rents : list Qc.
Variables annual_rent_total rent_growth vacancy : Qc.
Variables opex_per_unit_or_sf opex_growth : Qc.
Variable units_or_sf : Z.
Variables management_fee capex_per_unit_or_sf : Qc.
Variables loan_amount interest_rate : Qc.
Variables amortization io_period : Z.
Variables equity_required tax_rate annual_depreciation : Qc.

Local Abbreviation year_body :=
  (cash_flow_year property_type unit_rents annual_rent_total rent_growth
     vacancy opex_per_unit_or_sf opex_growth units_or_sf management_fee
     capex_per_unit_or_sf loan_amount interest_rate amortization io_period
     equity_required tax_rate annual_depreciation).

Local Abbreviation year_loop :=
  (cash_flow_loop property_type unit_rents annual_rent_total rent_growth
     vacancy opex_per_unit_or_sf opex_growth units_or_sf management_fee
     capex_per_unit_or_sf loan_amount interest_rate amortization io_period
     equity_required tax_rate annual_depreciation).

Hypothesis financed : 0 < interest_rate \/ loan_amount = 0.

Lemma cash_flow_year_total (year : Z) (b : Qc) :
  exists rb, year_body year b = Ok rb.
Proof.
  unfold cash_flow_year.
  destruct (debt_service_total loan_amount interest_rate amortization
              io_period financed year) as [ds Hds].
  destruct (amortize_year_total loan_amount interest_rate amortization
              io_period financed year b) as [st Hst].
  rewrite Hds. cbn [bind]. rewrite Hst. cbn [bind].
  destruct (0 <? equity_required) eqn:Heq.
  - apply Qcltb_lt, Qclt_0_neq in Heq.
    rewrite div_ok by exact Heq. cbn [bind]. eauto.
  - cbn [bind]. eauto.
Qed.

Lemma cash_flow_loop_total (years : list Z) :
  forall b : Qc,
    exists tr,
      year_loop years b = Ok tr /\ List.length tr = List.length years.
Proof.
  induction years as [|year rest IH]; intros b.
  - exists []. split; reflexivity.
  - cbn [cash_flow_loop].
    destruct (cash_flow_year_total year b) as [rb Hrb].
    rewrite Hrb. cbn [bind].
    destruct (IH (snd rb)) as [tr [Htr Hlen]].
    rewrite Htr. cbn [bind]. exists (rb :: tr). split; [reflexivity|].
    cbn [List.length]. now rewrite Hlen.
Qed.

End ProjectionTotal.

Lemma range_length (a b : Z) : List.length (range a b) = Z.to_nat (b - a).
Proof. unfold range. now rewrite length_map, length_seq. Qed.

(** The cash-flow table of the script has one row per year of the
    holding period. *)
Lemma cf_df_defined (i : Inputs) :
  0 < interest_rate i \/ loan_amount i = 0 ->
  exists rows,
    cf_df i = Ok rows /\
    List.length rows = Z.to_nat (holding_period i).
Proof.
  intros Hfin. unfold cf_df, calculate_cash_flows, cash_flow_trace.
  destruct (cash_flow_loop_total (property_type i) (unit_rents i)
              (annual_rent_total i) (rent_growth i) (vacancy i)
              (opex_per_unit_or_sf i) (opex_growth i) (units_or_sf i)
              (management_fee i) (capex_per_unit_or_sf i) (loan_amount i)
              (interest_rate i) (amortization i) (io_period i)
              (equity_required i) (tax_rate i) (annual_depreciation i)
              Hfin (range 1 (holding_period i + 1)) (loan_amount i))
    as [tr [Htr Hlen]].
  rewrite Htr. cbn [bind]. eexists. split; [reflexivity|].
  rewrite length_map, Hlen, range_length. f_equal. lia.
Qed.

Lemma going_in_cap_defined (i : Inputs) : exists x, going_in_cap i = Ok x.
Proof.
  unfold going_in_cap. destruct (0 <? purchase_price i) eqn:Hp; [|eauto].
  apply Qcltb_lt, Qclt_0_neq in Hp. rewrite div_ok by exact Hp.
  cbn [bind]. eauto.
Qed.

Lemma returns_column_length (i : Inputs) (rows : list CashFlowRow) :
  List.length (returns_column i rows) = List.length rows.
Proof.
  unfold returns_column. destruct (0 <? tax_rate i); apply length_map.
Qed.

(** The "Calculations" section runs to the end whenever the property
    has a size, the holding period has at least one year, the loan (if
    any) bears a positive rate and the discount rate is not -100
    percent, whatever the IRR solver does.  The table has one row per
    year, the cash-flow series one more entry, the net sale proceeds
    are the sale price less costs and loan balance, and with positive
    equity the equity multiple is one plus the total of the cash-flow
    series per unit of equity. *)
Theorem valuation_defined `{NumpyFinancial} (i : Inputs) :
  units_or_sf i <> 0%Z ->
  (1 <= holding_period i)%Z ->
  0 < interest_rate i \/ loan_amount i = 0 ->
  1 + discount_rate i / 100 <> 0 ->
  exists v,
    compute_valuation i = Ok v /\
    List.length (val_cf_df v) = Z.to_nat (holding_period i) /\
    List.length (val_cash_flows v) = S (Z.to_nat (holding_period i)) /\
    val_net_sale_proceeds v
    = val_sale_price v - val_sale_costs v - val_remaining_balance v /\
    (0 < equity_required i ->
     val_equity_multiple v = 1 + sum (val_cash_flows v) / equity_required i).
Proof.
  intros Hunits Hhold Hfin Hdisc. unfold compute_valuation.
  unfold price_per_unit_or_sf.
  rewrite div_ok by (apply ofZ_neq_0; exact Hunits). cbn [bind].
  destruct (going_in_cap_defined i) as [cap Hcap]. rewrite Hcap. cbn [bind].
  destruct (cf_df_defined i Hfin) as [rows [Hrows Hlen]].
  rewrite Hrows. cbn [bind].
  assert (Hne : rows <> []).
  { intros ->. cbn [List.length] in Hlen. lia. }
  destruct (final_year_noi_defined rows Hne) as [noi Hnoi].
  rewrite Hnoi. cbn [bind].
  destruct (sale_price_defined noi (rent_growth i) (exit_cap_rate i))
    as [sale Hsale].
  rewrite Hsale. cbn [bind].
  destruct (remaining_balance_total (loan_amount i) (interest_rate i)
              (amortization i) (io_period i) Hfin (holding_period i))
    as [bal Hbal].
  rewrite Hbal. cbn [bind].
  set (net := sale - sale * (selling_costs i / 100) - bal).
  destruct (add_to_last_defined (- equity_required i) (returns_column i rows)
              net) as [flows [Hflows [Hflen Hfsum]]].
  rewrite Hflows. cbn [bind].
  destruct (npv_from_defined (discount_rate i / 100) flows Hdisc 0
              ltac:(lia)) as [npv Hnpv].
  unfold npf_npv. rewrite Hnpv. cbn [bind].
  destruct (equity_multiple_defined (returns_column i rows) net
              (equity_required i)) as [em [Hem Hemval]].
  rewrite Hem. cbn [bind].
  rewrite div_ok.
  2:{ apply ofZ_neq_0. destruct rows; [contradiction|].
      cbn [List.length]. lia. }
  cbn [bind]. eexists. split; [reflexivity|].
  cbn [val_cf_df val_cash_flows val_net_sale_proceeds val_sale_price
       val_sale_costs val_remaining_balance val_equity_multiple].
  split; [exact Hlen|]. split.
  - now rewrite Hflen, returns_column_length, Hlen.
  - split; [reflexivity|]. intros Heq.
    rewrite (Hemval Heq), Hfsum, sum_cons.
    field. apply Qclt_0_neq, Heq.
Qed.

Lemma valuation_defined_example :
  exists v,
    compute_valuation (H := irr_not_found) short_loan = Ok v /\
    List.length (val_cf_df v) = Z.to_nat (holding_period short_loan) /\
    List.length (val_cash_flows v) = S (Z.to_nat (holding_period short_loan)) /\
    val_net_sale_proceeds v
    = val_sale_price v - val_sale_costs v - val_remaining_balance v /\
    (0 < equity_required short_loan ->
     val_equity_multiple v
     = 1 + sum (val_cash_flows v) / equity_required short_loan).
Proof.
  apply (valuation_defined (H := irr_not_found) short_loan).
  - cbn. lia.
  - cbn. lia.
  - left. unfold Qclt, Qlt. simpl. lia.
  - intros Hz. vm_compute in Hz. discriminate Hz.
Defined.

(** * Score, grade and recommendation together *)

(** The breakdown that [calculate_deal_score] builds has the caps 30,
    20, 20, 15 and 15. *)
Lemma deal_score_caps_nonzero
    (metrics : MetricsDict) (property_data : PropertyDict)
    (total_score : Z) (sb : ScoreBreakdown) (grade rating : string) :
  calculate_deal_score metrics property_data
  = (total_score, sb, grade, rating) ->
  caps_nonzero sb.
Proof.
  unfold calculate_deal_score.
  match goal with
  | |- context [grade_and_rating ?t] => destruct (grade_and_rating t)
  end.
  intros Heq. injection Heq as _ <- _ _.
  intros e He. cbn [In] in He.
  repeat (destruct He as [<-|He]; [cbn [snd max]; lia|]).
  destruct He.
Qed.

(** The total score and the grade of [calculate_deal_score] belong
    together. *)
Lemma deal_score_grade
    (metrics : MetricsDict) (property_data : PropertyDict)
    (total_score : Z) (sb : ScoreBreakdown) (grade rating : string) :
  calculate_deal_score metrics property_data
  = (total_score, sb, grade, rating) ->
  grade = fst (grade_and_rating total_score).
Proof.
  unfold calculate_deal_score.
  match goal with
  | |- context [grade_and_rating ?t] =>
      destruct (grade_and_rating t) as [g r] eqn:Hg
  end.
  intros Heq. injection Heq as <- _ <- _. now rewrite Hg.
Qed.

(** With non-zero caps and an IRR among the metrics the body of
    [generate_recommendation] runs to the end; action and confidence
    follow the total score. *)
Lemma recommendation_body_defined
    (total_score : Z) (sb : ScoreBreakdown) (metrics : MetricsDict)
    (property_data : PropertyDict) (irr : Qc) :
  caps_nonzero sb ->
  m_irr metrics = Some irr ->
  exists r,
    recommendation_body total_score sb metrics property_data = Ok r /\
    action r
    = (if (85 <=? total_score)%Z then STRONG_BUY
       else if (75 <=? total_score)%Z then BUY
       else if (65 <=? total_score)%Z then HOLD
       else if (55 <=? total_score)%Z then PASS
       else HARD_PASS) /\
    confidence r
    = (if (85 <=? total_score)%Z then HIGH
       else if (70 <=? total_score)%Z then MODERATE
       else LOW).
Proof.
  intros Hcaps Hirr. unfold recommendation_body.
  rewrite (category_strengths_filter sb Hcaps), metric_strengths_flags,
    (category_risks_filter sb Hcaps),
    (metric_risks_flags irr metrics property_data Hirr).
  destruct (85 <=? total_score)%Z, (75 <=? total_score)%Z,
    (65 <=? total_score)%Z, (55 <=? total_score)%Z;
    cbn [bind]; eexists; (split; [reflexivity|]); split; reflexivity.
Qed.

(** Action and confidence against the letter grade, threshold by
    threshold. *)
Lemma action_matches_grade (total_score : Z) :
  match
    (if (85 <=? total_score)%Z then STRONG_BUY
     else if (75 <=? total_score)%Z then BUY
     else if (65 <=? total_score)%Z then HOLD
     else if (55 <=? total_score)%Z then PASS
     else HARD_PASS)
  with
  | STRONG_BUY =>
      In (fst (grade_and_rating total_score))
         ["A+"%string; "A"%string; "A-"%string]
  | BUY => In (fst (grade_and_rating total_score)) ["B+"%string; "B"%string]
  | HOLD => In (fst (grade_and_rating total_score)) ["B-"%string; "C+"%string]
  | PASS => In (fst (grade_and_rating total_score)) ["C"%string; "C-"%string]
  | HARD_PASS => fst (grade_and_rating total_score) = "F"%string
  | REVIEW_NEEDED => False
  end.
Proof.
  unfold grade_and_rating.
  repeat match goal with
         | |- context [(?a <=? total_score)%Z] =>
             destruct (Z.leb_spec a total_score); try lia
         end;
    cbn [fst In]; auto 6.
Qed.

Lemma confidence_matches_grade (total_score : Z) :
  match
    (if (85 <=? total_score)%Z then HIGH
     else if (70 <=? total_score)%Z then MODERATE
     else LOW)
  with
  | HIGH =>
      In (fst (grade_and_rating total_score))
         ["A+"%string; "A"%string; "A-"%string]
  | MODERATE =>
      In (fst (grade_and_rating total_score))
         ["B+"%string; "B"%string; "B-"%string]
  | LOW =>
      In (fst (grade_and_rating total_score))
         ["C+"%string; "C"%string; "C-"%string; "F"%string]
  | NOT_AVAILABLE => False
  end.
Proof.
  unfold grade_and_rating.
  repeat match goal with
         | |- context [(?a <=? total_score)%Z] =>
             destruct (Z.leb_spec a total_score); try lia
         end;
    cbn [fst In]; auto 6.
Qed.

(** Scoring a deal and generating its recommendation, as the script
    does in sequence: when the metrics carry an IRR the recommendation
    is never the "REVIEW NEEDED" fallback, and its action and
    confidence agree with the letter grade.  STRONG BUY goes with the
    grades A+, A, A-; BUY with B+ and B; HOLD with B- and C+; PASS with
    C and C-; HARD PASS with F.  Confidence is HIGH for the A grades,
    MODERATE for the B grades, LOW from C+ down. *)
Theorem recommendation_agrees_with_grade
    (metrics : MetricsDict) (property_data : PropertyDict) (irr : Qc) :
  m_irr metrics = Some irr ->
  let '(total_score, score_breakdown, grade, rating) :=
    calculate_deal_score metrics property_data in
  let r := score_and_recommend metrics property_data in
  match action r with
  | STRONG_BUY => In grade ["A+"%string; "A"%string; "A-"%string]
  | BUY => In grade ["B+"%string; "B"%string]
  | HOLD => In grade ["B-"%string; "C+"%string]
  | PASS => In grade ["C"%string; "C-"%string]
  | HARD_PASS => grade = "F"%string
  | REVIEW_NEEDED => False
  end /\
  match confidence r with
  | HIGH => In grade ["A+"%string; "A"%string; "A-"%string]
  | MODERATE => In grade ["B+"%string; "B"%string; "B-"%string]
  | LOW => In grade ["C+"%string; "C"%string; "C-"%string; "F"%string]
  | NOT_AVAILABLE => False
  end.
Proof.
  intros Hirr. unfold score_and_recommend.
  destruct (calculate_deal_score metrics property_data)
    as [[[total_score sb] grade] rating] eqn:Hscore.
  pose proof (deal_score_caps_nonzero _ _ _ _ _ _ Hscore) as Hcaps.
  pose proof (deal_score_grade _ _ _ _ _ _ Hscore) as Hgrade.
  destruct (recommendation_body_defined total_score sb metrics property_data
              irr Hcaps Hirr) as [r [Hbody [Hact Hconf]]].
  unfold generate_recommendation. rewrite Hbody.
  cbn [try_except]. cbv zeta. rewrite Hact, Hconf, Hgrade.
  split; [apply action_matches_grade|apply confidence_matches_grade].
Qed.

Lemma recommendation_agrees_with_grade_example :
  let '(total_score, score_breakdown, grade, rating) :=
    calculate_deal_score strong_deal_metrics strong_deal_property in
  let r := score_and_recommend strong_deal_metrics strong_deal_property in
  match action r with
  | STRONG_BUY => In grade ["A+"%string; "A"%string; "A-"%string]
  | BUY => In grade ["B+"%string; "B"%string]
  | HOLD => In grade ["B-"%string; "C+"%string]
  | PASS => In grade ["C"%string; "C-"%string]
  | HARD_PASS => grade = "F"%string
  | REVIEW_NEEDED => False
  end /\
  match confidence r with
  | HIGH => In grade ["A+"%string; "A"%string; "A-"%string]
  | MODERATE => In grade ["B+"%string; "B"%string; "B-"%string]
  | LOW => In grade ["C+"%string; "C"%string; "C-"%string; "F"%string]
  | NOT_AVAILABLE => False
  end.
Proof.
  apply (recommendation_agrees_with_grade strong_deal_metrics
           strong_deal_property 20).
  reflexivity.
Defined.

(** The first-year coverage ratio of the script never divides by
    zero. *)
Lemma metrics_for_score_defined (cap_rate : Qc) (v : Valuation) :
  exists metrics,
    metrics_for_score cap_rate v = Ok metrics /\
    m_irr metrics = Some (val_irr v).
Proof.
  unfold metrics_for_score.
  destruct (val_cf_df v) as [|row rows].
  - cbn [bind]. eexists. split; reflexivity.
  - destruct (0 <? Debt_Service row) eqn:Hds.
    + apply Qcltb_lt, Qclt_0_neq in Hds. rewrite div_ok by exact Hds.
      cbn [bind]. eexists. split; reflexivity.
    + rewrite div_ok by discriminate.
      cbn [bind]. eexists. split; reflexivity.
Qed.

Lemma deal_score_bounds
    (metrics : MetricsDict) (property_data : PropertyDict)
    (total_score : Z) (sb : ScoreBreakdown) (grade rating : string) :
  calculate_deal_score metrics property_data
  = (total_score, sb, grade, rating) ->
  (9 <= total_score <= 100)%Z.
Proof.
  unfold calculate_deal_score.
  match goal with
  | |- context [grade_and_rating ?t] => destruct (grade_and_rating t)
  end.
  intros Heq. injection Heq as <- _ _ _.
  pose proof (irr_score_bounds (get (m_irr metrics) 0)).
  pose proof (em_score_bounds (get (m_equity_multiple metrics) 1)).
  pose proof (coc1_score_bounds (get (m_year1_coc metrics) 0)).
  pose proof (coc_avg_score_bounds (get (m_avg_coc metrics) 0)).
  pose proof (ltv_score_bounds (get (p_loan_to_value property_data) 0)).
  pose proof (dscr_score_bounds (get (p_loan_to_value property_data) 0)
                metrics).
  pose proof (hold_score_bounds (get (p_holding_period property_data) 10%Z)).
  match goal with
  | |- context [value_score ?x] => pose proof (value_score_bounds x)
  end.
  match goal with
  | |- context [cap_score ?x] => pose proof (cap_score_bounds x)
  end.
  match goal with
  | |- context [entry_score ?x ?y] => pose proof (entry_score_bounds x y)
  end.
  lia.
Qed.

(** Whenever the "Calculations" section has completed, the section
    "Deal Score & Recommendation" completes as well: the coverage
    ratio does not divide by zero, the total score lies between 9 and
    100, and the recommendation shown is a real one, never the
    "REVIEW NEEDED" fallback with confidence "N/A". *)
Theorem deal_score_section_defined `{NumpyFinancial}
    (i : Inputs) (v : Valuation) :
  compute_valuation i = Ok v ->
  exists total_score score_breakdown grade rating r,
    deal_score_section i
    = Ok (total_score, score_breakdown, grade, rating, r) /\
    (9 <= total_score <= 100)%Z /\
    grade = fst (grade_and_rating total_score) /\
    action r <> REVIEW_NEEDED /\
    confidence r <> NOT_AVAILABLE.
Proof.
  intros Hval. unfold deal_score_section. rewrite Hval. cbn [bind].
  destruct (going_in_cap_defined i) as [cap Hcap]. rewrite Hcap. cbn [bind].
  destruct (metrics_for_score_defined cap v) as [metrics [Hm Hirr]].
  rewrite Hm. cbn [bind].
  destruct (calculate_deal_score metrics (property_for_score i))
    as [[[total_score sb] grade] rating] eqn:Hscore.
  pose proof (deal_score_caps_nonzero _ _ _ _ _ _ Hscore) as Hcaps.
  destruct (recommendation_body_defined total_score sb metrics
              (property_for_score i) (val_irr v) Hcaps Hirr)
    as [r [Hbody [Hact Hconf]]].
  exists total_score, sb, grade, rating, r.
  unfold generate_recommendation. rewrite Hbody. cbn [try_except].
  split; [reflexivity|]. split; [exact (deal_score_bounds _ _ _ _ _ _ Hscore)|].
  split; [exact (deal_score_grade _ _ _ _ _ _ Hscore)|].
  rewrite Hact, Hconf.
  split;
    destruct (85 <=? total_score)%Z, (75 <=? total_score)%Z,
      (70 <=? total_score)%Z, (65 <=? total_score)%Z,
      (55 <=? total_score)%Z; discriminate.
Qed.

Lemma deal_score_section_example :
  exists total_score score_breakdown grade rating r,
    deal_score_section (H := irr_not_found) all_cash
    = Ok (total_score, score_breakdown, grade, rating, r) /\
    (9 <= total_score <= 100)%Z /\
    grade = fst (grade_and_rating total_score) /\
    action r <> REVIEW_NEEDED /\
    confidence r <> NOT_AVAILABLE.
Proof.
  destruct (compute_valuation (H := irr_not_found) all_cash) as [v|e] eqn:Hv.
  - exact (deal_score_section_defined (H := irr_not_found) all_cash v Hv).
  - exfalso. revert Hv. vm_compute. discriminate.
Defined.

(** * The sensitivity level of a flat sweep *)

(** A loop body that does not read the loop variable yields the same
    value at every point. *)
Lemma map_result_repeat {A B : Type} (f : A -> result B) (c : B)
    (xs : list A) :
  (forall x, f x = Ok c) ->
  map_result f xs = Ok (repeat c (List.length xs)).
Proof.
  intros Hf. induction xs as [|x xs IH].
  - reflexivity.
  - cbn [map_result List.length repeat]. rewrite Hf, IH. reflexivity.
Qed.

Lemma map_result_constant {A B : Type} (f : A -> result B)
    (x : A) (xs : list A) (ys : list B) :
  (forall a b, f a = f b) ->
  map_result f (x :: xs) = Ok ys ->
  exists c, ys = repeat c (S (List.length xs)).
Proof.
  intros Hconst Hys. cbn [map_result] in Hys.
  destruct (f x) as [c|e] eqn:Hc; [|discriminate].
  cbn [bind] in Hys.
  rewrite (map_result_repeat f c xs) in Hys
    by (intros a; now rewrite (Hconst a x)).
  cbn [bind] in Hys. injection Hys as <-. exists c. reflexivity.
Qed.

(** The thirteen points of a test range. *)
Lemma np_linspace_13 (start stop : Qc) :
  np_linspace start stop 13
  = map (fun k : Z => start + k * ((stop - start) / 12%Z))
        [0; 1; 2; 3; 4; 5; 6; 7; 8; 9; 10; 11; 12]%Z.
Proof. reflexivity. Qed.

Lemma linspace_ends (start stop : Qc) :
  first_item (np_linspace start stop 13) = Ok start /\
  last_item (np_linspace start stop 13) = Ok stop.
Proof.
  rewrite np_linspace_13. cbn [map first_item last_item rev app].
  split; f_equal.
  - change (ofZ 0) with (0 : Qc). ring.
  - field. discriminate.
Qed.

(** From an equation between canonical rationals to one between
    fractions, and back. *)
Lemma Qc_eq_Qeq (x y : Qc) : x = y <-> (this x == this y)%Q.
Proof.
  split.
  - intros ->. reflexivity.
  - apply Qc_is_canon.
Qed.

(** The test range of the vacancy rate has two distinct ends unless
    the base value is -4 or 19 percent. *)
Lemma vacancy_range_ends (v : Qc) :
  v <> ofZ (-4) -> v <> 19 ->
  Qcmin 15 (v + 4) - Qcmax 0 (v - 4) <> 0.
Proof.
  intros Hlo Hhi. rewrite Qc_eq_Qeq in Hlo, Hhi. rewrite Qc_eq_Qeq.
  unfold Qcmin, Qcmax.
  destruct (v + 4 <? 15) eqn:H1, (0 <? v - 4) eqn:H2;
    qc_to_q in Hlo; qc_to_q in Hhi; qc_to_q;
    unfold inject_Z in *; lra.
Qed.

(** The test range of the operating-expense growth rate has two
    distinct ends unless the base value is -2.5 or 8.5 percent. *)
Lemma opex_growth_range_ends (g : Qc) :
  g <> dec (-25) 10 -> g <> dec 85 10 ->
  Qcmin 6 (g + dec 25 10) - Qcmax 0 (g - dec 25 10) <> 0.
Proof.
  intros Hlo Hhi. rewrite Qc_eq_Qeq in Hlo, Hhi. rewrite Qc_eq_Qeq.
  unfold Qcmin, Qcmax.
  destruct (g + dec 25 10 <? 6) eqn:H1, (0 <? g - dec 25 10) eqn:H2;
    unfold dec in *;
    qc_to_q in Hlo; qc_to_q in Hhi; qc_to_q;
    unfold inject_Z in *; lra.
Qed.

(** The slope of a flat sweep: numerator 0. *)
Lemma flat_slope (c x0 x1 : Qc) (results range : list Qc) :
  first_item results = Ok c -> last_item results = Ok c ->
  first_item range = Ok x0 -> last_item range = Ok x1 ->
  sensitivity_slope results range
  = Ok (if x1 - x0 =? 0 then NaN else Finite 0).
Proof.
  intros Hf Hl Hx0 Hx1. unfold sensitivity_slope.
  rewrite Hf, Hl, Hx0, Hx1. cbn [bind]. unfold np_divide.
  replace (c - c) with (0 : Qc) by ring.
  destruct (x1 - x0 =? 0); [reflexivity|].
  f_equal. f_equal. unfold Qcdiv. ring.
Qed.

Lemma flat_slope_level (d : Qc) :
  sensitivity_level (if d =? 0 then NaN else Finite 0) = Low_sensitivity.
Proof. destruct (d =? 0); reflexivity. Qed.

(** Sweeping the vacancy rate or the operating-expense growth rate in
    the one-way tab, for every deal and metric.  Whenever the sweep
    completes, its thirteen results are one and the same number.  The
    slope is then 0 over the two ends of the test range, or [nan],
    numpy's 0/0, where the range collapses to a point; it is 0 unless
    the base value is -4 or 19 percent for the vacancy rate, -2.5 or
    8.5 percent for the growth rate.  The level shown is "LOW" ("Low
    priority - use industry averages") in every case. *)
Theorem flat_sweep_reports_low_sensitivity `{NumpyFinancial}
    (i : Inputs) (test_var : SensitivityVar) (one_metric : Metric)
    (results : list Qc) :
  test_var = Vacancy_Rate \/ test_var = OpEx_Growth_Rate ->
  one_way_analysis i test_var one_metric = Ok results ->
  exists c x0 x1,
    results = repeat c 13 /\
    first_item (test_range i test_var) = Ok x0 /\
    last_item (test_range i test_var) = Ok x1 /\
    sensitivity_slope results (test_range i test_var)
    = Ok (if x1 - x0 =? 0 then NaN else Finite 0) /\
    (test_var = Vacancy_Rate ->
     vacancy i <> ofZ (-4) -> vacancy i <> 19 ->
     sensitivity_slope results (test_range i test_var) = Ok (Finite 0)) /\
    (test_var = OpEx_Growth_Rate ->
     opex_growth i <> dec (-25) 10 -> opex_growth i <> dec 85 10 ->
     sensitivity_slope results (test_range i test_var) = Ok (Finite 0)) /\
    one_way_sensitivity_level i test_var one_metric = Ok Low_sensitivity.
Proof.
  intros Hvar Hres.
  unfold one_way_sensitivity_level. rewrite Hres. cbn [bind].
  unfold one_way_analysis in Hres.
  destruct (compute_valuation i) as [v|e]; [|discriminate].
  cbn [bind] in Hres. unfold one_results in Hres.
  assert (Hflat : exists c, results = repeat c 13).
  { destruct Hvar as [-> | ->]; cbn [test_range] in Hres;
      rewrite np_linspace_13 in Hres; cbn [map] in Hres.
    - apply map_result_constant in Hres; [exact Hres|].
      intros a b. apply one_way_point_ignores_vacancy.
    - apply map_result_constant in Hres; [exact Hres|].
      intros a b. apply one_way_point_ignores_opex_growth. }
  destruct Hflat as [c ->].
  assert (Hends : exists x0 x1,
             test_range i test_var = np_linspace x0 x1 13 /\
             (test_var = Vacancy_Rate ->
              vacancy i <> ofZ (-4) -> vacancy i <> 19 -> x1 - x0 <> 0) /\
             (test_var = OpEx_Growth_Rate ->
              opex_growth i <> dec (-25) 10 -> opex_growth i <> dec 85 10 ->
              x1 - x0 <> 0)).
  { destruct Hvar as [-> | ->]; cbn [test_range]; do 2 eexists;
      (split; [reflexivity|]); split; intros Heq; try discriminate Heq.
    - apply vacancy_range_ends.
    - apply opex_growth_range_ends. }
  destruct Hends as [x0 [x1 [Hrange [Hvac Hopex]]]].
  destruct (linspace_ends x0 x1) as [Hx0 Hx1].
  rewrite <- Hrange in Hx0, Hx1.
  pose proof (flat_slope c x0 x1 (repeat c 13) (test_range i test_var)
                eq_refl eq_refl Hx0 Hx1) as Hslope.
  exists c, x0, x1.
  split; [reflexivity|]. split; [exact Hx0|]. split; [exact Hx1|].
  split; [exact Hslope|]. split; [|split].
  - intros Hv H1 H2. rewrite Hslope.
    pose proof (Hvac Hv H1 H2) as Hne. apply Qceqb_neq in Hne.
    now rewrite Hne.
  - intros Hv H1 H2. rewrite Hslope.
    pose proof (Hopex Hv H1 H2) as Hne. apply Qceqb_neq in Hne.
    now rewrite Hne.
  - rewrite Hslope. cbn [bind]. now rewrite flat_slope_level.
Qed.

Lemma flat_sweep_example :
  exists c,
    one_way_analysis (H := irr_not_found) all_cash Vacancy_Rate
      Equity_Multiple = Ok (repeat c 13) /\
    sensitivity_slope (repeat c 13) (test_range all_cash Vacancy_Rate)
    = Ok (Finite 0) /\
    one_way_sensitivity_level (H := irr_not_found) all_cash Vacancy_Rate
      Equity_Multiple = Ok Low_sensitivity.
Proof.
  destruct (one_way_analysis (H := irr_not_found) all_cash Vacancy_Rate
              Equity_Multiple) as [results|e] eqn:Hres.
  - destruct (flat_sweep_reports_low_sensitivity (H := irr_not_found)
                all_cash Vacancy_Rate Equity_Multiple results
                (or_introl eq_refl) Hres)
      as [c [x0 [x1 [Hflat [_ [_ [_ [Hvac [_ Hlevel]]]]]]]]].
    exists c. rewrite <- Hflat. split; [reflexivity|].
    split; [|exact Hlevel].
    apply Hvac; [reflexivity| |];
      intros Hz; vm_compute in Hz; discriminate Hz.
  - exfalso. revert Hres. vm_compute. discriminate.
Defined.

(** * The tornado chart *)

Lemma Qcabs_nonneg (x : Qc) : 0 <= Qcabs x.
Proof.
  unfold Qcabs. destruct (x <? 0) eqn:Hx.
  - apply Qcltb_lt in Hx. qc_to_q in Hx. qc_to_q. lra.
  - apply Qcltb_ge in Hx. exact Hx.
Qed.

Lemma Qcabs_self_difference (x : Qc) : Qcabs (x - x) = 0.
Proof.
  replace (x - x) with (0 : Qc) by ring. reflexivity.
Qed.

Lemma Qcmult_neq_0 (x y : Qc) : x <> 0 -> y <> 0 -> x * y <> 0.
Proof.
  intros Hx Hy Hz. apply Qcmult_integral in Hz. destruct Hz; auto.
Qed.

(** The quick calculation completes when neither the exit cap rate it
    uses nor the equity is zero. *)
Lemma tornado_result_defined
    (i : Inputs) (var_name : SensitivityVar) (test_val : Qc) :
  (if var_eqb var_name Exit_Cap_Rate then test_val else exit_cap_rate i)
  <> 0 ->
  equity_required i <> 0 ->
  exists x, tornado_result i var_name test_val = Ok x.
Proof.
  intros Hcap Heq. unfold tornado_result.
  rewrite div_ok by (apply percent_neq_0; exact Hcap). cbn [bind].
  rewrite div_ok by exact Heq. cbn [bind]. eauto.
Qed.

(** The tested value reaches the quick calculation only for the exit
    cap rate and the rent growth rate. *)
Lemma tornado_result_flat
    (i : Inputs) (var_name : SensitivityVar) (test_val : Qc) :
  var_name = Interest_Rate \/ var_name = Vacancy_Rate
  \/ var_name = OpEx_Growth_Rate ->
  tornado_result i var_name test_val
  = tornado_result i Interest_Rate (interest_rate i).
Proof.
  intros [-> | [-> | ->]]; reflexivity.
Qed.

Lemma tornado_row_flat
    (i : Inputs) (var_name : SensitivityVar) (base : Qc) :
  var_name = Interest_Rate \/ var_name = Vacancy_Rate
  \/ var_name = OpEx_Growth_Rate ->
  tornado_result i Interest_Rate (interest_rate i) = Ok base ->
  tornado_row i var_name
  = Ok {| t_variable := var_name; t_low := base; t_high := base;
          t_range := 0 |}.
Proof.
  intros Hvar Hbase. unfold tornado_row.
  rewrite !(tornado_result_flat i var_name _ Hvar), Hbase. cbn [bind].
  now rewrite Qcabs_self_difference.
Qed.

Lemma tornado_row_range_nonneg
    (i : Inputs) (var_name : SensitivityVar) (row : TornadoRow) :
  tornado_row i var_name = Ok row -> 0 <= t_range row.
Proof.
  unfold tornado_row.
  destruct (tornado_result i var_name _) as [lo|e]; [|discriminate].
  cbn [bind].
  destruct (tornado_result i var_name _) as [hi|e]; [|discriminate].
  cbn [bind]. intros Hrow. injection Hrow as <-. cbn [t_range].
  apply Qcabs_nonneg.
Qed.

Lemma insert_by_range_cons (x y : TornadoRow) (l : list TornadoRow) :
  insert_by_range x (y :: l)
  = if t_range x <? t_range y then y :: insert_by_range x l
    else x :: y :: l.
Proof. reflexivity. Qed.

Lemma not_below_zero (x : Qc) : 0 <= x -> (x <? 0) = false.
Proof. intros Hx. now apply Qcltb_ge. Qed.

(** The tornado chart of a deal with a non-zero exit cap rate and
    non-zero equity.  The bars of the interest rate, the vacancy rate
    and the operating-expense growth rate have no width: low and high
    are both the base-case return, whatever the deal.  They rank last,
    in that order.  The bars of the exit cap rate and the rent growth
    rate come first, the wider one on top, the exit cap rate on a
    tie. *)
Theorem tornado_flat_bars_rank_last (i : Inputs) :
  exit_cap_rate i <> 0 ->
  equity_required i <> 0 ->
  exists exit_row rent_row base,
    tornado_row i Exit_Cap_Rate = Ok exit_row /\
    tornado_row i Rent_Growth_Rate = Ok rent_row /\
    tornado_result i Interest_Rate (interest_rate i) = Ok base /\
    tornado_data i
    = Ok ((if t_range exit_row <? t_range rent_row
           then [rent_row; exit_row] else [exit_row; rent_row])
          ++ [ {| t_variable := Interest_Rate; t_low := base;
                  t_high := base; t_range := 0 |};
               {| t_variable := Vacancy_Rate; t_low := base;
                  t_high := base; t_range := 0 |};
               {| t_variable := OpEx_Growth_Rate; t_low := base;
                  t_high := base; t_range := 0 |} ]).
Proof.
  intros Hcap Heq.
  assert (Hexit : exists row, tornado_row i Exit_Cap_Rate = Ok row).
  { unfold tornado_row.
    destruct (tornado_result_defined i Exit_Cap_Rate
                (tornado_base_val i Exit_Cap_Rate * dec 8 10))
      as [lo Hlo]; [|exact Heq|].
    { cbn [var_eqb tornado_base_val].
      apply Qcmult_neq_0; [exact Hcap|discriminate]. }
    destruct (tornado_result_defined i Exit_Cap_Rate
                (tornado_base_val i Exit_Cap_Rate * dec 12 10))
      as [hi Hhi]; [|exact Heq|].
    { cbn [var_eqb tornado_base_val].
      apply Qcmult_neq_0; [exact Hcap|discriminate]. }
    rewrite Hlo, Hhi. cbn [bind]. eauto. }
  assert (Hrent : exists row, tornado_row i Rent_Growth_Rate = Ok row).
  { unfold tornado_row.
    destruct (tornado_result_defined i Rent_Growth_Rate
                (tornado_base_val i Rent_Growth_Rate * dec 8 10)
                Hcap Heq) as [lo Hlo].
    destruct (tornado_result_defined i Rent_Growth_Rate
                (tornado_base_val i Rent_Growth_Rate * dec 12 10)
                Hcap Heq) as [hi Hhi].
    rewrite Hlo, Hhi. cbn [bind]. eauto. }
  destruct Hexit as [exit_row Hexit], Hrent as [rent_row Hrent].
  destruct (tornado_result_defined i Interest_Rate (interest_rate i)
              Hcap Heq) as [base Hbase].
  exists exit_row, rent_row, base.
  split; [exact Hexit|]. split; [exact Hrent|]. split; [exact Hbase|].
  unfold tornado_data, sensitivity_vars. cbn [map_result].
  rewrite Hexit, Hrent.
  rewrite (tornado_row_flat i Interest_Rate base) by auto.
  rewrite (tornado_row_flat i Vacancy_Rate base) by auto.
  rewrite (tornado_row_flat i OpEx_Growth_Rate base) by auto.
  cbn [bind]. f_equal.
  unfold sort_by_range. cbn [fold_right].
  match goal with
  | |- context [insert_by_range ?b1 (insert_by_range ?b2
                                       (insert_by_range ?b3 []))] =>
      change (insert_by_range b1 (insert_by_range b2
                                    (insert_by_range b3 [])))
        with [b1; b2; b3]
  end.
  rewrite (insert_by_range_cons rent_row). cbn [t_range].
  rewrite (not_below_zero _ (tornado_row_range_nonneg _ _ _ Hrent)).
  rewrite (insert_by_range_cons exit_row).
  destruct (t_range exit_row <? t_range rent_row).
  - rewrite (insert_by_range_cons exit_row). cbn [t_range].
    rewrite (not_below_zero _ (tornado_row_range_nonneg _ _ _ Hexit)).
    reflexivity.
  - reflexivity.
Qed.

Lemma tornado_flat_bars_example :
  exists exit_row rent_row base,
    tornado_row all_cash Exit_Cap_Rate = Ok exit_row /\
    tornado_row all_cash Rent_Growth_Rate = Ok rent_row /\
    tornado_result all_cash Interest_Rate (interest_rate all_cash)
    = Ok base /\
    tornado_data all_cash
    = Ok ((if t_range exit_row <? t_range rent_row
           then [rent_row; exit_row] else [exit_row; rent_row])
          ++ [ {| t_variable := Interest_Rate; t_low := base;
                  t_high := base; t_range := 0 |};
               {| t_variable := Vacancy_Rate; t_low := base;
                  t_high := base; t_range := 0 |};
               {| t_variable := OpEx_Growth_Rate; t_low := base;
                  t_high := base; t_range := 0 |} ]).
Proof.
  apply (tornado_flat_bars_rank_last all_cash).
  - intros Hz. vm_compute in Hz. discriminate Hz.
  - intros Hz. vm_compute in Hz. discriminate Hz.
Defined.

(** The tornado chart has no guard of its own: with an exit cap rate
    of zero, which the valuation itself tolerates, or with no equity,
    generating the chart stops with a division by zero. *)
Theorem tornado_divides_by_zero (i : Inputs) :
  exit_cap_rate i = 0 \/ equity_required i = 0 ->
  tornado_data i = Raise ZeroDivisionError.
Proof.
  intros Hzero. unfold tornado_data, sensitivity_vars. cbn [map_result].
  assert (Hrow : tornado_row i Exit_Cap_Rate = Raise ZeroDivisionError).
  { unfold tornado_row, tornado_result. cbn [var_eqb tornado_base_val].
    destruct (Qc_eq_dec (exit_cap_rate i) 0) as [Hcap|Hcap].
    - rewrite Hcap.
      replace (0 * dec 8 10 / 100) with (0 : Qc) by (apply Qc_is_canon; reflexivity).
      rewrite div_by_zero. reflexivity.
    - destruct Hzero as [Hz|Hz]; [contradiction|].
      rewrite div_ok
        by (apply percent_neq_0, Qcmult_neq_0; [exact Hcap|discriminate]).
      cbn [bind]. rewrite Hz, div_by_zero. reflexivity. }
  rewrite Hrow. reflexivity.
Qed.

Lemma tornado_divides_by_zero_example :
  tornado_data (set_var Exit_Cap_Rate 0 all_cash) = Raise ZeroDivisionError.
Proof.
  apply tornado_divides_by_zero. left. reflexivity.
Defined.

(** * The loan payoff schedule *)


Section PayoffRows.

Variables loan_amount interest_rate : Qc.
Variable io_period : Z.
Variable monthly_payment_amort : Qc.

Local Abbreviation month :=
  (payoff_month (interest_rate / 100 / 12) monthly_payment_amort).
Local Abbreviation year_row :=
  (payoff_year loan_amount interest_rate io_period monthly_payment_amort).
Local Abbreviation rows_of :=
  (payoff_loop loan_amount interest_rate io_period monthly_payment_amort).




End PayoffRows.

Lemma range_nonempty (a b : Z) :
  (a < b)%Z -> exists rest, range a b = a :: rest.
Proof.
  intros Hab.
  replace b with (a + Z.of_nat (S (Z.to_nat (b - a - 1))))%Z by lia.
  rewrite range_succ. eexists. reflexivity.
Qed.


(** With at least one year of amortization the schedule has a record,
    the frame has its columns, and the section shows the schedule. *)
Lemma loan_payoff_schedule_value
    (loan_amount interest_rate : Qc) (amortization io_period : Z) (pmt : Qc) :
  0 < loan_amount -> (1 <= amortization)%Z ->
  amortizing_payment loan_amount interest_rate amortization io_period
  = Ok pmt ->
  loan_payoff_schedule loan_amount interest_rate amortization io_period
  = Ok (Some (payoff_loop loan_amount interest_rate io_period pmt
                (range 1 (amortization + 1)) loan_amount)).
Proof.
  intros Hloan Hamort Hpmt.
  unfold loan_payoff_schedule, amort_schedule.
  apply Qcltb_lt in Hloan. rewrite Hloan, Hpmt. cbn [bind].
  destruct (range_nonempty 1 (amortization + 1) ltac:(lia)) as [rest ->].
  reflexivity.
Qed.



(** ** On schedule *)

Lemma pow_succ (x : Qc) (m : Z) : (0 <= m)%Z -> pow x (m + 1) = pow x m * x.
Proof.
  intros Hm. rewrite pow_add by lia.
  change (pow x 1) with (x * 1). ring.
Qed.

Lemma Qcmax_0_of_nonneg (x : Qc) : 0 <= x -> Qcmax 0 x = x.
Proof.
  intros Hx. unfold Qcmax. destruct (0 <? x) eqn:H0; [reflexivity|].
  apply Qcltb_ge in H0. apply Qcle_antisym; assumption.
Qed.

Lemma firstn_range (k : nat) :
  forall (n : nat) (a : Z),
    (k <= n)%nat ->
    firstn k (range a (a + Z.of_nat n)) = range a (a + Z.of_nat k).
Proof.
  induction k as [|k IH]; intros n a Hkn.
  - rewrite range_empty. reflexivity.
  - destruct n as [|n]; [lia|].
    rewrite !range_succ. cbn [firstn]. f_equal. apply IH. lia.
Qed.

Section PayoffOnSchedule.

Variables loan_amount interest_rate : Qc.
Variables amortization io_period : Z.

Hypothesis rate_pos : 0 < interest_rate.
Hypothesis loan_pos : 0 < loan_amount.
Hypothesis io_nonneg : (0 <= io_period)%Z.
Hypothesis amortizing : (io_period < amortization)%Z.

(** The monthly rate, the number of amortizing payments, the growth
    over all of them, the monthly payment, and the balance after [m]
    of them. *)
Local Abbreviation r := (interest_rate / 100 / 12).
Local Abbreviation n := ((amortization - io_period) * 12)%Z.
Local Abbreviation An := (pow (1 + r) n).
Local Abbreviation pmt := (loan_amount * (r * An) / (An - 1)).
Local Abbreviation after := (fun m : Z =>
  loan_amount * (An - pow (1 + r) m) / (An - 1)).
Local Abbreviation scheduled :=
  (scheduled_balance loan_amount interest_rate amortization io_period).
Local Abbreviation month := (payoff_month r pmt).

Lemma amortizing_payment_value :
  amortizing_payment loan_amount interest_rate amortization io_period
  = Ok pmt.
Proof.
  unfold amortizing_payment.
  replace (io_period <? amortization)%Z with true
    by (symmetry; apply Z.ltb_lt; exact amortizing).
  pose proof (monthly_rate_pos interest_rate rate_pos) as Hr.
  apply Qcltb_lt in Hr. rewrite Hr.
  apply div_ok, (annuity_denominator_nonzero interest_rate rate_pos).
  lia.
Qed.

(** One payment moves the balance one step down the schedule. *)
Lemma after_step (m : Z) :
  (0 <= m)%Z -> after m - (pmt - after m * r) = after (m + 1)%Z.
Proof.
  intros Hm. cbv beta. rewrite pow_succ by exact Hm.
  pose proof (annuity_denominator_nonzero interest_rate rate_pos n
                ltac:(lia)) as Hden.
  revert Hden. generalize An. generalize (pow (1 + r) m). generalize r.
  intros x Am A Hden. field. exact Hden.
Qed.

Lemma after_nonneg (m : Z) : (0 <= m <= n)%Z -> 0 <= after m.
Proof.
  intros Hm. cbv beta. apply Qcle_scale_nonneg.
  - apply Qclt_le_weak, loan_pos.
  - apply annuity_denominator_pos; assumption.
  - unfold Qcminus.
    apply (proj1 (Qcle_minus_iff (pow (1 + r) m) An)), pow_le_mono.
    + apply growth_factor_gt_1, rate_pos.
    + exact Hm.
Qed.

(** Within the schedule the cut-off at zero never applies: after [k]
    more payments the balance is the scheduled one, and the principal
    paid is the drop of the balance. *)
Lemma payoff_iter_on_schedule (k : nat) :
  forall (m : Z) (s : PayoffMonth),
    (0 <= m)%Z -> (m + Z.of_nat k <= n)%Z ->
    payoff_balance s = after m ->
    payoff_balance (Nat.iter k month s) = after (m + Z.of_nat k)%Z /\
    year_principal (Nat.iter k month s)
    = year_principal s + (after m - after (m + Z.of_nat k)%Z).
Proof.
  induction k as [|k IH]; intros m s Hm Hk Hs.
  - cbn [Nat.iter nat_rect Z.of_nat]. rewrite Z.add_0_r.
    split; [exact Hs|ring].
  - rewrite Nat.iter_succ.
    destruct (IH m s Hm ltac:(lia) Hs) as [Hbal Hprin].
    replace (m + Z.of_nat (S k))%Z with (m + Z.of_nat k + 1)%Z by lia.
    pose proof (after_step (m + Z.of_nat k) ltac:(lia)) as Hstep.
    pose proof (after_nonneg (m + Z.of_nat k + 1) ltac:(lia)) as Hnn.
    revert Hbal Hprin.
    generalize (Nat.iter k month s). intros s' Hbal Hprin.
    unfold payoff_month. cbn [payoff_balance year_principal].
    rewrite Hbal, Hprin, Hstep. split.
    + apply Qcmax_0_of_nonneg, Hnn.
    + rewrite <- Hstep. ring.
Qed.

Lemma scheduled_after (y : Z) :
  scheduled y = after (12 * Z.max 0 (y - io_period))%Z.
Proof. reflexivity. Qed.

(** One year of the schedule, started on schedule. *)
Lemma payoff_year_on_schedule (year : Z) :
  (1 <= year <= amortization)%Z ->
  snd (payoff_year loan_amount interest_rate io_period pmt year
         (scheduled (year - 1)))
  = scheduled year /\
  Remaining_Balance
    (fst (payoff_year loan_amount interest_rate io_period pmt year
            (scheduled (year - 1))))
  = scheduled year /\
  Principal
    (fst (payoff_year loan_amount interest_rate io_period pmt year
            (scheduled (year - 1))))
  = scheduled (year - 1) - scheduled year.
Proof.
  intros Hyear. unfold payoff_year.
  destruct (year <=? io_period)%Z eqn:Hio.
  - apply Z.leb_le in Hio.
    cbn [fst snd Remaining_Balance Principal].
    rewrite !(scheduled_io loan_amount interest_rate amortization io_period
                rate_pos amortizing) by lia.
    split; [reflexivity|]. split.
    + apply Qcmax_0_of_nonneg, Qclt_le_weak, loan_pos.
    + ring.
  - apply Z.leb_gt in Hio.
    cbn [fst snd Remaining_Balance Principal].
    destruct (payoff_iter_on_schedule 12 (12 * (year - 1 - io_period))
                {| year_interest := 0; year_principal := 0;
                   payoff_balance := scheduled (year - 1) |}
                ltac:(lia) ltac:(lia)) as [Hbal Hprin].
    { cbn [payoff_balance]. rewrite scheduled_after.
      replace (Z.max 0 (year - 1 - io_period)) with (year - 1 - io_period)%Z
        by lia.
      reflexivity. }
    cbn [year_principal] in Hprin.
    replace (12 * (year - 1 - io_period) + Z.of_nat 12)%Z
      with (12 * Z.max 0 (year - io_period))%Z in Hbal, Hprin by lia.
    replace (12 * (year - 1 - io_period))%Z
      with (12 * Z.max 0 (year - 1 - io_period))%Z in Hprin by lia.
    rewrite <- !scheduled_after in Hbal, Hprin.
    revert Hbal Hprin.
    generalize (Nat.iter 12 month
                  {| year_interest := 0; year_principal := 0;
                     payoff_balance := scheduled (year - 1) |}).
    intros s Hbal Hprin. rewrite Hbal, Hprin.
    split; [reflexivity|]. split.
    + apply Qcmax_0_of_nonneg.
      apply scheduled_nonneg; [assumption..|lia].
    + unfold scheduled_balance. cbv beta. ring.
Qed.

(** The years [s, ..., s + k - 1] of the schedule. *)
Lemma payoff_loop_on_schedule (k : nat) :
  forall s : Z,
    (1 <= s)%Z -> (s + Z.of_nat k - 1 <= amortization)%Z ->
    map Remaining_Balance
      (payoff_loop loan_amount interest_rate io_period pmt
         (range s (s + Z.of_nat k)) (scheduled (s - 1)))
    = map scheduled (range s (s + Z.of_nat k)) /\
    sum (map Principal
           (payoff_loop loan_amount interest_rate io_period pmt
              (range s (s + Z.of_nat k)) (scheduled (s - 1))))
    = scheduled (s - 1) - scheduled (s - 1 + Z.of_nat k).
Proof.
  induction k as [|k IH]; intros s Hs Hk.
  - rewrite range_empty. cbn [payoff_loop map]. split; [reflexivity|].
    rewrite Z.add_0_r. unfold sum. cbn [fold_left]. ring.
  - rewrite range_succ. cbn [payoff_loop map].
    destruct (payoff_year_on_schedule s ltac:(lia)) as [Hb [Hrem Hprin]].
    rewrite Hb, Hrem, Hprin.
    destruct (IH (s + 1)%Z ltac:(lia) ltac:(lia)) as [Hrems Hsum].
    replace (s + 1 - 1)%Z with s in Hrems, Hsum by lia.
    rewrite Hrems, sum_cons, Hsum.
    replace (s - 1 + Z.of_nat (S k))%Z with (s + Z.of_nat k)%Z by lia.
    split; [reflexivity|ring].
Qed.

Lemma scheduled_paid_off : scheduled amortization = 0.
Proof.
  rewrite scheduled_after.
  replace (12 * Z.max 0 (amortization - io_period))%Z with n by lia.
  pose proof (annuity_denominator_nonzero interest_rate rate_pos n
                ltac:(lia)) as Hden.
  revert Hden. generalize An. intros A Hden. field. exact Hden.
Qed.

Lemma payoff_schedule_on_schedule :
  exists rows,
    loan_payoff_schedule loan_amount interest_rate amortization io_period
    = Ok (Some rows) /\
    map Remaining_Balance rows
    = map scheduled (range 1 (amortization + 1)) /\
    sum (map Principal rows) = loan_amount.
Proof.
  eexists. split.
  { apply loan_payoff_schedule_value;
      [exact loan_pos | lia | apply amortizing_payment_value]. }
  destruct (payoff_loop_on_schedule (Z.to_nat amortization) 1
              ltac:(lia) ltac:(lia)) as [Hrems Hsum].
  replace (1 + Z.of_nat (Z.to_nat amortization))%Z
    with (amortization + 1)%Z in Hrems, Hsum by lia.
  replace (1 - 1 + Z.of_nat (Z.to_nat amortization))%Z
    with amortization in Hsum by lia.
  rewrite (scheduled_io loan_amount interest_rate amortization io_period
             rate_pos amortizing (1 - 1)) in Hrems, Hsum by lia.
  split; [exact Hrems|].
  rewrite Hsum, scheduled_paid_off. ring.
Qed.

End PayoffOnSchedule.

Lemma last_map_range (f : Z -> Qc) (k : nat) :
  forall (s : Z) (d : Qc),
    last (map f (range s (s + Z.of_nat (S k)))) d = f (s + Z.of_nat k)%Z.
Proof.
  induction k as [|k IH]; intros s d.
  - rewrite range_succ, range_empty. cbn [map last]. f_equal. lia.
  - rewrite range_succ. cbn [map]. rewrite last_cons.
    rewrite (IH (s + 1)%Z). f_equal. lia.
Qed.

(** The loan payoff schedule of an amortizing loan at a positive rate.
    The remaining balance of year [y] is the scheduled balance
    [loan * ((1+r)^n - (1+r)^m) / ((1+r)^n - 1)], with [m] the payments
    made; the last balance is 0 and the principal column adds up to the
    loan amount, so the loan is repaid exactly at the end of the
    amortization period.  The schedule also agrees, year by year, with
    the running loan balance of the cash-flow projection for every
    holding period up to the amortization period. *)
Theorem payoff_schedule_follows_amortization (i : Inputs) :
  0 < loan_amount i ->
  0 < interest_rate i ->
  (0 <= io_period i < amortization i)%Z ->
  (0 <= holding_period i <= amortization i)%Z ->
  exists rows,
    loan_payoff_schedule (loan_amount i) (interest_rate i) (amortization i)
      (io_period i) = Ok (Some rows) /\
    map Remaining_Balance rows
    = map (scheduled_balance (loan_amount i) (interest_rate i)
             (amortization i) (io_period i))
          (range 1 (amortization i + 1)) /\
    last (map Remaining_Balance rows) (loan_amount i) = 0 /\
    sum (map Principal rows) = loan_amount i /\
    balance_trace i
    = Ok (firstn (Z.to_nat (holding_period i)) (map Remaining_Balance rows)).
Proof.
  intros Hloan Hrate [Hio Ham] [Hh0 Hh].
  destruct (payoff_schedule_on_schedule (loan_amount i) (interest_rate i)
              (amortization i) (io_period i) Hrate Hloan Hio Ham)
    as [rows [Hrows [Hrems Hsum]]].
  exists rows. split; [exact Hrows|]. split; [exact Hrems|].
  split; [|split; [exact Hsum|]].
  - rewrite Hrems.
    replace (amortization i + 1)%Z
      with (1 + Z.of_nat (S (Z.to_nat (amortization i - 1))))%Z by lia.
    rewrite last_map_range.
    replace (1 + Z.of_nat (Z.to_nat (amortization i - 1)))%Z
      with (amortization i) by lia.
    apply scheduled_paid_off; assumption.
  - unfold balance_trace.
    rewrite balances_by_year_scheduled by assumption.
    rewrite Hrems, firstn_map. do 2 f_equal.
    replace (amortization i + 1)%Z
      with (1 + Z.of_nat (Z.to_nat (amortization i)))%Z by lia.
    rewrite firstn_range by lia. f_equal. lia.
Qed.

Lemma payoff_schedule_follows_amortization_example :
  exists rows,
    loan_payoff_schedule (loan_amount three_year_loan)
      (interest_rate three_year_loan) (amortization three_year_loan)
      (io_period three_year_loan) = Ok (Some rows) /\
    map Remaining_Balance rows
    = map (scheduled_balance (loan_amount three_year_loan)
             (interest_rate three_year_loan) (amortization three_year_loan)
             (io_period three_year_loan))
          (range 1 (amortization three_year_loan + 1)) /\
    last (map Remaining_Balance rows) (loan_amount three_year_loan) = 0 /\
    sum (map Principal rows) = loan_amount three_year_loan /\
    balance_trace three_year_loan
    = Ok (firstn (Z.to_nat (holding_period three_year_loan))
            (map Remaining_Balance rows)).
Proof.
  apply (payoff_schedule_follows_amortization three_year_loan).
  - unfold Qclt, Qlt. vm_compute. reflexivity.
  - unfold Qclt, Qlt. vm_compute. reflexivity.
  - cbn. lia.
  - cbn. lia.
Defined.

(** * The loan payment summary *)

Lemma sum_snoc (l : list Qc) (x : Qc) : sum (l ++ [x]) = sum l + x.
Proof. unfold sum. rewrite fold_left_app. reflexivity. Qed.

Lemma range_snoc (a : Z) (k : nat) :
  range a (a + Z.of_nat (S k)) = range a (a + Z.of_nat k) ++ [(a + Z.of_nat k)%Z].
Proof.
  unfold range.
  replace (a + Z.of_nat (S k) - a)%Z with (Z.of_nat (S k)) by lia.
  replace (a + Z.of_nat k - a)%Z with (Z.of_nat k) by lia.
  rewrite !Nat2Z.id, seq_S, map_app. reflexivity.
Qed.

(** The debt-service column of the projection holds the values of
    [calculate_debt_service], year by year. *)
Section DebtServiceColumn.

Variable property_type : PropertyType.
Variable unit_rents : list Qc.
Variables annual_rent_total rent_growth vacancy : Qc.
Variables opex_per_unit_or_sf opex_growth : Qc.
Variable units_or_sf : Z.
Variables management_fee capex_per_unit_or_sf : Qc.
Variables loan_amount interest_rate : Qc.
Variables amortization io_period : Z.
Variables equity_required tax_rate annual_depreciation : Qc.

Local Abbreviation year_body :=
  (cash_flow_year property_type unit_rents annual_rent_total rent_growth
     vacancy opex_per_unit_or_sf opex_growth units_or_sf management_fee
     capex_per_unit_or_sf loan_amount interest_rate amortization io_period
     equity_required tax_rate annual_depreciation).

Local Abbreviation year_loop :=
  (cash_flow_loop property_type unit_rents annual_rent_total rent_growth
     vacancy opex_per_unit_or_sf opex_growth units_or_sf management_fee
     capex_per_unit_or_sf loan_amount interest_rate amortization io_period
     equity_required tax_rate annual_depreciation).

Lemma debt_service_column (service : Z -> Qc) (years : list Z) :
  (forall year,
      In year years ->
      calculate_debt_service year loan_amount interest_rate amortization
        io_period = Ok (service year)) ->
  forall (b : Qc) (tr : list (CashFlowRow * Qc)),
    year_loop years b = Ok tr ->
    map Debt_Service (map fst tr) = map service years.
Proof.
  induction years as [|year rest IH]; intros Hservice b tr Htr;
    cbn [cash_flow_loop] in Htr.
  - injection Htr as <-. reflexivity.
  - destruct (year_body year b) as [[row b']|e] eqn:Hrow; [|discriminate].
    cbn [bind snd] in Htr.
    destruct (year_loop rest b') as [tl|e] eqn:Htl; [|discriminate].
    cbn [bind] in Htr. injection Htr as <-.
    cbn [map fst]. f_equal.
    + apply cash_flow_year_equations in Hrow.
      destruct Hrow as [_ [_ [_ [_ [_ [_ [_ [Hds _]]]]]]]].
      rewrite (Hservice year ltac:(now left)) in Hds.
      now injection Hds.
    + apply (IH ltac:(intros y Hy; apply Hservice; now right) b').
      exact Htl.
Qed.

End DebtServiceColumn.

Section PaymentSummary.

Variables loan_amount interest_rate : Qc.
Variables amortization io_period holding_period : Z.

Hypothesis rate_pos : 0 < interest_rate.
Hypothesis loan_pos : 0 < loan_amount.
Hypothesis io_nonneg : (0 <= io_period)%Z.
Hypothesis amortizing : (io_period < amortization)%Z.
Hypothesis hold_nonneg : (0 <= holding_period)%Z.

Local Abbreviation r := (interest_rate / 100 / 12).
Local Abbreviation n := ((amortization - io_period) * 12)%Z.
Local Abbreviation An := (pow (1 + r) n).
Local Abbreviation pmt := (loan_amount * (r * An) / (An - 1)).
Local Abbreviation after := (fun m : Z =>
  loan_amount * (An - pow (1 + r) m) / (An - 1)).
Local Abbreviation scheduled :=
  (scheduled_balance loan_amount interest_rate amortization io_period).
Local Abbreviation month := (summary_month r pmt).
Local Abbreviation year_step :=
  (summary_year loan_amount interest_rate io_period holding_period pmt).

(** The payment of a year: interest only, or twelve monthly
    payments. *)
Local Abbreviation service := (fun year : Z =>
  if (year <=? io_period)%Z then loan_amount * (interest_rate / 100)
  else 12 * pmt).

Lemma debt_service_value (year : Z) :
  calculate_debt_service year loan_amount interest_rate amortization
    io_period = Ok (service year).
Proof.
  unfold calculate_debt_service. cbv beta.
  pose proof (Qclt_0_neq _ loan_pos) as Hloan.
  apply Qceqb_neq in Hloan. rewrite Hloan, orb_false_r.
  destruct (year <=? io_period)%Z; [reflexivity|].
  replace (n <=? 0)%Z with false by (symmetry; apply Z.leb_gt; lia).
  rewrite div_ok
    by (apply (annuity_denominator_nonzero interest_rate rate_pos); lia).
  cbn [bind]. f_equal. ring.
Qed.

(** [k] payments without the cut-off at zero. *)
Lemma summary_iter_on_schedule (k : nat) :
  forall (m : Z) (s : SummaryMonth),
    (0 <= m)%Z ->
    summary_balance s = after m ->
    summary_balance (Nat.iter k month s) = after (m + Z.of_nat k)%Z /\
    annual_principal (Nat.iter k month s)
    = annual_principal s + (after m - after (m + Z.of_nat k)%Z) /\
    annual_interest (Nat.iter k month s)
    + annual_principal (Nat.iter k month s)
    = annual_interest s + annual_principal s + Z.of_nat k * pmt.
Proof.
  induction k as [|k IH]; intros m s Hm Hs.
  - cbn [Nat.iter nat_rect Z.of_nat]. rewrite Z.add_0_r.
    split; [exact Hs|]. change (ofZ 0) with (0 : Qc). split; ring.
  - rewrite Nat.iter_succ, ofZ_succ.
    destruct (IH m s Hm Hs) as [Hbal [Hprin Hpaid]].
    replace (m + Z.of_nat (S k))%Z with (m + Z.of_nat k + 1)%Z by lia.
    pose proof (after_step loan_amount interest_rate amortization io_period
                  rate_pos amortizing (m + Z.of_nat k) ltac:(lia))
      as Hstep.
    revert Hbal Hprin Hpaid.
    generalize (Nat.iter k month s). intros s' Hbal Hprin Hpaid.
    unfold summary_month.
    cbn [summary_balance annual_principal annual_interest].
    cbv beta in Hbal, Hprin.
    split; [|split].
    + rewrite Hbal. exact Hstep.
    + rewrite Hprin, Hbal, <- Hstep. ring.
    + transitivity (annual_interest s' + annual_principal s' + pmt).
      * ring.
      * rewrite Hpaid. ring.
Qed.

(** One year of the summary, started on schedule. *)
Lemma summary_year_on_schedule (year : Z) (s : PaymentTotals) :
  (1 <= year)%Z ->
  running_balance s = scheduled (year - 1) ->
  running_balance (year_step s year) = scheduled year /\
  total_paid_full_term (year_step s year)
  = total_paid_full_term s + service year /\
  total_paid_at_holding (year_step s year)
  = (if (year <=? holding_period)%Z
     then total_paid_at_holding s + service year
     else total_paid_at_holding s) /\
  principal_paid_at_holding (year_step s year)
  = (if (year <=? holding_period)%Z
     then principal_paid_at_holding s
          + (scheduled (year - 1) - scheduled year)
     else principal_paid_at_holding s).
Proof.
  intros Hyear Hs. unfold summary_year. cbv beta.
  destruct (year <=? io_period)%Z eqn:Hio.
  - apply Z.leb_le in Hio.
    cbn [running_balance total_paid_full_term total_paid_at_holding
           principal_paid_at_holding].
    rewrite Hs.
    rewrite !(scheduled_io loan_amount interest_rate amortization io_period
                rate_pos amortizing) by lia.
    split; [reflexivity|]. split; [reflexivity|]. split; [reflexivity|].
    destruct (year <=? holding_period)%Z; [ring|reflexivity].
  - apply Z.leb_gt in Hio.
    destruct (summary_iter_on_schedule 12 (12 * (year - 1 - io_period))
                {| annual_interest := 0; annual_principal := 0;
                   summary_balance := running_balance s |}
                ltac:(lia)) as [Hbal [Hprin Hpaid]].
    { cbn [summary_balance]. rewrite Hs. unfold scheduled_balance.
      replace (Z.max 0 (year - 1 - io_period)) with (year - 1 - io_period)%Z
        by lia.
      reflexivity. }
    cbn [annual_interest annual_principal summary_balance] in Hprin, Hpaid.
    change (Z.of_nat 12) with 12%Z in Hpaid.
    replace (12 * (year - 1 - io_period) + Z.of_nat 12)%Z
      with (12 * Z.max 0 (year - io_period))%Z in Hbal, Hprin by lia.
    replace (12 * (year - 1 - io_period))%Z
      with (12 * Z.max 0 (year - 1 - io_period))%Z in Hprin by lia.
    change (loan_amount
            * (An - pow (1 + r) (12 * Z.max 0 (year - io_period))) / (An - 1))
      with (scheduled year) in Hbal, Hprin.
    change (loan_amount
            * (An - pow (1 + r) (12 * Z.max 0 (year - 1 - io_period)))
            / (An - 1))
      with (scheduled (year - 1)) in Hprin.
    revert Hbal Hprin Hpaid.
    generalize (Nat.iter 12 month
                  {| annual_interest := 0; annual_principal := 0;
                     summary_balance := running_balance s |}).
    intros m Hbal Hprin Hpaid.
    cbn [running_balance total_paid_full_term total_paid_at_holding
           principal_paid_at_holding].
    rewrite Hpaid, Hbal, Hprin.
    split; [reflexivity|]. split; [f_equal; ring|].
    split; destruct (year <=? holding_period)%Z;
      try reflexivity; f_equal; ring.
Qed.

(** The totals after the years 1 to [k]. *)
Lemma summary_loop_on_schedule (k : nat) :
  let s :=
    fold_left year_step (range 1 (1 + Z.of_nat k))
      {| running_balance := loan_amount; total_paid_at_holding := 0;
         principal_paid_at_holding := 0; total_paid_full_term := 0 |} in
  running_balance s = scheduled (Z.of_nat k) /\
  total_paid_full_term s
  = sum (map service (range 1 (1 + Z.of_nat k))) /\
  total_paid_at_holding s
  = sum (map service
           (range 1 (1 + Z.min (Z.of_nat k) holding_period))) /\
  principal_paid_at_holding s
  = loan_amount - scheduled (Z.min (Z.of_nat k) holding_period).
Proof.
  induction k as [|k IH]; cbv zeta.
  - rewrite range_empty. cbn [fold_left].
    cbn [running_balance total_paid_full_term total_paid_at_holding
           principal_paid_at_holding].
    replace (Z.min (Z.of_nat 0) holding_period) with 0%Z by lia.
    change (Z.of_nat 0) with 0%Z.
    rewrite (scheduled_io loan_amount interest_rate amortization io_period
               rate_pos amortizing) by lia.
    change (range 1 (1 + 0)) with (@nil Z).
    split; [reflexivity|]. split; [reflexivity|]. split; [reflexivity|].
    ring.
  - cbv zeta in IH. rewrite range_snoc, fold_left_app. cbn [fold_left].
    revert IH.
    generalize
      (fold_left year_step (range 1 (1 + Z.of_nat k))
         {| running_balance := loan_amount; total_paid_at_holding := 0;
            principal_paid_at_holding := 0; total_paid_full_term := 0 |}).
    intros s [Hbal [Hfull [Hhold Hprin]]].
    destruct (summary_year_on_schedule (1 + Z.of_nat k) s ltac:(lia))
      as [Hbal' [Hfull' [Hhold' Hprin']]].
    { rewrite Hbal. f_equal. lia. }
    rewrite Hbal', Hfull', Hhold', Hprin'.
    split; [f_equal; lia|]. split.
    + rewrite map_app. cbn [map]. rewrite sum_snoc, Hfull. reflexivity.
    + destruct (1 + Z.of_nat k <=? holding_period)%Z eqn:Hk.
      * apply Z.leb_le in Hk.
        replace (Z.min (Z.of_nat (S k)) holding_period)
          with (Z.of_nat (S k)) by lia.
        replace (Z.min (Z.of_nat k) holding_period)
          with (Z.of_nat k) in Hhold, Hprin by lia.
        rewrite range_snoc, map_app. cbn [map].
        rewrite sum_snoc, Hhold, Hprin. split.
        -- reflexivity.
        -- replace (1 + Z.of_nat k - 1)%Z with (Z.of_nat k) by lia.
           replace (1 + Z.of_nat k)%Z with (Z.of_nat (S k)) by lia.
           ring.
      * apply Z.leb_gt in Hk.
        replace (Z.min (Z.of_nat (S k)) holding_period)
          with (Z.min (Z.of_nat k) holding_period) by lia.
        split; assumption.
Qed.

(** The closed form of [calc_remaining_balance] is the scheduled
    balance at the end of the holding period. *)
Lemma remaining_balance_scheduled :
  (holding_period <= amortization)%Z ->
  calc_remaining_balance loan_amount interest_rate amortization io_period
    holding_period = Ok (scheduled holding_period).
Proof.
  intros Hhold. unfold calc_remaining_balance.
  pose proof (Qclt_0_neq _ loan_pos) as Hloan.
  apply Qceqb_neq in Hloan. rewrite Hloan, orb_false_r.
  destruct (holding_period <=? io_period)%Z eqn:Hio.
  - apply Z.leb_le in Hio.
    now rewrite (scheduled_io loan_amount interest_rate amortization
                   io_period rate_pos amortizing) by lia.
  - apply Z.leb_gt in Hio.
    destruct ((amortization - holding_period) * 12 <=? 0)%Z eqn:Hrem.
    + apply Z.leb_le in Hrem.
      replace holding_period with amortization by lia.
      now rewrite (scheduled_paid_off loan_amount interest_rate
                     amortization io_period rate_pos amortizing).
    + apply Z.leb_gt in Hrem.
      unfold scheduled_balance.
      replace (12 * Z.max 0 (holding_period - io_period))%Z
        with ((holding_period - io_period) * 12)%Z by lia.
      replace n
        with ((holding_period - io_period) * 12
              + (amortization - holding_period) * 12)%Z by lia.
      rewrite pow_add by lia.
      pose proof (monthly_rate_pos interest_rate rate_pos) as Hr.
      apply Qclt_0_neq in Hr.
      pose proof (pow_growth_nonzero interest_rate rate_pos
                    ((amortization - holding_period) * 12) ltac:(lia))
        as HAk.
      pose proof (annuity_denominator_nonzero interest_rate rate_pos n
                    ltac:(lia)) as Hden.
      replace n
        with ((holding_period - io_period) * 12
              + (amortization - holding_period) * 12)%Z in Hden by lia.
      rewrite pow_add in Hden by lia.
      revert Hr HAk Hden.
      generalize (pow (1 + r) ((amortization - holding_period) * 12)).
      generalize (pow (1 + r) ((holding_period - io_period) * 12)).
      generalize r.
      intros x Am Ak Hr HAk Hden.
      rewrite div_ok by exact Hden. cbn [bind].
      rewrite div_ok by (apply Qcmult_neq_0; assumption).
      f_equal. field. auto.
Qed.

Lemma payment_totals_on_schedule :
  (holding_period <= amortization)%Z ->
  exists s,
    payment_totals loan_amount interest_rate amortization io_period
      holding_period = Ok s /\
    running_balance s = 0 /\
    total_paid_at_holding s
    = sum (map service (range 1 (holding_period + 1))) /\
    calc_remaining_balance loan_amount interest_rate amortization io_period
      holding_period = Ok (loan_amount - principal_paid_at_holding s).
Proof.
  intros Hhold. unfold payment_totals.
  rewrite (amortizing_payment_value loan_amount interest_rate amortization
             io_period rate_pos amortizing).
  cbn [bind]. eexists. split; [reflexivity|].
  pose proof (summary_loop_on_schedule (Z.to_nat amortization)) as Hloop.
  cbv zeta in Hloop.
  replace (1 + Z.of_nat (Z.to_nat amortization))%Z
    with (amortization + 1)%Z in Hloop by lia.
  replace (Z.min (Z.of_nat (Z.to_nat amortization)) holding_period)
    with holding_period in Hloop by lia.
  replace (Z.of_nat (Z.to_nat amortization)) with amortization in Hloop
    by lia.
  destruct Hloop as [Hbal [_ [Htotal Hprin]]].
  rewrite Hbal, Htotal, Hprin.
  split.
  - apply scheduled_paid_off; assumption.
  - split.
    + replace (1 + holding_period)%Z with (holding_period + 1)%Z by lia.
      reflexivity.
    + rewrite (remaining_balance_scheduled Hhold). f_equal. ring.
Qed.

End PaymentSummary.

(** The loan payment summary of an amortizing loan at a positive rate,
    for a holding period within the amortization period.  The "Total
    Paid" at the end of the holding period is the total of the
    debt-service column of the cash-flow projection; the "Principal
    Paid" by then and the loan balance that [calc_remaining_balance]
    deducts from the sale proceeds add up to the loan amount; and the
    summary's own balance reaches 0 after the last year. *)
Theorem payment_summary_matches_projection (i : Inputs) :
  0 < loan_amount i ->
  0 < interest_rate i ->
  (0 <= io_period i < amortization i)%Z ->
  (0 <= holding_period i <= amortization i)%Z ->
  exists s rows remaining,
    payment_totals (loan_amount i) (interest_rate i) (amortization i)
      (io_period i) (holding_period i) = Ok s /\
    cf_df i = Ok rows /\
    calc_remaining_balance (loan_amount i) (interest_rate i)
      (amortization i) (io_period i) (holding_period i) = Ok remaining /\
    total_paid_at_holding s = sum (map Debt_Service rows) /\
    principal_paid_at_holding s + remaining = loan_amount i /\
    running_balance s = 0.
Proof.
  intros Hloan Hrate [Hio Ham] [Hh0 Hh].
  destruct (payment_totals_on_schedule (loan_amount i) (interest_rate i)
              (amortization i) (io_period i) (holding_period i)
              Hrate Hloan Hio Ham Hh0 Hh)
    as [s [Hs [Hbal [Htotal Hrem]]]].
  destruct (cash_flow_loop_total (property_type i) (unit_rents i)
              (annual_rent_total i) (rent_growth i) (vacancy i)
              (opex_per_unit_or_sf i) (opex_growth i) (units_or_sf i)
              (management_fee i) (capex_per_unit_or_sf i) (loan_amount i)
              (interest_rate i) (amortization i) (io_period i)
              (equity_required i) (tax_rate i) (annual_depreciation i)
              (or_introl Hrate) (range 1 (holding_period i + 1))
              (loan_amount i))
    as [tr [Htr _]].
  exists s, (map fst tr), (loan_amount i - principal_paid_at_holding s).
  split; [exact Hs|]. split.
  { unfold cf_df, calculate_cash_flows, cash_flow_trace.
    rewrite Htr. reflexivity. }
  split; [exact Hrem|]. split; [|split; [ring|exact Hbal]].
  rewrite Htotal. f_equal. symmetry.
  eapply debt_service_column; [|exact Htr].
  intros year _.
  apply (debt_service_value (loan_amount i) (interest_rate i)
           (amortization i) (io_period i) Hrate Hloan Ham).
Qed.

Lemma payment_summary_example :
  exists s rows remaining,
    payment_totals (loan_amount three_year_loan)
      (interest_rate three_year_loan) (amortization three_year_loan)
      (io_period three_year_loan) (holding_period three_year_loan) = Ok s /\
    cf_df three_year_loan = Ok rows /\
    calc_remaining_balance (loan_amount three_year_loan)
      (interest_rate three_year_loan) (amortization three_year_loan)
      (io_period three_year_loan) (holding_period three_year_loan)
    = Ok remaining /\
    total_paid_at_holding s = sum (map Debt_Service rows) /\
    principal_paid_at_holding s + remaining = loan_amount three_year_loan /\
    running_balance s = 0.
Proof.
  apply (payment_summary_matches_projection three_year_loan).
  - unfold Qclt, Qlt. vm_compute. reflexivity.
  - unfold Qclt, Qlt. vm_compute. reflexivity.
  - cbn. lia.
  - cbn. lia.
Defined.

(** * Saved deals *)

(** ** The dictionary *)

Lemma dict_get_set_same (deals : Deals) (name : string) (data : DealData) :
  dict_get (dict_set deals name data) name = Some data.
Proof.
  induction deals as [|[k v] rest IH]; cbn [dict_set dict_get].
  - now rewrite String.eqb_refl.
  - destruct (String.eqb k name) eqn:Hk; cbn [dict_get]; rewrite Hk.
    + reflexivity.
    + exact IH.
Qed.

Lemma dict_get_set_other
    (deals : Deals) (name other : string) (data : DealData) :
  other <> name ->
  dict_get (dict_set deals name data) other = dict_get deals other.
Proof.
  intros Hne. induction deals as [|[k v] rest IH]; cbn [dict_set dict_get].
  - apply not_eq_sym, String.eqb_neq in Hne. now rewrite Hne.
  - destruct (String.eqb k name) eqn:Hk; cbn [dict_get].
    + apply String.eqb_eq in Hk. subst k.
      apply not_eq_sym, String.eqb_neq in Hne. now rewrite Hne.
    + destruct (String.eqb k other); [reflexivity|exact IH].
Qed.

Lemma dict_get_del_same (deals : Deals) (name : string) :
  dict_get (dict_del deals name) name = None.
Proof.
  unfold dict_del.
  induction deals as [|[k v] rest IH]; cbn [filter dict_get fst].
  - reflexivity.
  - destruct (String.eqb k name) eqn:Hk; cbn [negb dict_get].
    + exact IH.
    + now rewrite Hk.
Qed.

Lemma dict_get_del_other (deals : Deals) (name other : string) :
  other <> name ->
  dict_get (dict_del deals name) other = dict_get deals other.
Proof.
  intros Hne. unfold dict_del.
  induction deals as [|[k v] rest IH]; cbn [filter dict_get fst].
  - reflexivity.
  - destruct (String.eqb k name) eqn:Hk; cbn [negb dict_get].
    + apply String.eqb_eq in Hk. subst k.
      apply not_eq_sym, String.eqb_neq in Hne. now rewrite Hne.
    + destruct (String.eqb k other); [reflexivity|exact IH].
Qed.

Lemma dict_mem_get (deals : Deals) (name : string) :
  dict_mem deals name = true <-> exists data, dict_get deals name = Some data.
Proof.
  unfold dict_mem.
  induction deals as [|[k v] rest IH]; cbn [existsb dict_get fst].
  - split; [discriminate|]. intros [data H]. discriminate H.
  - destruct (String.eqb k name); cbn [orb].
    + split; [eauto|reflexivity].
    + exact IH.
Qed.

(** ** The cache of [load_deals_from_file] is never stale *)

Lemma load_when_current (s : Store) :
  load_cache_current s ->
  fst (load_deals_from_file s) = read_deals (file s) /\
  file (snd (load_deals_from_file s)) = file s /\
  by_type_cache (snd (load_deals_from_file s)) = by_type_cache s /\
  load_cache_current (snd (load_deals_from_file s)).
Proof.
  unfold load_cache_current, load_deals_from_file.
  destruct (load_cache s) as [deals|] eqn:Hcache; cbn [fst snd].
  - intros ->. rewrite Hcache. repeat split; reflexivity.
  - intros _. cbn [file load_cache by_type_cache]. repeat split; reflexivity.
Qed.

Lemma store_step_current (s : Store) (c : StoreStep) :
  load_cache_current s -> load_cache_current (store_step s c).
Proof.
  intros Hs. destruct (load_when_current s Hs) as [Hload [Hfile [_ Hnext]]].
  destruct c as [|name data|name|t| |t]; cbn [store_step].
  - exact Hnext.
  - unfold save_deal_to_file.
    destruct (load_deals_from_file s) as [deals s']. exact I.
  - unfold delete_deal_from_file.
    destruct (load_deals_from_file s) as [deals s'].
    cbn [snd] in Hnext.
    destruct (dict_mem deals name); cbn [snd]; [exact I|exact Hnext].
  - unfold get_deals_by_type.
    destruct (by_type_cache s t); cbn [snd]; [exact Hs|].
    destruct (load_deals_from_file s) as [deals s'].
    cbn [snd] in Hnext. exact Hnext.
  - exact I.
  - exact Hs.
Qed.

Lemma run_store_current (f : DealsFile) (calls : list StoreStep) :
  load_cache_current (run_store f calls).
Proof.
  unfold run_store.
  assert (Hstart : load_cache_current (start_store f)) by exact I.
  revert Hstart. generalize (start_store f).
  induction calls as [|c calls IH]; intros s Hs; cbn [fold_left].
  - exact Hs.
  - apply IH, store_step_current, Hs.
Qed.

(** After any history of loads, saves, deletions, listings and cache
    expiries, with no other writer of the file,
    [load_deals_from_file] returns what the file holds at that moment
    (nothing for a missing or unreadable file), and a listing by type
    that is not served from its cache holds exactly the deals of that
    type on file, in file order. *)
Theorem load_returns_file_content
    (f : DealsFile) (calls : list StoreStep) (t : PropertyType) :
  let s := run_store f calls in
  fst (load_deals_from_file s) = read_deals (file s) /\
  (by_type_cache s t = None ->
   fst (get_deals_by_type t s) = filter (has_type t) (read_deals (file s))).
Proof.
  intros s.
  destruct (load_when_current s (run_store_current f calls))
    as [Hload _].
  split; [exact Hload|].
  intros Hcache. unfold get_deals_by_type. rewrite Hcache.
  destruct (load_deals_from_file s) as [deals s'].
  cbn [fst] in *. now rewrite Hload.
Qed.

(** Saving a deal, after any history: the file then holds the deals it
    held before with the saved one set under its name (so a missing or
    unreadable file is replaced by a file with this one deal); loading
    returns the saved deal under its name and every other name as it
    was on file. *)
Theorem save_then_load
    (f : DealsFile) (calls : list StoreStep)
    (deal_name : string) (deal_data : DealData) :
  let s := run_store f calls in
  let s' := save_deal_to_file deal_name deal_data s in
  file s' = Stored (dict_set (read_deals (file s)) deal_name deal_data) /\
  dict_get (fst (load_deals_from_file s')) deal_name = Some deal_data /\
  forall other,
    other <> deal_name ->
    dict_get (fst (load_deals_from_file s')) other
    = dict_get (read_deals (file s)) other.
Proof.
  intros s s'.
  destruct (load_when_current s (run_store_current f calls))
    as [Hload _].
  assert (Hfile : file s'
                  = Stored (dict_set (read_deals (file s)) deal_name
                              deal_data)).
  { unfold s', save_deal_to_file.
    destruct (load_deals_from_file s) as [deals s1].
    cbn [fst] in Hload. now rewrite Hload. }
  assert (Hloaded : fst (load_deals_from_file s')
                    = dict_set (read_deals (file s)) deal_name deal_data).
  { unfold load_deals_from_file.
    replace (load_cache s') with (@None Deals).
    - cbn [fst]. now rewrite Hfile.
    - unfold s', save_deal_to_file.
      destruct (load_deals_from_file s) as [deals s1]. reflexivity. }
  split; [exact Hfile|]. rewrite Hloaded. split.
  - apply dict_get_set_same.
  - intros other Hne. now apply dict_get_set_other.
Qed.

(** Deleting a deal, after any history: the call returns [True] exactly
    when the name is on file; then the file holds the other deals, the
    name is gone on the next load and every other name is as it was;
    when it returns [False] the file is left as it is. *)
Theorem delete_then_load
    (f : DealsFile) (calls : list StoreStep) (deal_name : string) :
  let s := run_store f calls in
  let found := fst (delete_deal_from_file deal_name s) in
  let s' := snd (delete_deal_from_file deal_name s) in
  found = dict_mem (read_deals (file s)) deal_name /\
  (found = true ->
   file s' = Stored (dict_del (read_deals (file s)) deal_name) /\
   dict_get (fst (load_deals_from_file s')) deal_name = None /\
   forall other,
     other <> deal_name ->
     dict_get (fst (load_deals_from_file s')) other
     = dict_get (read_deals (file s)) other) /\
  (found = false -> file s' = file s).
Proof.
  intros s found s'.
  destruct (load_when_current s (run_store_current f calls))
    as [Hload [Hfile _]].
  unfold found, s', delete_deal_from_file.
  destruct (load_deals_from_file s) as [deals s1].
  cbn [fst snd] in Hload, Hfile. subst deals.
  destruct (dict_mem (read_deals (file s)) deal_name); cbn [fst snd].
  - split; [reflexivity|]. split; [|discriminate].
    intros _. split; [reflexivity|].
    unfold load_deals_from_file. cbn [load_cache file fst read_deals].
    split.
    + apply dict_get_del_same.
    + intros other Hne. now apply dict_get_del_other.
  - split; [reflexivity|]. split; [discriminate|].
    intros _. exact Hfile.
Qed.

(** Saving and deleting clear the cache of [load_deals_from_file]
    only.  A listing by type that is in its own cache is returned
    unchanged after a save or a deletion: until it expires, a deal just
    saved is missing from the listing of its type, and a deal just
    deleted is still in it. *)
Theorem cached_listing_survives_save_and_delete
    (s : Store) (t : PropertyType) (listing : Deals)
    (deal_name : string) (deal_data : DealData) :
  by_type_cache s t = Some listing ->
  fst (get_deals_by_type t (save_deal_to_file deal_name deal_data s))
  = listing /\
  fst (get_deals_by_type t (snd (delete_deal_from_file deal_name s)))
  = listing.
Proof.
  intros Hcache.
  assert (Hload : by_type_cache (snd (load_deals_from_file s))
                  = by_type_cache s).
  { unfold load_deals_from_file. destruct (load_cache s); reflexivity. }
  split.
  - unfold get_deals_by_type, save_deal_to_file.
    destruct (load_deals_from_file s) as [deals s1].
    cbn [snd] in Hload. cbn [by_type_cache]. rewrite Hload, Hcache.
    reflexivity.
  - unfold get_deals_by_type, delete_deal_from_file.
    destruct (load_deals_from_file s) as [deals s1].
    cbn [snd] in Hload.
    destruct (dict_mem deals deal_name); cbn [snd by_type_cache];
      rewrite Hload, Hcache; reflexivity.
Qed.

Lemma cached_listing_example :
  fst (get_deals_by_type Multifamily
         (save_deal_to_file "Elm Street" example_deal
            (run_store No_file [By_type Multifamily])))
  = [] /\
  fst (get_deals_by_type Multifamily
         (snd (delete_deal_from_file "Elm Street"
                 (run_store No_file [By_type Multifamily]))))
  = [].
Proof.
  apply (cached_listing_survives_save_and_delete
           (run_store No_file [By_type Multifamily]) Multifamily []
           "Elm Street" example_deal).
  reflexivity.
Defined.

(** * The projection and the year-1 figures *)

Lemma sum_map_scale (l : list Qc) (c : Qc) :
  sum (map (fun x => x * c) l) = sum l * c.
Proof.
  induction l as [|x l IH]; cbn [map].
  - unfold sum. cbn [fold_left]. ring.
  - rewrite !sum_cons, IH. ring.
Qed.

Section YearColumn.

Variable property_type : PropertyType.
Variable unit_rents : list Qc.
Variables annual_rent_total rent_growth vacancy : Qc.
Variables opex_per_unit_or_sf opex_growth : Qc.
Variable units_or_sf : Z.
Variables management_fee capex_per_unit_or_sf : Qc.
Variables loan_amount interest_rate : Qc.
Variables amortization io_period : Z.
Variables equity_required tax_rate annual_depreciation : Qc.

Local Abbreviation year_body :=
  (cash_flow_year property_type unit_rents annual_rent_total rent_growth
     vacancy opex_per_unit_or_sf opex_growth units_or_sf management_fee
     capex_per_unit_or_sf loan_amount interest_rate amortization io_period
     equity_required tax_rate annual_depreciation).

Local Abbreviation year_loop :=
  (cash_flow_loop property_type unit_rents annual_rent_total rent_growth
     vacancy opex_per_unit_or_sf opex_growth units_or_sf management_fee
     capex_per_unit_or_sf loan_amount interest_rate amortization io_period
     equity_required tax_rate annual_depreciation).

(** The rows carry the years of the loop, in order. *)
Lemma year_column (years : list Z) :
  forall (b : Qc) (tr : list (CashFlowRow * Qc)),
    year_loop years b = Ok tr -> map Year (map fst tr) = years.
Proof.
  induction years as [|year rest IH]; intros b tr Htr;
    cbn [cash_flow_loop] in Htr.
  - injection Htr as <-. reflexivity.
  - destruct (year_body year b) as [[row b']|e] eqn:Hrow; [|discriminate].
    cbn [bind snd] in Htr.
    destruct (year_loop rest b') as [tl|e] eqn:Htl; [|discriminate].
    cbn [bind] in Htr. injection Htr as <-.
    cbn [map fst]. f_equal.
    + apply cash_flow_year_equations in Hrow. tauto.
    + exact (IH b' tl Htl).
Qed.

End YearColumn.

(** Every row of the cash-flow table in terms of the script's year-1
    figures, for every assumption set whose projection completes.
    Gross income, effective gross income and the management fee of
    year [y] are their year-1 values times [(1 + rent_growth/100)^(y-1)];
    operating expenses are the year-1 value times
    [(1 + opex_growth/100)^(y-1)]; so the NOI of year [y] equals
    [year_1_noi * (1 + rent_growth/100)^(y-1)], the projection the
    sensitivity tabs use, when the two growth rates coincide.  The rows
    are the years 1 to [holding_period], in order. *)
Theorem projection_rows_compound (i : Inputs) (rows : list CashFlowRow) :
  cf_df i = Ok rows ->
  map Year rows = range 1 (holding_period i + 1) /\
  Forall (row_compounds i) rows.
Proof.
  unfold cf_df, calculate_cash_flows, cash_flow_trace. intros H.
  apply bind_inv in H. destruct H as [tr [Htr H]].
  injection H as <-. split.
  - exact (year_column _ _ _ _ _ _ _ _ _ _ _ _ _ _ _ _ _ _ _ _ Htr).
  - apply year_loop_rows in Htr.
    apply Forall_forall. intros row Hrow.
    apply in_map_iff in Hrow. destruct Hrow as [[row' b'] [Heq Hin]].
    cbn [fst] in Heq. subst row'.
    rewrite Forall_forall in Htr.
    destruct (Htr _ Hin) as [year [b0 Hbody]].
    apply cash_flow_year_equations in Hbody.
    destruct Hbody as [Hyear [Hgri [Hegi [Hopex [Hmgmt [_ [Hnoi _]]]]]]].
    assert (Hg : Gross_Income row
                 = year_1_gri i
                   * pow (1 + rent_growth i / 100) (Year row - 1)).
    { rewrite Hgri, Hyear.
      unfold year_1_gri, annual_rent_total, unit_rents.
      destruct (property_type i); cbn [map];
        rewrite ?sum_map_scale; try reflexivity.
      - unfold sum. cbn [fold_left]. ring.
      - ring. }
    assert (He : EGI row
                 = year_1_egi i
                   * pow (1 + rent_growth i / 100) (Year row - 1)).
    { rewrite Hegi, Hg. unfold year_1_egi. ring. }
    assert (Ho : OpEx row
                 = year_1_opex i
                   * pow (1 + opex_growth i / 100) (Year row - 1)).
    { rewrite Hopex, Hyear. unfold year_1_opex.
      destruct (property_type i); reflexivity. }
    assert (Hm : Mgmt_Fees row
                 = year_1_mgmt i
                   * pow (1 + rent_growth i / 100) (Year row - 1)).
    { rewrite Hmgmt, He. unfold year_1_mgmt. ring. }
    assert (Hn : NOI row
                 = (year_1_egi i - year_1_mgmt i)
                   * pow (1 + rent_growth i / 100) (Year row - 1)
                   - year_1_opex i
                     * pow (1 + opex_growth i / 100) (Year row - 1)).
    { rewrite Hnoi, He, Ho, Hm. ring. }
    unfold row_compounds.
    repeat (split; [assumption|]).
    intros Hsame. rewrite Hn, Hsame. unfold year_1_noi. ring.
Qed.

Lemma projection_rows_compound_example :
  exists rows : list CashFlowRow,
    cf_df all_cash = Ok rows /\
    map Year rows = range 1 (holding_period all_cash + 1) /\
    Forall (row_compounds all_cash) rows.
Proof.
  destruct (cf_df all_cash) as [rows|e] eqn:Hrows.
  - exists rows. split; [reflexivity|].
    exact (projection_rows_compound all_cash rows Hrows).
  - exfalso. revert Hrows. vm_compute. discriminate.
Defined.

(** * The heat map along an unused variable *)

Lemma map_result_ext {A B : Type} (f g : A -> result B) (xs : list A) :
  (forall x, f x = g x) -> map_result f xs = map_result g xs.
Proof.
  intros Hfg. induction xs as [|x xs IH]; cbn [map_result].
  - reflexivity.
  - now rewrite Hfg, IH.
Qed.

Lemma map_result_each {A B : Type} (f : A -> result B) (xs : list A) :
  forall ys,
    map_result f xs = Ok ys ->
    Forall (fun y => exists x, In x xs /\ f x = Ok y) ys.
Proof.
  induction xs as [|x xs IH]; intros ys Hys; cbn [map_result] in Hys.
  - injection Hys as <-. constructor.
  - destruct (f x) as [y|e] eqn:Hy; [|discriminate]. cbn [bind] in Hys.
    destruct (map_result f xs) as [ys'|e]; [|discriminate].
    cbn [bind] in Hys. injection Hys as <-. constructor.
    + exists x. split; [now left|exact Hy].
    + apply Forall_impl with (2 := IH ys' eq_refl).
      intros y' [x' [Hin Hx']]. exists x'. split; [now right|exact Hx'].
Qed.

(** The seven points of a heat-map axis. *)
Lemma np_linspace_7 (start stop : Qc) :
  np_linspace start stop 7
  = map (fun k : Z => start + k * ((stop - start) / 6%Z))
        [0; 1; 2; 3; 4; 5; 6]%Z.
Proof. reflexivity. Qed.

Lemma var_ranges_seven (i : Inputs) (v : SensitivityVar) :
  exists x xs, var_ranges i v = x :: xs /\ List.length xs = 6%nat.
Proof.
  destruct v; cbn [var_ranges]; rewrite np_linspace_7; cbn [map];
    do 2 eexists; split; reflexivity.
Qed.

(** A cell does not read the value of the vacancy rate or of the
    operating-expense growth rate, on either axis. *)
Lemma two_way_cell_ignores_second `{NumpyFinancial}
    (i : Inputs) (remaining_balance : Qc)
    (var1 var2 : SensitivityVar) (metric_choice : Metric) (val1 a b : Qc) :
  var2 = Vacancy_Rate \/ var2 = OpEx_Growth_Rate ->
  two_way_cell i remaining_balance var1 var2 metric_choice val1 a
  = two_way_cell i remaining_balance var1 var2 metric_choice val1 b.
Proof.
  intros [-> | ->]; destruct var1; reflexivity.
Qed.

Lemma two_way_cell_ignores_first `{NumpyFinancial}
    (i : Inputs) (remaining_balance : Qc)
    (var1 var2 : SensitivityVar) (metric_choice : Metric) (a b val2 : Qc) :
  var1 = Vacancy_Rate \/ var1 = OpEx_Growth_Rate ->
  two_way_cell i remaining_balance var1 var2 metric_choice a val2
  = two_way_cell i remaining_balance var1 var2 metric_choice b val2.
Proof.
  intros [-> | ->]; destruct var2; reflexivity.
Qed.

(** The two-way heat map has the same unused variables as the one-way
    sweep.  Whenever the grid is produced: with the vacancy rate or the
    operating-expense growth rate as second variable, every row holds
    one number seven times; with one of them as first variable, the
    seven rows are one and the same row.  The heat map shows no
    sensitivity to these two variables, whatever the deal and the
    metric. *)
Theorem two_way_grid_flat_along_unused_variable `{NumpyFinancial}
    (i : Inputs) (var1 var2 : SensitivityVar) (metric_choice : Metric)
    (grid : list (list Qc)) :
  two_way_analysis i var1 var2 metric_choice = Ok grid ->
  (var2 = Vacancy_Rate \/ var2 = OpEx_Growth_Rate ->
   Forall (fun row => exists c, row = repeat c 7) grid) /\
  (var1 = Vacancy_Rate \/ var1 = OpEx_Growth_Rate ->
   exists row, grid = repeat row 7).
Proof.
  intros Hgrid. unfold two_way_analysis in Hgrid.
  destruct (compute_valuation i) as [v|e]; [|discriminate].
  cbn [bind] in Hgrid. unfold two_way_grid in Hgrid.
  split; intros Hvar.
  - apply map_result_each in Hgrid.
    apply Forall_impl with (2 := Hgrid).
    intros row [val1 [_ Hrow]].
    destruct (var_ranges_seven i var2) as [x [xs [Hrange Hlen]]].
    rewrite Hrange in Hrow.
    apply map_result_constant in Hrow.
    + now rewrite Hlen in Hrow.
    + intros a b. now apply two_way_cell_ignores_second.
  - destruct (var_ranges_seven i var1) as [x [xs [Hrange Hlen]]].
    rewrite Hrange in Hgrid.
    apply map_result_constant in Hgrid.
    + now rewrite Hlen in Hgrid.
    + intros a b. apply map_result_ext. intros val2.
      now apply two_way_cell_ignores_first.
Qed.

Lemma two_way_grid_flat_example :
  exists grid,
    two_way_analysis (H := irr_not_found) all_cash Exit_Cap_Rate Vacancy_Rate
      Equity_Multiple = Ok grid /\
    (Vacancy_Rate = Vacancy_Rate \/ Vacancy_Rate = OpEx_Growth_Rate ->
     Forall (fun row => exists c, row = repeat c 7) grid) /\
    (Exit_Cap_Rate = Vacancy_Rate \/ Exit_Cap_Rate = OpEx_Growth_Rate ->
     exists row, grid = repeat row 7).
Proof.
  destruct (two_way_analysis (H := irr_not_found) all_cash Exit_Cap_Rate
              Vacancy_Rate Equity_Multiple) as [grid|e] eqn:Hgrid.
  - exists grid. split; [reflexivity|].
    exact (two_way_grid_flat_along_unused_variable (H := irr_not_found)
             all_cash Exit_Cap_Rate Vacancy_Rate Equity_Multiple grid Hgrid).
  - exfalso. revert Hgrid. vm_compute. discriminate.
Defined.

(** * The best deal of a comparison *)

(** The scan keeps the first index of the largest score seen so far. *)
Lemma best_from_first_maximum (scores : list Z) :
  forall (seen : list Z) (best : nat) (best_score : Z),
    (best < List.length seen)%nat ->
    nth best seen 0%Z = best_score ->
    (forall j, (j < List.length seen)%nat ->
               (nth j seen 0 <= best_score)%Z) ->
    (forall j, (j < best)%nat -> (nth j seen 0 < best_score)%Z) ->
    let b := best_from best best_score (List.length seen) scores in
    (b < List.length (seen ++ scores))%nat /\
    (forall j, (j < List.length (seen ++ scores))%nat ->
               (nth j (seen ++ scores) 0 <= nth b (seen ++ scores) 0)%Z) /\
    (forall j, (j < b)%nat ->
               (nth j (seen ++ scores) 0 < nth b (seen ++ scores) 0)%Z).
Proof.
  induction scores as [|s rest IH];
    intros seen best best_score Hbest Hscore Hmax Hfirst; cbv zeta.
  - cbn [best_from]. rewrite app_nil_r, Hscore. auto.
  - cbn [best_from].
    assert (Hlen : List.length (seen ++ [s]) = S (List.length seen))
      by (rewrite length_app; cbn [List.length]; lia).
    assert (Happ : (seen ++ [s]) ++ rest = seen ++ s :: rest)
      by (rewrite <- app_assoc; reflexivity).
    assert (Hlast : nth (List.length seen) (seen ++ [s]) 0%Z = s)
      by (rewrite app_nth2 by lia; now rewrite Nat.sub_diag).
    destruct (best_score <? s)%Z eqn:Hs.
    + apply Z.ltb_lt in Hs.
      pose proof (IH (seen ++ [s]) (List.length seen) s) as Hnext.
      cbv zeta in Hnext. rewrite Hlen, Happ in Hnext.
      apply Hnext.
      * lia.
      * exact Hlast.
      * intros j Hj.
        destruct (Nat.lt_ge_cases j (List.length seen)) as [Hlt|Hge].
        -- rewrite app_nth1 by exact Hlt. specialize (Hmax j Hlt). lia.
        -- replace j with (List.length seen) by lia. rewrite Hlast. lia.
      * intros j Hj. rewrite app_nth1 by lia.
        specialize (Hmax j ltac:(lia)). lia.
    + apply Z.ltb_ge in Hs.
      pose proof (IH (seen ++ [s]) best best_score) as Hnext.
      cbv zeta in Hnext. rewrite Hlen, Happ in Hnext.
      apply Hnext.
      * lia.
      * now rewrite app_nth1 by exact Hbest.
      * intros j Hj.
        destruct (Nat.lt_ge_cases j (List.length seen)) as [Hlt|Hge].
        -- rewrite app_nth1 by exact Hlt. exact (Hmax j Hlt).
        -- replace j with (List.length seen) by lia. rewrite Hlast. lia.
      * intros j Hj. rewrite app_nth1 by lia. exact (Hfirst j Hj).
Qed.

Lemma comparison_total_bounds (deal_data : DealData) :
  (9 <= comparison_total deal_data <= 100)%Z.
Proof.
  unfold comparison_total, comparison_score.
  match goal with
  | |- context [calculate_deal_score ?m ?p] =>
      destruct (calculate_deal_score m p) as [[[total sb] grade] rating]
        eqn:Hscore
  end.
  cbn [fst]. exact (deal_score_bounds _ _ _ _ _ _ Hscore).
Qed.

(** The "BEST DEAL" badge of the comparison goes to one of the selected
    deals, one whose comparison score no other selected deal exceeds,
    and every deal selected before it scores strictly less: on a tie
    the deal selected first wins.  Every comparison score lies between
    9 and 100. *)
Theorem best_deal_is_first_maximum
    (first_deal : DealData) (other_deals : list DealData) :
  let scores := map comparison_total (first_deal :: other_deals) in
  let best := best_deal first_deal other_deals in
  (best < List.length scores)%nat /\
  (forall j, (j < List.length scores)%nat ->
             (nth j scores 0 <= nth best scores 0)%Z) /\
  (forall j, (j < best)%nat -> (nth j scores 0 < nth best scores 0)%Z) /\
  Forall (fun s => 9 <= s <= 100)%Z scores.
Proof.
  cbv zeta. unfold best_deal, best_idx. cbn [map].
  destruct (best_from_first_maximum (map comparison_total other_deals)
              [comparison_total first_deal] 0 (comparison_total first_deal))
    as [Hin [Hmax Hfirst]].
  - cbn [List.length]. lia.
  - reflexivity.
  - intros j Hj. cbn [List.length] in Hj.
    replace j with 0%nat by lia. cbn [nth]. lia.
  - intros j Hj. lia.
  - cbv zeta in Hin, Hmax, Hfirst. cbn [app List.length] in Hin, Hmax, Hfirst.
    split; [exact Hin|]. split; [exact Hmax|]. split; [exact Hfirst|].
    change (comparison_total first_deal :: map comparison_total other_deals)
      with (map comparison_total (first_deal :: other_deals)).
    apply Forall_forall. intros s Hs.
    apply in_map_iff in Hs. destruct Hs as [d [<- _]].
    apply comparison_total_bounds.
Qed.

(** * Better metrics never lower the score *)

(** Case analysis along a chain of threshold tests: each test is
    decided, and the chain is cut at the first one that holds. *)
Ltac walk_chain :=
  repeat (match goal with
          | |- context [if ?c then _ else _] =>
              lazymatch c with
              | true => fail
              | false => fail
              | _ => destruct c eqn:?
              end
          end; cbv iota).

(** Decided tests as inequalities between fractions, with the
    constants evaluated. *)
Ltac thresholds_to_q :=
  repeat match goal with
         | H : (_ <=? _) = true |- _ => apply Qcleb_le in H
         | H : (_ <=? _) = false |- _ => apply Qcleb_gt in H
         end;
  unfold Qcle, Qclt in *;
  repeat match goal with
         | H : context [this (ofZ ?k)] |- _ =>
             let v := eval vm_compute in (this (ofZ k)) in
             change (this (ofZ k)) with v in H
         | H : context [this (dec ?n ?d)] |- _ =>
             let v := eval vm_compute in (this (dec n d)) in
             change (this (dec n d)) with v in H
         end.

Ltac chain_monotone :=
  walk_chain; try lia; exfalso; thresholds_to_q; lra.

Lemma irr_score_monotone (x y : Qc) :
  x <= y -> (irr_score x <= irr_score y)%Z.
Proof. intros Hxy. unfold irr_score. chain_monotone. Qed.

Lemma em_score_monotone (x y : Qc) :
  x <= y -> (em_score x <= em_score y)%Z.
Proof. intros Hxy. unfold em_score. chain_monotone. Qed.

Lemma value_score_monotone (x y : Qc) :
  x <= y -> (value_score x <= value_score y)%Z.
Proof. intros Hxy. unfold value_score. chain_monotone. Qed.

Lemma coc1_score_monotone (x y : Qc) :
  x <= y -> (coc1_score x <= coc1_score y)%Z.
Proof. intros Hxy. unfold coc1_score. chain_monotone. Qed.

Lemma coc_avg_score_monotone (x y : Qc) :
  x <= y -> (coc_avg_score x <= coc_avg_score y)%Z.
Proof. intros Hxy. unfold coc_avg_score. chain_monotone. Qed.

Lemma dscr_score_monotone (ltv : Qc) (m m' : MetricsDict) :
  get (m_dscr m) 0 <= get (m_dscr m') 0 ->
  (dscr_score ltv m <= dscr_score ltv m')%Z.
Proof.
  intros Hxy. unfold dscr_score.
  destruct (ltv =? 0); [lia|]. cbv zeta. chain_monotone.
Qed.

(** NPV as a percentage of equity grows with the NPV. *)
Lemma npv_pct_monotone (npv npv' equity : Qc) :
  npv <= npv' ->
  (if 0 <? equity then npv / equity * 100 else 0)
  <= (if 0 <? equity then npv' / equity * 100 else 0).
Proof.
  intros Hnpv. destruct (0 <? equity) eqn:Heq; [|apply Qcle_refl].
  apply Qcltb_lt in Heq.
  qc_to_q in Hnpv. qc_to_q in Heq. qc_to_q.
  apply Qmult_le_compat_r; [|unfold inject_Z, Qle; simpl; lia].
  apply Qmult_le_compat_r; [exact Hnpv|].
  apply Qlt_le_weak, Qinv_lt_0_compat, Heq.
Qed.

(** The total score of [calculate_deal_score] never goes down when a
    return metric goes up.  With the same property data and the same
    going-in cap rate, a deal whose IRR, equity multiple, NPV, year-1
    and average cash-on-cash return and coverage ratio are all at
    least those of another deal scores at least as much. *)
Theorem better_metrics_never_lower_the_score
    (m m' : MetricsDict) (p : PropertyDict) :
  get (m_irr m) 0 <= get (m_irr m') 0 ->
  get (m_equity_multiple m) 1 <= get (m_equity_multiple m') 1 ->
  get (m_npv m) 0 <= get (m_npv m') 0 ->
  get (m_year1_coc m) 0 <= get (m_year1_coc m') 0 ->
  get (m_avg_coc m) 0 <= get (m_avg_coc m') 0 ->
  get (m_dscr m) 0 <= get (m_dscr m') 0 ->
  m_cap_rate m = m_cap_rate m' ->
  (fst (fst (fst (calculate_deal_score m p)))
   <= fst (fst (fst (calculate_deal_score m' p))))%Z.
Proof.
  intros Hirr Hem Hnpv Hcoc1 Hcoc Hdscr Hcap.
  unfold calculate_deal_score. rewrite Hcap.
  repeat match goal with
         | |- context [grade_and_rating ?t] => destruct (grade_and_rating t)
         end.
  cbn [fst].
  pose proof (irr_score_monotone _ _ Hirr).
  pose proof (em_score_monotone _ _ Hem).
  pose proof (value_score_monotone _ _
                (npv_pct_monotone _ _ (get (p_equity_required p) 1) Hnpv)).
  pose proof (coc1_score_monotone _ _ Hcoc1).
  pose proof (coc_avg_score_monotone _ _ Hcoc).
  pose proof (dscr_score_monotone (get (p_loan_to_value p) 0) _ _ Hdscr).
  lia.
Qed.

Lemma better_metrics_example :
  (fst (fst (fst (calculate_deal_score weaker_deal_metrics
                    strong_deal_property)))
   <= fst (fst (fst (calculate_deal_score strong_deal_metrics
                       strong_deal_property))))%Z.
Proof.
  apply better_metrics_never_lower_the_score;
    try (unfold Qcle, Qle; simpl; lia).
  reflexivity.
Defined.

(** * The balance repaid at sale *)

(** The scheduled balance never exceeds the loan amount. *)
Lemma scheduled_le_loan
    (loan_amount interest_rate : Qc) (amortization io_period y : Z) :
  0 < interest_rate -> 0 < loan_amount ->
  (io_period < amortization)%Z ->
  scheduled_balance loan_amount interest_rate amortization io_period y
  <= loan_amount.
Proof.
  intros Hrate Hloan Ham. unfold scheduled_balance.
  pose proof (annuity_denominator_pos interest_rate amortization io_period
                Hrate Ham) as Hden.
  pose proof (pow_ge_1 (1 + interest_rate / 100 / 12)
                (12 * Z.max 0 (y - io_period))
                (growth_factor_gt_1 interest_rate Hrate) ltac:(lia)) as Hge.
  revert Hden Hge.
  generalize (pow (1 + interest_rate / 100 / 12)
                ((amortization - io_period) * 12)).
  generalize (pow (1 + interest_rate / 100 / 12)
                (12 * Z.max 0 (y - io_period))).
  intros Am An Hden Hge.
  replace loan_amount with (loan_amount * (An - 1) / (An - 1)) at 2
    by (field; apply Qclt_0_neq, Hden).
  apply Qcle_scale.
  - apply Qclt_le_weak, Hloan.
  - exact Hden.
  - apply Qcle_minus_l, Hge.
Qed.

(** The loan balance deducted from the sale proceeds: for every loan
    at a positive rate, whatever the amortization, interest-only and
    holding periods, [calc_remaining_balance] returns an amount
    between 0 and the loan amount. *)
Theorem remaining_balance_within_loan
    (loan_amount interest_rate : Qc)
    (amortization io_period holding_period : Z) :
  0 < loan_amount ->
  0 < interest_rate ->
  exists remaining,
    calc_remaining_balance loan_amount interest_rate amortization io_period
      holding_period = Ok remaining /\
    0 <= remaining /\ remaining <= loan_amount.
Proof.
  intros Hloan Hrate.
  assert (Hzero : (0 : Qc) <= 0 /\ 0 <= loan_amount)
    by (split; [apply Qcle_refl|apply Qclt_le_weak, Hloan]).
  assert (Hfull : 0 <= loan_amount /\ loan_amount <= loan_amount)
    by (split; [apply Qclt_le_weak, Hloan|apply Qcle_refl]).
  destruct (Z_lt_ge_dec io_period amortization) as [Ham|Ham].
  - destruct (Z_le_gt_dec holding_period amortization) as [Hh|Hh].
    + exists (scheduled_balance loan_amount interest_rate amortization
                io_period holding_period).
      split; [now apply remaining_balance_scheduled|]. split.
      * now apply scheduled_nonneg.
      * now apply scheduled_le_loan.
    + exists 0. split; [|exact Hzero].
      unfold calc_remaining_balance.
      pose proof (Qclt_0_neq _ Hloan) as Hne.
      apply Qceqb_neq in Hne. rewrite Hne, orb_false_r.
      replace (holding_period <=? io_period)%Z with false
        by (symmetry; apply Z.leb_gt; lia).
      replace ((amortization - holding_period) * 12 <=? 0)%Z with true
        by (symmetry; apply Z.leb_le; lia).
      reflexivity.
  - unfold calc_remaining_balance.
    pose proof (Qclt_0_neq _ Hloan) as Hne.
    apply Qceqb_neq in Hne. rewrite Hne, orb_false_r.
    destruct (holding_period <=? io_period)%Z eqn:Hh.
    + exists loan_amount. split; [reflexivity|exact Hfull].
    + apply Z.leb_gt in Hh.
      replace ((amortization - holding_period) * 12 <=? 0)%Z with true
        by (symmetry; apply Z.leb_le; lia).
      exists 0. split; [reflexivity|exact Hzero].
Qed.

Lemma remaining_balance_within_loan_example :
  exists remaining,
    calc_remaining_balance 700000 12 3 1 2 = Ok remaining /\
    0 <= remaining /\ remaining <= 700000.
Proof.
  apply remaining_balance_within_loan.
  - unfold Qclt, Qlt. simpl. lia.
  - unfold Qclt, Qlt. simpl. lia.
Defined.

(** * The sale price of a valuation *)

(** The rows of the cash-flow table are the years 1 to
    [holding_period], in order. *)
Lemma cf_df_years (i : Inputs) (rows : list CashFlowRow) :
  cf_df i = Ok rows -> map Year rows = range 1 (holding_period i + 1).
Proof.
  unfold cf_df, calculate_cash_flows, cash_flow_trace. intros H.
  apply bind_inv in H. destruct H as [tr [Htr H]].
  injection H as <-.
  exact (year_column _ _ _ _ _ _ _ _ _ _ _ _ _ _ _ _ _ _ _ _ Htr).
Qed.

(** The last row of the table is that of year [holding_period]. *)
Lemma cf_df_last_year
    (i : Inputs) (earlier : list CashFlowRow) (final : CashFlowRow) :
  cf_df i = Ok (earlier ++ [final]) -> Year final = holding_period i.
Proof.
  intros Hrows. apply cf_df_years in Hrows.
  pose proof (f_equal (@List.length Z) Hrows) as Hlen.
  rewrite length_map, length_app, range_length in Hlen. cbn [List.length] in Hlen.
  replace (holding_period i + 1)%Z
    with (1 + Z.of_nat (S (List.length earlier)))%Z in Hrows by lia.
  rewrite range_snoc, map_app in Hrows. cbn [map] in Hrows.
  apply app_inj_tail in Hrows. destruct Hrows as [_ Hyear].
  rewrite Hyear. lia.
Qed.

(** [cf_df.iloc[-1]] is the last row. *)
Lemma final_year_noi_last (rows : list CashFlowRow) (x : Qc) :
  final_year_noi rows = Ok x ->
  exists earlier final, rows = earlier ++ [final] /\ x = NOI final.
Proof.
  unfold final_year_noi. destruct (rev rows) as [|r l] eqn:Hrev;
    [discriminate|].
  intros Hx. injection Hx as <-.
  exists (rev l), r. split; [|reflexivity].
  apply (f_equal (@rev _)) in Hrev. rewrite rev_involutive in Hrev.
  exact Hrev.
Qed.

(** Whether the net present value is defined depends on the rate and on
    the number of flows, not on their amounts. *)
Lemma npv_from_same_outcome (rate : Qc) (xs : list Qc) :
  forall (ys : list Qc) (t : Z),
    List.length xs = List.length ys ->
    match npv_from rate t xs, npv_from rate t ys with
    | Ok _, Ok _ => True
    | Raise e, Raise e' => e = e'
    | _, _ => False
    end.
Proof.
  induction xs as [|x xs IH]; intros [|y ys] t Hlen;
    try discriminate Hlen; cbn [npv_from].
  - exact I.
  - unfold div. destruct (pow (1 + rate) t =? 0); cbn [bind];
      [reflexivity|].
    specialize (IH ys (t + 1)%Z ltac:(now injection Hlen)).
    destruct (npv_from rate (t + 1) xs), (npv_from rate (t + 1) ys);
      cbn [bind]; exact IH.
Qed.

(** The outcome of a valuation under another exit cap rate: the same
    error, or a valuation over the same cash-flow table. *)
Lemma valuation_outcome_without_exit_cap `{NumpyFinancial}
    (i : Inputs) (x : Qc) :
  match compute_valuation (set_var Exit_Cap_Rate x i), compute_valuation i with
  | Ok v', Ok v => val_cf_df v' = val_cf_df v
  | Raise e', Raise e => e' = e
  | _, _ => False
  end.
Proof.
  unfold compute_valuation.
  change (price_per_unit_or_sf (set_var Exit_Cap_Rate x i))
    with (price_per_unit_or_sf i).
  change (going_in_cap (set_var Exit_Cap_Rate x i)) with (going_in_cap i).
  change (cf_df (set_var Exit_Cap_Rate x i)) with (cf_df i).
  change (rent_growth (set_var Exit_Cap_Rate x i)) with (rent_growth i).
  change (exit_cap_rate (set_var Exit_Cap_Rate x i)) with x.
  change (selling_costs (set_var Exit_Cap_Rate x i)) with (selling_costs i).
  change (loan_amount (set_var Exit_Cap_Rate x i)) with (loan_amount i).
  change (interest_rate (set_var Exit_Cap_Rate x i)) with (interest_rate i).
  change (amortization (set_var Exit_Cap_Rate x i)) with (amortization i).
  change (io_period (set_var Exit_Cap_Rate x i)) with (io_period i).
  change (holding_period (set_var Exit_Cap_Rate x i))
    with (holding_period i).
  change (equity_required (set_var Exit_Cap_Rate x i))
    with (equity_required i).
  change (discount_rate (set_var Exit_Cap_Rate x i)) with (discount_rate i).
  destruct (price_per_unit_or_sf i); cbn [bind]; [|reflexivity].
  destruct (going_in_cap i); cbn [bind]; [|reflexivity].
  destruct (cf_df i) as [rows|]; cbn [bind]; [|reflexivity].
  destruct (final_year_noi rows) as [final_noi|]; cbn [bind]; [|reflexivity].
  destruct (sale_price_defined final_noi (rent_growth i) x) as [s' ->].
  destruct (sale_price_defined final_noi (rent_growth i) (exit_cap_rate i))
    as [s ->].
  cbn [bind].
  destruct (calc_remaining_balance (loan_amount i) (interest_rate i)
              (amortization i) (io_period i) (holding_period i))
    as [rb|]; cbn [bind]; [|reflexivity].
  change (returns_column (set_var Exit_Cap_Rate x i) rows)
    with (returns_column i rows).
  destruct (add_to_last_defined (- equity_required i) (returns_column i rows)
              (s' - s' * (selling_costs i / 100) - rb))
    as [flows' [-> [Hlen' _]]].
  destruct (add_to_last_defined (- equity_required i) (returns_column i rows)
              (s - s * (selling_costs i / 100) - rb))
    as [flows [-> [Hlen _]]].
  cbn [bind]. unfold npf_npv.
  pose proof (npv_from_same_outcome (discount_rate i / 100) flows' flows 0
                ltac:(congruence)) as Hnpv.
  destruct (npv_from (discount_rate i / 100) 0 flows'),
    (npv_from (discount_rate i / 100) 0 flows);
    cbn [bind]; try exact Hnpv; try contradiction.
  destruct (equity_multiple_defined (returns_column i rows)
              (s' - s' * (selling_costs i / 100) - rb) (equity_required i))
    as [em' [-> _]].
  destruct (equity_multiple_defined (returns_column i rows)
              (s - s * (selling_costs i / 100) - rb) (equity_required i))
    as [em [-> _]].
  cbn [bind].
  destruct (div (sum (map CoC_Return rows)) (Z.of_nat (List.length rows)));
    cbn [bind]; reflexivity.
Qed.

(** C1, as amended.  The terminal sale price inside the valuation, for
    every assumption set.  When the valuation completes, the cash-flow
    table ends with the row of year [holding_period], and the sale
    price is 0 for an exit cap rate that is zero or negative and
    [final_year_NOI * (1 + rent_growth/100) / (exit_cap_rate/100)], on
    the NOI of that last row, for a positive one.  The exit cap rate
    never makes the valuation fail: under any other exit cap rate the
    valuation raises exactly the errors it raises under this one, so
    it completes under one rate exactly when it completes under every
    rate. *)
Theorem sale_price_guarded `{NumpyFinancial} (i : Inputs) :
  (forall v : Valuation,
     compute_valuation i = Ok v ->
     exists (earlier : list CashFlowRow) (final : CashFlowRow),
       cf_df i = Ok (earlier ++ [final]) /\
       val_cf_df v = earlier ++ [final] /\
       Year final = holding_period i /\
       (exit_cap_rate i <= 0 -> val_sale_price v = 0) /\
       (0 < exit_cap_rate i ->
        val_sale_price v
        = NOI final * (1 + rent_growth i / 100) / (exit_cap_rate i / 100))) /\
  (forall (x : Qc) (e : exn),
     compute_valuation (set_var Exit_Cap_Rate x i) = Raise e
     <-> compute_valuation i = Raise e).
Proof.
  split.
  - intros v Hv. unfold compute_valuation in Hv.
    apply bind_inv in Hv. destruct Hv as [ppu [_ Hv]].
    apply bind_inv in Hv. destruct Hv as [cap [_ Hv]].
    apply bind_inv in Hv. destruct Hv as [rows [Hrows Hv]].
    apply bind_inv in Hv. destruct Hv as [final_noi [Hnoi Hv]].
    apply bind_inv in Hv. destruct Hv as [sale [Hsale Hv]].
    cbv zeta in Hv.
    apply bind_inv in Hv. destruct Hv as [rb [_ Hv]].
    apply bind_inv in Hv. destruct Hv as [flows [_ Hv]].
    apply bind_inv in Hv. destruct Hv as [npv [_ Hv]].
    apply bind_inv in Hv. destruct Hv as [em [_ Hv]].
    apply bind_inv in Hv. destruct Hv as [coc [_ Hv]].
    injection Hv as <-. cbn [val_cf_df val_sale_price].
    apply final_year_noi_last in Hnoi.
    destruct Hnoi as [earlier [final [-> ->]]].
    exists earlier, final.
    split; [exact Hrows|]. split; [reflexivity|].
    split; [exact (cf_df_last_year _ _ _ Hrows)|].
    destruct (sale_price_cases (NOI final) (rent_growth i) (exit_cap_rate i))
      as [Hzero Hpos].
    split; intros Hcap.
    + rewrite (Hzero Hcap) in Hsale. now injection Hsale.
    + rewrite (Hpos Hcap) in Hsale. now injection Hsale.
  - intros x e.
    pose proof (valuation_outcome_without_exit_cap i x) as Hout.
    destruct (compute_valuation (set_var Exit_Cap_Rate x i)) as [v'|e'],
      (compute_valuation i) as [v|e0]; try contradiction.
    + split; discriminate.
    + subst e0. reflexivity.
Qed.

Lemma sale_price_guarded_example :
  exists (v : Valuation) (earlier : list CashFlowRow) (final : CashFlowRow),
    compute_valuation (H := irr_not_found) all_cash = Ok v /\
    val_cf_df v = earlier ++ [final] /\
    Year final = holding_period all_cash /\
    val_sale_price v
    = NOI final * (1 + rent_growth all_cash / 100)
      / (exit_cap_rate all_cash / 100).
Proof.
  destruct (compute_valuation (H := irr_not_found) all_cash) as [v|e] eqn:Hv.
  - destruct (proj1 (sale_price_guarded (H := irr_not_found) all_cash) v Hv)
      as [earlier [final [_ [Hrows [Hyear [_ Hsale]]]]]].
    exists v, earlier, final.
    split; [reflexivity|]. split; [exact Hrows|]. split; [exact Hyear|].
    apply Hsale. unfold Qclt, Qlt. simpl. lia.
  - exfalso. revert Hv. vm_compute. discriminate.
Defined.

(** C1, as stated, fails: with an exit cap rate of 0 the valuation of
    the all-cash example completes, and its sale price is the number 0,
    not an error. *)
Lemma sale_price_zero_cap_returns_zero :
  exists v : Valuation,
    compute_valuation (H := irr_not_found) (set_var Exit_Cap_Rate 0 all_cash)
    = Ok v /\
    val_sale_price v = 0.
Proof.
  eexists. split; [vm_compute; reflexivity|]. reflexivity.
Qed.
